(** * Workflow-assistant RAG core: retrieval ranking and schema validation

    A shallow embedding of [src/retriever.py] and [src/validate.py].

    The two source files are thin layers over third-party packages
    (scikit-learn, NumPy/SciPy, jsonschema).  The functions of the
    repository are translated line by line; every call into a package goes
    through a type class ([Float], [NumPy], [Sklearn], [JsonSchema]) whose
    operations are the package functions the source calls.  The general
    theorems hold for every instance that meets the documented contract of
    the package; concrete instances are given further down so that the
    functions can be run on concrete inputs. *)

From Stdlib Require Import List String Ascii Bool Arith ZArith QArith Qround.
From Stdlib Require Import Lia Lra Lqa Reals DecimalString.
From Stdlib Require Import Sorting.Sorted Sorting.Permutation.
Import ListNotations.

Set Warnings "-register-all".
Local Close Scope Q_scope.
Local Close Scope R_scope.
Local Open Scope nat_scope.
Local Open Scope list_scope.
Local Open Scope string_scope.

(* ================================================================= *)
(** ** Python values and control flow *)

(** An entry of [ValidationError.path]: a property name or an array index. *)
Inductive path_elem : Type :=
| PKey (name : string)
| PIdx (index : nat).

(** The three attributes of [jsonschema.ValidationError] that
    [validate_output] reads. *)
Inductive validation_error : Type :=
| MkValidationError (message : string) (path : list path_elem)
                    (context : list validation_error).

Definition ve_message (e : validation_error) : string :=
  match e with MkValidationError m _ _ => m end.
Definition ve_path (e : validation_error) : list path_elem :=
  match e with MkValidationError _ p _ => p end.
Definition ve_context (e : validation_error) : list validation_error :=
  match e with MkValidationError _ _ c => c end.

(** Exceptions of class [Exception] that reach the functions of the core.
    [OtherException] stands for any further subclass of [Exception]; it
    carries what [str(e)] returns.  Interrupts outside [Exception]
    ([KeyboardInterrupt], [SystemExit]) come from outside the call and are
    not outcomes of it. *)
Inductive exn : Type :=
| ValidationError (e : validation_error)
| SchemaError (message : string)
| ValueError (msg : string)
| TypeError (msg : string)
| IndexError (msg : string)
| OtherException (str_e : string).

(** [str(e)] for an exception. *)
Definition exn_str (e : exn) : string :=
  match e with
  | ValidationError v => ve_message v
  | SchemaError m => m
  | ValueError m => m
  | TypeError m => m
  | IndexError m => m
  | OtherException m => m
  end.

(** Outcome of a Python call: a returned value or a raised exception. *)
Inductive result (A : Type) : Type :=
| Returns (a : A)
| Raises (e : exn).
Arguments Returns {A} a.
Arguments Raises {A} e.

Definition bind {A B : Type} (c : result A) (k : A -> result B) : result B :=
  match c with
  | Returns a => k a
  | Raises e => Raises e
  end.

Declare Scope py_scope.
Delimit Scope py_scope with py.
Notation "x <- c ;; k" := (bind c (fun x => k))
  (at level 61, c at next level, right associativity) : py_scope.
Local Open Scope py_scope.

(** A list comprehension whose element expression may raise. *)
Fixpoint mapM {A B : Type} (f : A -> result B) (l : list A) : result (list B) :=
  match l with
  | [] => Returns []
  | a :: l' => b <- f a ;; bs <- mapM f l' ;; Returns (b :: bs)
  end.

(** [l[idx]] for a non-negative index. *)
Definition getitem {A : Type} (l : list A) (idx : nat) : result A :=
  match nth_error l idx with
  | Some a => Returns a
  | None => Raises (IndexError "list index out of range")
  end.

(* ================================================================= *)
(** ** JSON-like values

    What [json.load] produces: [None], [bool], [int], [float], [str],
    [list] and [dict] with string keys.  A [dict] keeps insertion order
    and is kept as an association list without repeated keys.  Characters
    are code points below 256. *)

(** A finite [float]: the rational number it denotes and its [repr], the
    shortest decimal string that reads back as that number. *)
Record pyfloat : Type := {
  float_value : Q;
  float_repr : string
}.

Inductive json : Type :=
| JNull
| JBool (b : bool)
| JInt (n : Z)
| JFloat (x : pyfloat)
| JStr (s : string)
| JArr (items : list json)
| JObj (members : list (string * json)).

Definition dict : Type := list (string * json).

(** [d.get(key, default)] *)
Fixpoint dict_get (d : dict) (key : string) (default : json) : json :=
  match d with
  | [] => default
  | (k, v) :: d' => if String.eqb k key then v else dict_get d' key default
  end.

(** [key in d] for a string key. *)
Fixpoint dict_has (d : dict) (key : string) : bool :=
  match d with
  | [] => false
  | (k, _) :: d' => String.eqb k key || dict_has d' key
  end.

(** [d[key]] when the key is present. *)
Fixpoint dict_lookup (d : dict) (key : string) : option json :=
  match d with
  | [] => None
  | (k, v) :: d' => if String.eqb k key then Some v else dict_lookup d' key
  end.

(** Truth value of an object, as tested by [if not x]. *)
Definition truthy (v : json) : bool :=
  match v with
  | JNull => false
  | JBool b => b
  | JInt n => negb (n =? 0)%Z
  | JFloat x => negb (Qeq_bool (float_value x) 0)
  | JStr s => negb (String.eqb s EmptyString)
  | JArr l => match l with [] => false | _ => true end
  | JObj m => match m with [] => false | _ => true end
  end.

(** [field in candidate] where [candidate] is a dict: unhashable operands
    raise, hashable ones that are not strings equal no key. *)
Definition py_in_dict (field : json) (candidate : dict) : result bool :=
  match field with
  | JStr s => Returns (dict_has candidate s)
  | JArr _ => Raises (TypeError "unhashable type: 'list'")
  | JObj _ => Raises (TypeError "unhashable type: 'dict'")
  | _ => Returns false
  end.

(** Iteration over an object ([for field in x]) and [len(x)]. *)
Definition py_iter (v : json) : result (list json) :=
  match v with
  | JArr l => Returns l
  | JStr s => Returns (map (fun c => JStr (String c EmptyString)) (list_ascii_of_string s))
  | JObj m => Returns (map (fun kv => JStr (fst kv)) m)
  | JNull => Raises (TypeError "'NoneType' object is not iterable")
  | JBool _ => Raises (TypeError "'bool' object is not iterable")
  | JInt _ => Raises (TypeError "'int' object is not iterable")
  | JFloat _ => Raises (TypeError "'float' object is not iterable")
  end.

(** Equality of loaded JSON values as the [enum] keyword takes it:
    Python's [==], except that a boolean equals no number.  An [int] and a
    [float] are equal when they denote the same number; two dicts are
    equal when they have the same keys with equal values, in any order. *)
Fixpoint json_eqb (a b : json) {struct a} : bool :=
  let fix list_eqb (l1 l2 : list json) {struct l1} : bool :=
    match l1, l2 with
    | [], [] => true
    | x :: l1', y :: l2' => json_eqb x y && list_eqb l1' l2'
    | _, _ => false
    end in
  let fix members_sub (l1 l2 : list (string * json)) {struct l1} : bool :=
    match l1 with
    | [] => true
    | (k, x) :: l1' =>
        match dict_lookup l2 k with
        | Some y => json_eqb x y && members_sub l1' l2
        | None => false
        end
    end in
  match a, b with
  | JNull, JNull => true
  | JBool x, JBool y => Bool.eqb x y
  | JInt x, JInt y => (x =? y)%Z
  | JInt x, JFloat y => Qeq_bool (inject_Z x) (float_value y)
  | JFloat x, JInt y => Qeq_bool (float_value x) (inject_Z y)
  | JFloat x, JFloat y => Qeq_bool (float_value x) (float_value y)
  | JStr x, JStr y => String.eqb x y
  | JArr x, JArr y => list_eqb x y
  | JObj x, JObj y => (List.length x =? List.length y)%nat && members_sub x y
  | _, _ => false
  end.

(* ----------------------------------------------------------------- *)
(** *** Text forms: [str], [repr] and [json.dumps] *)

Definition str_of_Z (n : Z) : string := NilZero.string_of_int (Z.to_int n).
Definition str_of_nat (n : nat) : string := str_of_Z (Z.of_nat n).

Definition dquote : ascii := "034"%char.
Definition squote : ascii := "039"%char.
Definition backslash : ascii := "092"%char.

Definition hex_digit (n : nat) : ascii :=
  nth n (list_ascii_of_string "0123456789abcdef") "0"%char.

Definition hex2 (c : ascii) : string :=
  let n := nat_of_ascii c in
  String (hex_digit (n / 16)) (String (hex_digit (n mod 16)) EmptyString).

Fixpoint str_contains (c : ascii) (s : string) : bool :=
  match s with
  | EmptyString => false
  | String a s' => Ascii.eqb a c || str_contains c s'
  end.

Fixpoint str_flat_map (f : ascii -> string) (s : string) : string :=
  match s with
  | EmptyString => EmptyString
  | String a s' => f a ++ str_flat_map f s'
  end.

(** [str.isprintable] on a code point below 256. *)
Definition is_printable (c : ascii) : bool :=
  let n := nat_of_ascii c in
  (((32 <=? n) && (n <? 127)) || ((161 <=? n) && negb (n =? 173)))%nat.

(** [repr(s)] for a string. *)
Definition repr_str (s : string) : string :=
  let quote :=
    if str_contains squote s && negb (str_contains dquote s)
    then dquote else squote in
  let esc (c : ascii) : string :=
    if Ascii.eqb c quote || Ascii.eqb c backslash
    then String backslash (String c EmptyString)
    else if Ascii.eqb c "010"%char then String backslash "n"
    else if Ascii.eqb c "013"%char then String backslash "r"
    else if Ascii.eqb c "009"%char then String backslash "t"
    else if is_printable c then String c EmptyString
    else String backslash ("x" ++ hex2 c) in
  String quote (str_flat_map esc s ++ String quote EmptyString).

(** [repr(v)] of the Python object a JSON value is loaded as. *)
Fixpoint py_repr (v : json) : string :=
  match v with
  | JNull => "None"
  | JBool true => "True"
  | JBool false => "False"
  | JInt n => str_of_Z n
  | JFloat x => float_repr x
  | JStr s => repr_str s
  | JArr l => "[" ++ String.concat ", " (map py_repr l) ++ "]"
  | JObj m =>
      "{" ++ String.concat ", "
               (map (fun kv => repr_str (fst kv) ++ ": " ++ py_repr (snd kv)) m)
          ++ "}"
  end.

(** [str(v)], which is what an f-string placeholder inserts. *)
Definition py_str (v : json) : string :=
  match v with
  | JStr s => s
  | _ => py_repr v
  end.

(** A string literal as [json.dumps] writes it ([ensure_ascii=True]). *)
Definition json_dumps_str (s : string) : string :=
  let esc (c : ascii) : string :=
    if Ascii.eqb c dquote || Ascii.eqb c backslash
    then String backslash (String c EmptyString)
    else if Ascii.eqb c "010"%char then String backslash "n"
    else if Ascii.eqb c "013"%char then String backslash "r"
    else if Ascii.eqb c "009"%char then String backslash "t"
    else if Ascii.eqb c "008"%char then String backslash "b"
    else if Ascii.eqb c "012"%char then String backslash "f"
    else if ((32 <=? nat_of_ascii c) && (nat_of_ascii c <? 127))%nat
         then String c EmptyString
    else String backslash ("u00" ++ hex2 c) in
  String dquote (str_flat_map esc s ++ String dquote EmptyString).

(** [json.dumps(v, separators=(',', ':'))] *)
Fixpoint json_dumps (v : json) : string :=
  match v with
  | JNull => "null"
  | JBool true => "true"
  | JBool false => "false"
  | JInt n => str_of_Z n
  | JFloat x => float_repr x
  | JStr s => json_dumps_str s
  | JArr l => "[" ++ String.concat "," (map json_dumps l) ++ "]"
  | JObj m =>
      "{" ++ String.concat ","
               (map (fun kv => json_dumps_str (fst kv) ++ ":" ++ json_dumps (snd kv)) m)
          ++ "}"
  end.

(* ================================================================= *)
(** ** [src/validate.py] *)

(** The one function [validate.py] imports from the jsonschema package:
    [validate(instance=..., schema=...)] returns [None] or raises. *)
Class JsonSchema : Type := {
  validate : json -> json -> result unit
}.

Section Validate.
Context {jsonschema : JsonSchema}.

(** [str(p)] for an entry of [e.path]. *)
Definition path_elem_str (p : path_elem) : string :=
  match p with
  | PKey s => s
  | PIdx i => str_of_nat i
  end.

(** [validate_output(candidate, schema)]: one [try] with three handlers,
    tried in the order [ValidationError], [SchemaError], [Exception]. *)
Definition validate_output (candidate schema : dict)
  : result (bool * list string) :=
  let errors : list string := [] in
  match validate (JObj candidate) (JObj schema) with
  | Returns _ => Returns (true, [])
  | Raises (ValidationError e) =>
      let error_msg :=
        "Validation error at path '"
          ++ String.concat "." (map path_elem_str (ve_path e))
          ++ "': " ++ ve_message e in
      let errors := (errors ++ [error_msg])%list in
      let errors :=
        fold_left
          (fun errors suberror =>
             let sub_msg := "  - Sub-error: " ++ ve_message suberror in
             (errors ++ [sub_msg])%list)
          (ve_context e) errors in
      Returns (false, errors)
  | Raises (SchemaError message) =>
      Returns (false, (errors ++ [("Schema error: " ++ message)%string])%list)
  | Raises e =>
      Returns (false, (errors ++ [("Unexpected validation error: " ++ exn_str e)%string])%list)
  end.

End Validate.

(** [coverage_metric(candidate, schema)].  The quotient of two Python
    integers is kept as the exact rational. *)
Definition coverage_metric (candidate schema : dict) : result Q :=
  let required_fields := dict_get schema "required" (JArr []) in
  if negb (truthy required_fields) then Returns 1%Q
  else
    fields <- py_iter required_fields ;;
    present <- mapM (fun field => py_in_dict field candidate) fields ;;
    let present_count := List.length (filter (fun b : bool => b) present) in
    Returns (Qmake (Z.of_nat present_count) (Pos.of_nat (List.length fields))).

(* ================================================================= *)
(** ** The jsonschema package on the keywords of the specification

    An executable instance of [JsonSchema] for schemas built from the
    keywords [type], [properties], [required] and [enum]; every other
    member of a schema object is read as an annotation.  [validate] first
    checks the schema against the metaschema and raises [SchemaError];
    then it raises the single most relevant error of [iter_errors], the
    first of those with the shortest path.  Which of several metaschema
    violations is reported, and the wording of the messages, follow the
    package's format strings; the theorems below rely only on which kind
    of exception is raised and on how many errors there are. *)

Module JsonSchemaFragment.

Definition simple_types : list string :=
  ["array"; "boolean"; "integer"; "null"; "number"; "object"; "string"].

Definition str_in (s : string) (l : list string) : bool :=
  existsb (String.eqb s) l.

Fixpoint str_nodup (l : list string) : bool :=
  match l with
  | [] => true
  | s :: l' => negb (str_in s l') && str_nodup l'
  end.

(** [validator.is_type(instance, type)] *)
Definition is_type (instance : json) (type : string) : bool :=
  match instance with
  | JNull => String.eqb type "null"
  | JBool _ => String.eqb type "boolean"
  | JInt _ => String.eqb type "integer" || String.eqb type "number"
  | JFloat x =>
      String.eqb type "number"
      || (String.eqb type "integer"
          && Pos.eqb (Qden (Qred (float_value x))) 1)
  | JStr _ => String.eqb type "string"
  | JArr _ => String.eqb type "array"
  | JObj _ => String.eqb type "object"
  end.

(** [ensure_list(types)] for a checked [type] keyword. *)
Definition type_names (types : json) : list string :=
  match types with
  | JStr t => [t]
  | JArr l => flat_map (fun t => match t with JStr n => [n] | _ => [] end) l
  | _ => []
  end.

Definition type_keyword (types instance : json) : list validation_error :=
  let names := type_names types in
  if existsb (is_type instance) names then []
  else [MkValidationError
          (py_repr instance ++ " is not of type "
             ++ String.concat ", " (map repr_str names)) [] []].

Definition required_keyword (required instance : json) : list validation_error :=
  match instance, required with
  | JObj members, JArr names =>
      flat_map
        (fun property =>
           match property with
           | JStr p =>
               if dict_has members p then []
               else [MkValidationError (repr_str p ++ " is a required property") [] []]
           | _ => []
           end) names
  | _, _ => []
  end.

Definition enum_keyword (enums instance : json) : list validation_error :=
  match enums with
  | JArr allowed =>
      if existsb (json_eqb instance) allowed then []
      else [MkValidationError
              (py_repr instance ++ " is not one of " ++ py_repr enums) [] []]
  | _ => []
  end.

(** [descend(..., path=property)]: the property is put in front of the
    path of every error found below it. *)
Definition push_path (p : path_elem) (e : validation_error) : validation_error :=
  MkValidationError (ve_message e) (p :: ve_path e) (ve_context e).

(** [validator.iter_errors(instance)]: the keywords of the schema in the
    order of the schema object, depth first. *)
Fixpoint iter_errors (schema instance : json) {struct schema}
  : list validation_error :=
  match schema with
  | JBool true => []
  | JBool false =>
      [MkValidationError ("False schema does not allow " ++ py_repr instance) [] []]
  | JObj members =>
      (fix keywords (kvs : list (string * json)) : list validation_error :=
         match kvs with
         | [] => []
         | (k, v) :: kvs' =>
             ((if String.eqb k "type" then type_keyword v instance
              else if String.eqb k "required" then required_keyword v instance
              else if String.eqb k "enum" then enum_keyword v instance
              else if String.eqb k "properties" then
                match v, instance with
                | JObj props, JObj inst =>
                    (fix each (ps : list (string * json)) : list validation_error :=
                       match ps with
                       | [] => []
                       | (property, subschema) :: ps' =>
                           (match dict_lookup inst property with
                            | Some value =>
                                map (push_path (PKey property))
                                    (iter_errors subschema value)
                            | None => []
                            end ++ each ps')%list
                       end) props
                | _, _ => []
                end
              else [])
             ++ keywords kvs')%list
         end) members
  | _ => []
  end.

(** The check of a schema against the metaschema: [None] when the schema
    is well formed, otherwise the message of the [SchemaError]. *)
Fixpoint check_schema (schema : json) {struct schema} : option string :=
  match schema with
  | JBool _ => None
  | JObj members =>
      (fix keywords (kvs : list (string * json)) : option string :=
         match kvs with
         | [] => None
         | (k, v) :: kvs' =>
             let here :=
               if String.eqb k "type" then
                 match v with
                 | JStr t =>
                     if str_in t simple_types then None
                     else Some (py_repr v ++ " is not valid under any of the given schemas")
                 | JArr (_ :: _ as l) =>
                     if forallb (fun t => match t with
                                          | JStr n => str_in n simple_types
                                          | _ => false end) l
                        && str_nodup (type_names v)
                     then None
                     else Some (py_repr v ++ " is not valid under any of the given schemas")
                 | _ => Some (py_repr v ++ " is not valid under any of the given schemas")
                 end
               else if String.eqb k "required" then
                 match v with
                 | JArr l =>
                     match find (fun t => match t with
                                          | JStr _ => false
                                          | _ => true end) l with
                     | Some t => Some (py_repr t ++ " is not of type 'string'")
                     | None =>
                         if str_nodup (type_names v) then None
                         else Some (py_repr v ++ " has non-unique elements")
                     end
                 | _ => Some (py_repr v ++ " is not of type 'array'")
                 end
               else if String.eqb k "enum" then
                 match v with
                 | JArr _ => None
                 | _ => Some (py_repr v ++ " is not of type 'array'")
                 end
               else if String.eqb k "properties" then
                 match v with
                 | JObj props =>
                     (fix each (ps : list (string * json)) : option string :=
                        match ps with
                        | [] => None
                        | (_, subschema) :: ps' =>
                            match check_schema subschema with
                            | Some m => Some m
                            | None => each ps'
                            end
                        end) props
                 | _ => Some (py_repr v ++ " is not of type 'object'")
                 end
               else None in
             match here with
             | Some m => Some m
             | None => keywords kvs'
             end
         end) members
  | _ => Some (py_repr schema ++ " is not of type 'object', 'boolean'")
  end.

(** [best_match(errors)]: [max] by relevance keeps the first error among
    those with the shortest path. *)
Definition best_match (errors : list validation_error) : option validation_error :=
  match errors with
  | [] => None
  | e :: rest =>
      Some (fold_left
              (fun best e' =>
                 if (List.length (ve_path e') <? List.length (ve_path best))%nat
                 then e' else best)
              rest e)
  end.

(** [jsonschema.validate(instance, schema)] *)
Definition validate_fragment (instance schema : json) : result unit :=
  match check_schema schema with
  | Some message => Raises (SchemaError message)
  | None =>
      match best_match (iter_errors schema instance) with
      | Some error => Raises (ValidationError error)
      | None => Returns tt
      end
  end.

#[export] Instance jsonschema_fragment : JsonSchema :=
  {| validate := validate_fragment |}.

(** The sample schema of [validate.py] (also the default of [app.py]). *)
Definition sample_schema_dict : dict :=
  [("type", JStr "object");
   ("properties",
    JObj [("id", JObj [("type", JStr "string")]);
          ("type", JObj [("type", JStr "string")]);
          ("condition", JObj [("type", JStr "object")]);
          ("action", JObj [("type", JStr "object")]);
          ("priority", JObj [("type", JStr "string");
                             ("enum", JArr [JStr "low"; JStr "medium"; JStr "high"])])]);
   ("required", JArr [JStr "id"; JStr "type"; JStr "action"])].

Definition sample_schema : json := JObj sample_schema_dict.

End JsonSchemaFragment.

(* ================================================================= *)
(** ** [src/retriever.py] *)

(** Python [float] as the source uses it: sums and products (inside the
    sparse matrix product), comparison (inside [argsort]) and
    [round(x, 4)]. *)
Class Float (F : Type) : Type := {
  fzero : F;
  fadd : F -> F -> F;
  fmul : F -> F -> F;
  fleb : F -> F -> bool;
  round4 : F -> F
}.

(** [scipy.sparse.csr_matrix], by its shape and its rows written out. *)
Record csr_matrix (F : Type) : Type := {
  ncols : nat;
  rows : list (list F)
}.
Arguments ncols {F} _.
Arguments rows {F} _.

(** A fitted [TfidfVectorizer] as [get_top_k] sees it: an object with a
    [transform] method from a list of texts to one row per text. *)
Record TfidfVectorizer (F : Type) : Type := {
  transform : list string -> csr_matrix F
}.
Arguments transform {F} _ _.

(** [TfidfVectorizer(lowercase=True).fit_transform(texts)]: the fitted
    vectorizer together with the document-term matrix, or an exception. *)
Class Sklearn (F : Type) : Type := {
  fit_transform : list string -> result (TfidfVectorizer F * csr_matrix F)
}.

(** [np.argsort(a)] on a one-dimensional array: the indices that sort it. *)
Class NumPy (F : Type) : Type := {
  argsort : list F -> list nat
}.

Section Retriever.
Context {F : Type} {float : Float F}.

(** Scalar product of two rows. *)
Fixpoint row_dot (r q : list F) : F :=
  match r, q with
  | x :: r', y :: q' => fadd (fmul x y) (row_dot r' q')
  | _, _ => fzero
  end.

(** [matrix.dot(other.T).toarray()]: entry (i, j) is the scalar product
    of row i of [matrix] and row j of [other]; the column counts of the
    two operands must agree. *)
Definition dot_T (matrix other : csr_matrix F) : result (list (list F)) :=
  if (ncols matrix =? ncols other)%nat
  then Returns (map (fun r => map (fun q => row_dot r q) (rows other)) (rows matrix))
  else Raises (ValueError "dimension mismatch").

(** [array.flatten()] *)
Definition flatten (a : list (list F)) : list F := List.concat a.

(** [to_text(example)] *)
Definition to_text (example : dict) : string :=
  let title := dict_get example "title" (JStr EmptyString) in
  let description := dict_get example "description" (JStr EmptyString) in
  let config := dict_get example "config" (JObj []) in
  let config_str := json_dumps config in
  py_str title ++ " " ++ py_str description ++ " " ++ config_str.

(** [build_index(examples)] *)
Definition build_index {sklearn : Sklearn F} (examples : list dict)
  : result (TfidfVectorizer F * csr_matrix F * list string) :=
  match examples with
  | [] => Raises (ValueError "Examples list cannot be empty")
  | _ =>
      let texts := map to_text examples in
      fitted <- fit_transform texts ;;
      let '(vectorizer, tfidf_matrix) := fitted in
      Returns (vectorizer, tfidf_matrix, texts)
  end.

(** [np.argsort(similarity_scores)[::-1][:k]] *)
Definition top_indices {numpy : NumPy F} (similarity_scores : list F) (k : Z)
  : list nat :=
  firstn (Z.to_nat k) (rev (argsort similarity_scores)).

(** [get_top_k(query, vectorizer, matrix, examples, k)] *)
Definition get_top_k {numpy : NumPy F} (query : string)
    (vectorizer : TfidfVectorizer F) (matrix : csr_matrix F)
    (examples : list dict) (k : Z) : result (list (dict * F)) :=
  if (k <? 1)%Z then Raises (ValueError "k must be at least 1")
  else
    let k := if (k >? Z.of_nat (List.length examples))%Z
             then Z.of_nat (List.length examples) else k in
    let query_vec := transform vectorizer [query] in
    product <- dot_T matrix query_vec ;;
    let similarity_scores := flatten product in
    mapM (fun idx =>
            example <- getitem examples idx ;;
            score <- getitem similarity_scores idx ;;
            Returns (example, round4 score))
         (top_indices similarity_scores k).

End Retriever.

(* ================================================================= *)
(** ** Instances of the number and array interfaces *)

(** *** Floats read as the rationals they denote

    Every finite [float] is a rational number, and comparison of floats
    is comparison of those rationals.  Sums and products are taken
    exactly.  [round(x, 4)] rounds the exact value to four decimals, ties
    to the even neighbour. *)

Definition round_half_even (x : Q) : Z :=
  let f := Qfloor x in
  match Qcompare (x - inject_Z f) (Qmake 1 2) with
  | Lt => f
  | Gt => (f + 1)%Z
  | Eq => if Z.even f then f else (f + 1)%Z
  end.

Definition Qround4 (x : Q) : Q :=
  Qmake (round_half_even (x * inject_Z 10000)) 10000.

#[export] Instance float_Q : Float Q := {|
  fzero := 0%Q;
  fadd := Qplus;
  fmul := Qmult;
  fleb := Qle_bool;
  round4 := Qround4
|}.

(** *** Floats read as real numbers

    The idealisation used where the weights involve logarithms and square
    roots. *)

Definition Rleb (x y : R) : bool := if Rle_dec x y then true else false.

Definition Rround_half_even (x : R) : Z :=
  let f := Int_part x in
  if Rlt_dec (x - IZR f) (1 / 2) then f
  else if Rlt_dec (1 / 2) (x - IZR f) then (f + 1)%Z
  else if Z.even f then f else (f + 1)%Z.

Definition Rround4 (x : R) : R :=
  (IZR (Rround_half_even (x * 10000)) / 10000)%R.

#[export] Instance float_R : Float R := {|
  fzero := 0%R;
  fadd := Rplus;
  fmul := Rmult;
  fleb := Rleb;
  round4 := Rround4
|}.

(** *** A stable [argsort]

    The default sort kind of NumPy does not promise stability.  Its scalar
    implementation finishes every partition of at most sixteen elements by
    insertion sort, which keeps equal keys in index order, so on the small
    arrays of this application [np.argsort] gives the stable ascending
    order computed here.  The general theorems assume only [NumPyLaws];
    this instance is what the concrete runs use. *)

Section StableArgsort.
Context {F : Type} {float : Float F}.

Fixpoint insert_index (a : list F) (i : nat) (sorted : list nat) : list nat :=
  match sorted with
  | [] => [i]
  | j :: rest =>
      if fleb (nth i a fzero) (nth j a fzero) then i :: sorted
      else j :: insert_index a i rest
  end.

Definition insertion_argsort (a : list F) : list nat :=
  fold_right (insert_index a) [] (seq 0 (List.length a)).

#[export] Instance numpy_stable : NumPy F := {| argsort := insertion_argsort |}.

End StableArgsort.

(** *** Floats with their rounding

    A float read as the real number it denotes; every sum and product is
    the exact result rounded to a float by [rnd], and [round(x, 4)] is the
    float next to the decimal.  Comparison is that of the real numbers.
    [row_dot] adds the products of a row from the last column on, SciPy
    from the first: the same operations are rounded, in another order. *)

Section RoundedFloats.
Variable rnd : R -> R.

Definition float_rounded : Float R := {|
  fzero := 0%R;
  fadd := fun x y => rnd (x + y)%R;
  fmul := fun x y => rnd (x * y)%R;
  fleb := Rleb;
  round4 := fun x => rnd (Rround4 x)
|}.

End RoundedFloats.

(* ================================================================= *)
(** ** TF-IDF as scikit-learn computes it

    [TfidfVectorizer] with the defaults the source leaves in place: word
    tokens of two or more word characters taken from the lowercased text,
    raw term counts, smoothed inverse document frequency
    [ln((1 + n) / (1 + df)) + 1], rows scaled to Euclidean length one (a
    row of zeros stays as it is).  The weights are real numbers. *)

Module Tfidf.

(** [str.lower] on a code point below 256. *)
Definition lower (c : ascii) : ascii :=
  let n := nat_of_ascii c in
  if (((65 <=? n) && (n <=? 90))
      || ((192 <=? n) && (n <=? 222) && negb (n =? 215)))%nat
  then ascii_of_nat (n + 32) else c.

Fixpoint lowercase (s : string) : string :=
  match s with
  | EmptyString => EmptyString
  | String c s' => String (lower c) (lowercase s')
  end.

(** The class [\w] of Python's [re] on a code point below 256. *)
Definition is_word_char (c : ascii) : bool :=
  let n := nat_of_ascii c in
  (((48 <=? n) && (n <=? 57)) || ((65 <=? n) && (n <=? 90))
   || ((97 <=? n) && (n <=? 122)) || (n =? 95)
   || (n =? 170) || (n =? 178) || (n =? 179) || (n =? 181)
   || (n =? 185) || (n =? 186) || ((188 <=? n) && (n <=? 190))
   || ((192 <=? n) && negb (n =? 215) && negb (n =? 247)))%nat.

Definition flush (word : string) : list string :=
  if (2 <=? String.length word)%nat then [word] else [].

(** [re.findall(r"(?u)\b\w\w+\b", s)]: the maximal runs of word
    characters that are at least two characters long. *)
Fixpoint findall_words (s : string) (word : string) : list string :=
  match s with
  | EmptyString => flush word
  | String c s' =>
      if is_word_char c
      then findall_words s' (word ++ String c EmptyString)
      else (flush word ++ findall_words s' EmptyString)%list
  end.

(** [build_analyzer()] of the default vectorizer. *)
Definition default_analyzer (text : string) : list string :=
  findall_words (lowercase text) EmptyString.

Definition has_token (t : string) (doc : list string) : bool :=
  existsb (String.eqb t) doc.

Fixpoint count_token (t : string) (doc : list string) : nat :=
  match doc with
  | [] => 0
  | u :: doc' => (if String.eqb t u then 1 else 0) + count_token t doc'
  end.

(** Insertion into the sorted list of distinct feature names. *)
Fixpoint insert_feature (t : string) (names : list string) : list string :=
  match names with
  | [] => [t]
  | u :: names' =>
      match String.compare t u with
      | Lt => t :: names
      | Eq => names
      | Gt => u :: insert_feature t names'
      end
  end.

(** [vocabulary_]: the distinct tokens of the corpus in sorted order;
    the position in the list is the column of the token. *)
Definition vocabulary (docs : list (list string)) : list string :=
  fold_right insert_feature [] (List.concat docs).

Definition document_frequency (t : string) (docs : list (list string)) : nat :=
  List.length (filter (has_token t) docs).

(** Smoothed inverse document frequency. *)
Definition idf (n df : nat) : R :=
  (ln ((1 + INR n) / (1 + INR df)) + 1)%R.

Definition sum_squares (row : list R) : R :=
  fold_right (fun x acc => (x * x + acc)%R) 0%R row.

(** [normalize(X, norm="l2")] on one row. *)
Definition l2_normalize (row : list R) : list R :=
  let norm := sqrt (sum_squares row) in
  let norm := if Req_dec_T norm 0 then 1%R else norm in
  map (fun x => (x / norm)%R) row.

(** What fitting stores: the feature names and their idf weights. *)
Record fitted : Type := {
  feature_names : list string;
  idf_ : list R
}.

Section Analyzer.
Variable analyzer : string -> list string.

Definition fit (texts : list string) : fitted :=
  let docs := map analyzer texts in
  let names := vocabulary docs in
  {| feature_names := names;
     idf_ := map (fun t => idf (List.length docs) (document_frequency t docs)) names |}.

(** One row of [transform]: term count times idf per known feature,
    then scaled. Tokens outside the vocabulary are dropped. *)
Definition encode (f : fitted) (text : string) : list R :=
  let doc := analyzer text in
  l2_normalize
    (map (fun tw => (INR (count_token (fst tw) doc) * snd tw)%R)
         (combine (feature_names f) (idf_ f))).

Definition tfidf_transform (f : fitted) (texts : list string) : csr_matrix R :=
  {| ncols := List.length (feature_names f);
     rows := map (encode f) texts |}.

Definition tfidf_fit_transform (texts : list string)
  : result (TfidfVectorizer R * csr_matrix R) :=
  let f := fit texts in
  match feature_names f with
  | [] => Raises (ValueError
            "empty vocabulary; perhaps the documents only contain stop words")
  | _ => Returns ({| transform := tfidf_transform f |}, tfidf_transform f texts)
  end.

Definition sklearn_tfidf : Sklearn R :=
  {| fit_transform := tfidf_fit_transform |}.

End Analyzer.

End Tfidf.

(** *** The same computation in floating point

    The steps of [TfidfTransformer] and of [normalize] with the rounding
    of each operation written out: [idf = np.log(n_samples / df) + 1.0] on
    the smoothed counts, [count * idf] per entry, the loop
    [sum_ += x * x] over a row, [sqrt] and the division of every entry.
    [log] is [np.log].  A row whose sum is zero is left as it is.  Rows are
    written out with their zeros, which floating point adds and multiplies
    exactly. *)

Module Tfidf64.

Section Rounded.
Variables rnd log : R -> R.

Definition idf (n df : nat) : R :=
  rnd (log (rnd ((1 + INR n) / (1 + INR df))) + 1)%R.

Definition sum_squares (row : list R) : R :=
  fold_left (fun sum_ x => rnd (sum_ + rnd (x * x))%R) row 0%R.

(** [inplace_csr_row_normalize_l2] on one row. *)
Definition l2_normalize (row : list R) : list R :=
  let sum_ := sum_squares row in
  if Req_dec_T sum_ 0 then row
  else
    let norm := rnd (sqrt sum_) in
    map (fun x => rnd (x / norm)%R) row.

Variable analyzer : string -> list string.

Definition fit (texts : list string) : Tfidf.fitted :=
  let docs := map analyzer texts in
  let names := Tfidf.vocabulary docs in
  {| Tfidf.feature_names := names;
     Tfidf.idf_ :=
       map (fun t => idf (List.length docs) (Tfidf.document_frequency t docs))
           names |}.

Definition encode (f : Tfidf.fitted) (text : string) : list R :=
  let doc := analyzer text in
  l2_normalize
    (map (fun tw => rnd (INR (Tfidf.count_token (fst tw) doc) * snd tw)%R)
         (combine (Tfidf.feature_names f) (Tfidf.idf_ f))).

Definition tfidf_transform (f : Tfidf.fitted) (texts : list string)
  : csr_matrix R :=
  {| ncols := List.length (Tfidf.feature_names f);
     rows := map (encode f) texts |}.

Definition tfidf_fit_transform (texts : list string)
  : result (TfidfVectorizer R * csr_matrix R) :=
  let f := fit texts in
  match Tfidf.feature_names f with
  | [] => Raises (ValueError
            "empty vocabulary; perhaps the documents only contain stop words")
  | _ => Returns ({| transform := tfidf_transform f |}, tfidf_transform f texts)
  end.

Definition sklearn_tfidf : Sklearn R :=
  {| fit_transform := tfidf_fit_transform |}.

End Rounded.

End Tfidf64.

(* ================================================================= *)
(** ** Contracts and vocabulary of the statements *)

(** Comparison of floats is a total preorder and rounding is monotone. *)
Class FloatLaws (F : Type) {float : Float F} : Prop := {
  fleb_total : forall x y : F, fleb x y = true \/ fleb y x = true;
  fleb_trans : forall x y z : F,
    fleb x y = true -> fleb y z = true -> fleb x z = true;
  round4_monotone : forall x y : F,
    fleb x y = true -> fleb (round4 x) (round4 y) = true
}.

(** What the NumPy documentation promises of [argsort]: the result lists
    every index of the array once and the array taken in that order is
    ascending. *)
Class NumPyLaws (F : Type) {float : Float F} {numpy : NumPy F} : Prop := {
  argsort_permutation : forall a : list F,
    Permutation (argsort a) (seq 0 (List.length a));
  argsort_ascending : forall a : list F,
    StronglySorted (fun i j => fleb (nth i a fzero) (nth j a fzero) = true)
                   (argsort a)
}.

(** Stability, which the default sort kind does not promise: indices of
    equal elements come out in increasing order. *)
Definition argsort_is_stable {F : Type} {float : Float F} (numpy : NumPy F) : Prop :=
  forall a : list F,
    StronglySorted
      (fun i j => fleb (nth j a fzero) (nth i a fzero) = true -> i < j)
      (argsort a).

(** The vectorizer, the matrix and the examples belong together: one
    matrix row per example, and [transform] gives one row per text with
    the column count of the matrix. *)
Definition index_of_corpus {F : Type} (vectorizer : TfidfVectorizer F)
    (matrix : csr_matrix F) (examples : list dict) : Prop :=
  List.length (rows matrix) = List.length examples /\
  forall texts : list string,
    ncols (transform vectorizer texts) = ncols matrix /\
    List.length (rows (transform vectorizer texts)) = List.length texts.

(** The similarity of every document to the query, in corpus order: the
    array [similarity_scores] of [get_top_k]. *)
Definition similarity_scores {F : Type} {float : Float F}
    (query : string) (vectorizer : TfidfVectorizer F) (matrix : csr_matrix F)
  : list F :=
  flatten (map (fun r => map (fun q => row_dot r q)
                             (rows (transform vectorizer [query])))
               (rows matrix)).

(** Scores from the best to the worst. *)
Definition non_increasing {F : Type} {float : Float F} {A : Type}
    (results : list (A * F)) : Prop :=
  StronglySorted (fun a b => fleb (snd b) (snd a) = true) results.

(** The required top-level names of a well-formed schema: none when the
    keyword is absent, the listed strings otherwise. *)
Definition required_names (schema : dict) : option (list string) :=
  match dict_lookup schema "required" with
  | None => Some []
  | Some (JArr l) =>
      if forallb (fun t => match t with JStr _ => true | _ => false end) l
      then Some (flat_map (fun t => match t with JStr n => [n] | _ => [] end) l)
      else None
  | Some _ => None
  end.

(** Exceptions that fall through to the last handler of
    [validate_output]. *)
Definition unexpected (e : exn) : Prop :=
  match e with
  | ValidationError _ | SchemaError _ => False
  | _ => True
  end.

(** A [validate] that runs into the fault [e] on every call. *)
Definition jsonschema_failing (e : exn) : JsonSchema :=
  {| validate := fun _ _ => Raises e |}.

(** The entry [validate_output] writes for the raised error itself. *)
Definition main_entry (e : validation_error) : string :=
  "Validation error at path '"
    ++ String.concat "." (map path_elem_str (ve_path e))
    ++ "': " ++ ve_message e.

(** The entry written for one member of [e.context]. *)
Definition sub_entry (suberror : validation_error) : string :=
  "  - Sub-error: " ++ ve_message suberror.

(** The reading of "all errors collected": every violation found by the
    depth-first traversal has its entry in the returned list. *)
Definition reports_every_error (violations : list validation_error)
    (errors : list string) : Prop :=
  Forall (fun e => In (main_entry e) errors) violations.

(** Sample inputs. *)
Definition candidate_wf2 : dict := [("id", JStr "wf-2")].

(** The fourth test of [validate.py]: two of three required fields. *)
Definition partial_candidate : dict :=
  [("id", JStr "wf-004"); ("type", JStr "alert")].

Definition broken_schema : dict :=
  [("type", JStr "object"); ("properties", JInt 5)].

(** The default example of [app.py], and an example that has only an
    identifier. *)
Definition default_example : dict :=
  [("id", JStr "ex-001");
   ("title", JStr "Email notification on delay");
   ("description", JStr "Send email when task duration exceeds threshold");
   ("config",
    JObj [("id", JStr "notify-delay");
          ("type", JStr "notification");
          ("condition", JObj [("field", JStr "duration");
                              ("operator", JStr ">");
                              ("value", JInt 120)]);
          ("action", JObj [("type", JStr "email");
                           ("recipients", JArr [JStr "team@example.com"])]);
          ("priority", JStr "high")])].

Definition untitled_example : dict := [("id", JStr "ex-000")].

(** A small index with exact weights: three features, four examples with
    rows of Euclidean length one, and a vectorizer that maps the text of
    the fourth example to its row. *)
Definition mock_query : string := "email delay alert".

Definition mock_vectorizer : TfidfVectorizer Q :=
  {| transform := fun texts =>
       {| ncols := 3;
          rows := map (fun text =>
                         if String.eqb text mock_query
                         then [Qmake 2 3; Qmake 2 3; Qmake 1 3]
                         else [0%Q; 0%Q; 0%Q]) texts |} |}.

Definition mock_matrix : csr_matrix Q :=
  {| ncols := 3;
     rows := [[1%Q; 0%Q; 0%Q]; [0%Q; 0%Q; 1%Q]; [0%Q; 1%Q; 0%Q];
              [Qmake 2 3; Qmake 2 3; Qmake 1 3]] |}.

Definition mock_examples : list dict :=
  [[("id", JStr "ex-001")]; [("id", JStr "ex-002")];
   [("id", JStr "ex-003")]; [("id", JStr "ex-004")]].

(** The tie rule of the specification: of two results with the same
    score, the one earlier in the corpus comes first. *)
Definition ties_in_corpus_order {F : Type} {float : Float F}
    (scores : list F) (indices : list nat) : Prop :=
  StronglySorted
    (fun i j => fleb (nth i scores fzero) (nth j scores fzero) = true -> i < j)
    indices.

(** What the reversal of a stable ascending order gives instead. *)
Definition ties_in_reverse_corpus_order {F : Type} {float : Float F}
    (scores : list F) (indices : list nat) : Prop :=
  StronglySorted
    (fun i j => fleb (nth i scores fzero) (nth j scores fzero) = true -> j < i)
    indices.

(* ================================================================= *)
(** ** [src/utils.py]: flattening a configuration *)

(** [_flatten(obj, prefix)], the inner function of
    [flatten_config_to_text]. *)
Fixpoint _flatten (obj : json) (prefix : string) {struct obj} : list string :=
  match obj with
  | JObj members =>
      (fix each (kvs : list (string * json)) : list string :=
         match kvs with
         | [] => []
         | (key, value) :: kvs' =>
             let new_prefix :=
               if negb (String.eqb prefix EmptyString)
               then prefix ++ "." ++ key else key in
             ((match value with
               | JArr _ | JObj _ => _flatten value new_prefix
               | _ => [(new_prefix ++ ":" ++ py_str value)%string]
               end) ++ each kvs')%list
         end) members
  | JArr items =>
      (fix each (l : list json) (i : nat) : list string :=
         match l with
         | [] => []
         | item :: l' =>
             let new_prefix := prefix ++ "[" ++ str_of_nat i ++ "]" in
             ((match item with
               | JArr _ | JObj _ => _flatten item new_prefix
               | _ => [(new_prefix ++ ":" ++ py_str item)%string]
               end) ++ each l' (S i))%list
         end) items 0
  | _ => [prefix ++ ":" ++ py_str obj]
  end.

(** [flatten_config_to_text(config)] *)
Definition flatten_config_to_text (config : dict) : string :=
  let flattened_items := _flatten (JObj config) EmptyString in
  String.concat " " flattened_items.

(** The values of a JSON value that are neither a list nor a dict,
    counted through all levels; a value that is itself such a scalar
    counts as one. *)
Fixpoint scalar_leaves (v : json) : nat :=
  match v with
  | JObj members =>
      (fix each (kvs : list (string * json)) : nat :=
         match kvs with
         | [] => 0
         | (_, value) :: kvs' => scalar_leaves value + each kvs'
         end) members
  | JArr items =>
      (fix each (l : list json) : nat :=
         match l with
         | [] => 0
         | item :: l' => scalar_leaves item + each l'
         end) items
  | _ => 1
  end.

Definition is_scalar (v : json) : bool :=
  match v with
  | JArr _ | JObj _ => false
  | _ => true
  end.

(* ================================================================= *)
(** ** [src/llm_client.py]: reading the answer of the model *)

Definition newline : ascii := "010"%char.
Definition backtick : ascii := "096"%char.

(** [str.isspace] on a code point below 256, which is also the class
    [\s] of [re]. *)
Definition is_space (c : ascii) : bool :=
  let n := nat_of_ascii c in
  (((9 <=? n) && (n <=? 13)) || ((28 <=? n) && (n <=? 32))
   || (n =? 133) || (n =? 160))%nat.

Fixpoint lstrip (s : string) : string :=
  match s with
  | EmptyString => EmptyString
  | String c s' => if is_space c then lstrip s' else s
  end.

Fixpoint rstrip (s : string) : string :=
  match s with
  | EmptyString => EmptyString
  | String c s' =>
      match rstrip s' with
      | EmptyString => if is_space c then EmptyString else String c EmptyString
      | r => String c r
      end
  end.

(** [s.strip()] *)
Definition strip (s : string) : string := rstrip (lstrip s).

(** The pieces a pattern of [re] is made of here: literal text, an
    optional literal [(?:w)?], a greedy repetition of a character class
    [c*], the capturing group of a lazy repetition [(c*?)], and [$]. *)
Inductive regex_item : Type :=
| Lit (w : string)
| OptLit (w : string)
| Star (cls : ascii -> bool)
| LazyGroup (cls : ascii -> bool)
| EndAnchor.

(** [s] without the leading [w], when it starts with [w]. *)
Fixpoint strip_prefix (w s : string) : option string :=
  match w with
  | EmptyString => Some s
  | String a w' =>
      match s with
      | String b s' => if Ascii.eqb a b then strip_prefix w' s' else None
      | EmptyString => None
      end
  end.

(** A greedy repetition [c*] followed by the rest of the pattern [k]:
    one more character first, the rest of the pattern when that fails. *)
Fixpoint star_loop (cls : ascii -> bool) (k : string -> option string)
    (s : string) : option string :=
  match s with
  | String c s' =>
      if cls c then
        match star_loop cls k s' with
        | Some g => Some g
        | None => k s
        end
      else k s
  | EmptyString => k s
  end.

(** The group of a lazy repetition [(c*?)] followed by the rest of the
    pattern [k], which receives the text of the group: the rest of the
    pattern first, one more character when that fails. *)
Fixpoint lazy_loop (cls : ascii -> bool)
    (k : string -> string -> option string) (s : string) (g : string)
  : option string :=
  match k s g with
  | Some r => Some r
  | None =>
      match s with
      | String c s' =>
          if cls c then lazy_loop cls k s' (g ++ String c EmptyString)
          else None
      | EmptyString => None
      end
  end.

(** [re.match(pattern, s)] by backtracking, each choice tried in the
    order of the engine: an optional piece and a greedy repetition take as
    much as they can first and give back on failure, a lazy repetition
    takes as little as it can first.  The result is [group(1)] of the
    first way that succeeds, [None] when there is no match.  [$] is the
    end of the text or the place before a last newline. *)
Fixpoint re_match (items : list regex_item) (s : string) (group : string)
    {struct items} : option string :=
  match items with
  | [] => Some group
  | Lit w :: rest =>
      match strip_prefix w s with
      | Some s' => re_match rest s' group
      | None => None
      end
  | OptLit w :: rest =>
      match strip_prefix w s with
      | Some s' =>
          match re_match rest s' group with
          | Some g => Some g
          | None => re_match rest s group
          end
      | None => re_match rest s group
      end
  | Star cls :: rest =>
      star_loop cls (fun s' => re_match rest s' group) s
  | LazyGroup cls :: rest =>
      lazy_loop cls (re_match rest) s EmptyString
  | EndAnchor :: rest =>
      if String.eqb s EmptyString || String.eqb s (String newline EmptyString)
      then re_match rest s group else None
  end.

(** [fence_pattern], matched with [re.DOTALL] so that [.] is every
    character: [^```(?:json)?\s*\n?(.*?)\n?```$]. *)
Definition fence_pattern : list regex_item :=
  [Lit "```"; OptLit "json"; Star is_space;
   OptLit (String newline EmptyString); LazyGroup (fun _ => true);
   OptLit (String newline EmptyString); Lit "```"; EndAnchor].

(** What [json.loads] does with a text: the loaded value, a
    [JSONDecodeError] with its [str(e)] and its [pos], or another
    exception. *)
Inductive loads_outcome : Type :=
| Loaded (value : json)
| JSONDecodeError (str_e : string) (pos : nat)
| LoadsRaises (e : exn).

Class JsonLoads : Type := {
  loads : string -> loads_outcome
}.

(** [type(v).__name__] *)
Definition type_name (v : json) : string :=
  match v with
  | JNull => "NoneType"
  | JBool _ => "bool"
  | JInt _ => "int"
  | JFloat _ => "float"
  | JStr _ => "str"
  | JArr _ => "list"
  | JObj _ => "dict"
  end.

Section LlmClient.
Context {json_module : JsonLoads}.

(** The [try] block of [parse_llm_text_to_json], on the cleaned text. *)
Definition decode_cleaned (cleaned : string)
  : result (option dict * option string) :=
  match loads cleaned with
  | Loaded parsed =>
      match parsed with
      | JObj members => Returns (Some members, None)
      | _ =>
          Returns (None,
                   Some ("Parsed JSON is not an object (got "
                           ++ type_name parsed ++ ")"))
      end
  | JSONDecodeError str_e pos =>
      let error_msg := "JSON parsing error: " ++ str_e in
      let error_msg :=
        if negb (pos =? 0)%nat then
          let start := pos - 50 in
          let end_ := Nat.min (String.length cleaned) (pos + 50) in
          let context := substring start (end_ - start) cleaned in
          error_msg ++ String newline "Context near error: ..." ++ context ++ "..."
        else error_msg in
      Returns (None, Some error_msg)
  | LoadsRaises e => Raises e
  end.

(** [parse_llm_text_to_json(text)] *)
Definition parse_llm_text_to_json (text : string)
  : result (option dict * option string) :=
  if String.eqb text EmptyString
  then Returns (None, Some "Empty text provided")
  else
    let cleaned := strip text in
    let cleaned :=
      match re_match fence_pattern cleaned EmptyString with
      | Some group1 => strip group1
      | None => cleaned
      end in
    decode_cleaned cleaned.

End LlmClient.

(** A text without the word [json] it may start with. *)
Definition drop_json (inner : string) : string :=
  match strip_prefix "json" inner with
  | Some rest => rest
  | None => inner
  end.

(** [s[-1]], when [s] is not empty. *)
Fixpoint last_char (s : string) : option ascii :=
  match s with
  | EmptyString => None
  | String c s' =>
      match s' with
      | EmptyString => Some c
      | String _ _ => last_char s'
      end
  end.

(* ================================================================= *)
(** ** Further vocabulary of the statements *)

(** What the statements use of floating-point arithmetic with unit
    roundoff [u] and normal numbers from [tiny] to [huge]: rounding to
    nearest has relative error at most [u] on zero and on every number of
    the normal range, keeps the order and leaves 1 as it is; [np.log] is
    between 0 and its argument from 1 on.  For binary64 [u] is [2^-53],
    [tiny] is [2^-1022] and [huge] is [2^1023]. *)
Record rounding_laws (rnd log : R -> R) (u tiny huge : R) : Prop := {
  roundoff_range : (0 <= u < 1)%R;
  rnd_relative : forall x : R,
    x = 0%R \/ (tiny <= Rabs x <= huge)%R ->
    (Rabs (rnd x - x) <= u * Rabs x)%R;
  rnd_monotone : forall x y : R, (x <= y)%R -> (rnd x <= rnd y)%R;
  rnd_one : rnd 1%R = 1%R;
  log_nonneg : forall x : R, (1 <= x)%R -> (0 <= log x)%R;
  log_below : forall x : R, (1 <= x)%R -> (log x <= x)%R
}.

(** The factor within which the similarity of a row of [n] columns to
    itself is 1: each of the [3 * n + 7] roundings on the way moves the
    value by a factor between [(1 - u) / (1 + u)] and its inverse. *)
Definition round_trip_tolerance (u : R) (n : nat) : R :=
  (((1 + u) / (1 - u)) ^ (3 * n + 7))%R.

(** A bound on the sum of the squares of a row before it is normalized:
    [n] columns, and a weight of at most [8 * c * (d + 2)] for a token
    that occurs at most [c] times in a text, in a corpus of [d]
    documents. *)
Definition row_bound (n c d : nat) : R :=
  (INR n * ((8 * INR c * (INR d + 2)) * (8 * INR c * (INR d + 2))))%R.

(** The number of columns of the index of a corpus. *)
Definition vocabulary_size (analyzer : string -> list string)
    (examples : list dict) : nat :=
  List.length (Tfidf.vocabulary (map analyzer (map to_text examples))).

(** Two texts with the same tokens, each as often in one as in the
    other. *)
Definition same_token_counts (analyzer : string -> list string)
    (text1 text2 : string) : Prop :=
  forall t : string,
    Tfidf.count_token t (analyzer text1) = Tfidf.count_token t (analyzer text2).

(** The corpus keeps the computation inside the normal range of the
    floats: no token occurs more than [max_count] times in a text, twice
    the bound of a row does not overflow, and the inverse of its square
    does not underflow. *)
Definition within_float_range (tiny huge : R)
    (analyzer : string -> list string) (examples : list dict)
    (max_count : nat) : Prop :=
  (forall (e : dict) (t : string),
      In e examples ->
      Tfidf.count_token t (analyzer (to_text e)) <= max_count)
  /\ (0 < tiny)%R
  /\ let bound := row_bound (vocabulary_size analyzer examples) max_count
                             (List.length examples) in
     (2 * bound <= huge)%R /\ (2 * tiny * (bound * bound) <= 1)%R.

(** An example about something else than the default one, and an
    example that says the same twice. *)
Definition slack_example : dict :=
  [("id", JStr "ex-002"); ("title", JStr "Slack alert")].

Definition repeated_example : dict :=
  [("id", JStr "ex-003"); ("title", JStr "Slack alert");
   ("description", JStr "Slack alert")].

(** Schemas written with the keywords [type], [properties], [required]
    and [enum] alone, at every depth, no key twice: the schemas that
    [JsonSchemaFragment] accepts and rejects as the package does. *)
Fixpoint in_fragment (schema : json) {struct schema} : bool :=
  match schema with
  | JBool _ => true
  | JObj members =>
      JsonSchemaFragment.str_nodup (map fst members)
      && (fix keywords (kvs : list (string * json)) : bool :=
            match kvs with
            | [] => true
            | (k, v) :: kvs' =>
                (if String.eqb k "type" || String.eqb k "required"
                    || String.eqb k "enum"
                 then true
                 else if String.eqb k "properties" then
                   match v with
                   | JObj props =>
                       JsonSchemaFragment.str_nodup (map fst props)
                       && (fix each (ps : list (string * json)) : bool :=
                             match ps with
                             | [] => true
                             | (_, subschema) :: ps' =>
                                 in_fragment subschema && each ps'
                             end) props
                   | _ => false
                   end
                 else false)
                && keywords kvs'
            end) members
  | _ => false
  end.

(** A text that ends with a closing fence, or with a closing fence and
    a newline. *)
Definition closes_fence (s : string) : Prop :=
  exists p, s = p ++ "```" \/ s = p ++ "```" ++ String newline EmptyString.

(** A [json.loads] that reads the empty object and the empty list and
    rejects every other text at its first character. *)
Definition sample_loads : JsonLoads :=
  {| loads := fun s =>
       if String.eqb s "{}" then Loaded (JObj [])
       else if String.eqb s "[]" then Loaded (JArr [])
       else JSONDecodeError "Expecting value: line 1 column 1 (char 0)" 0 |}.

(** Two examples agree on the three keys [to_text] reads. *)
Definition same_text_fields (e1 e2 : dict) : Prop :=
  dict_lookup e1 "title" = dict_lookup e2 "title"
  /\ dict_lookup e1 "description" = dict_lookup e2 "description"
  /\ dict_lookup e1 "config" = dict_lookup e2 "config".

(** Objects that can be looked up in a dict. *)
Definition hashable (v : json) : bool :=
  match v with
  | JArr _ | JObj _ => false
  | _ => true
  end.

(** The values of [schema["required"]] on which [coverage_metric]
    returns: the falsy ones, strings, dicts, and lists without a list or
    dict among their elements. *)
Definition coverage_defined (required_fields : json) : bool :=
  negb (truthy required_fields)
  || match required_fields with
     | JArr l => forallb hashable l
     | JStr _ | JObj _ => true
     | _ => false
     end.

(* ================================================================= *)
(** * Properties of [validate.py] *)

Section ValidateFacts.
Context {jsonschema : JsonSchema}.

Lemma fold_sub_entries (context : list validation_error) (errors : list string) :
  fold_left
    (fun errors suberror =>
       (errors ++ [("  - Sub-error: " ++ ve_message suberror)%string])%list)
    context errors
  = (errors ++ map sub_entry context)%list.
Proof.
  revert errors.
  induction context as [|c context IH]; intros errors; simpl.
  - now rewrite app_nil_r.
  - rewrite IH, <- app_assoc. reflexivity.
Qed.

(** The four ways out of [validate_output], by the outcome of the
    package call. *)
Lemma validate_output_passes candidate schema u :
  validate (JObj candidate) (JObj schema) = Returns u ->
  validate_output candidate schema = Returns (true, []).
Proof. intros H. unfold validate_output. now rewrite H. Qed.

Lemma validate_output_fails candidate schema e :
  validate (JObj candidate) (JObj schema) = Raises (ValidationError e) ->
  validate_output candidate schema
  = Returns (false, main_entry e :: map sub_entry (ve_context e)).
Proof.
  intros H. unfold validate_output. rewrite H.
  rewrite fold_sub_entries. reflexivity.
Qed.

Lemma validate_output_schema candidate schema message :
  validate (JObj candidate) (JObj schema) = Raises (SchemaError message) ->
  validate_output candidate schema
  = Returns (false, [("Schema error: " ++ message)%string]).
Proof. intros H. unfold validate_output. now rewrite H. Qed.

Lemma validate_output_unexpected candidate schema e :
  validate (JObj candidate) (JObj schema) = Raises e -> unexpected e ->
  validate_output candidate schema
  = Returns (false, [("Unexpected validation error: " ++ exn_str e)%string]).
Proof.
  intros H U. unfold validate_output. rewrite H.
  destruct e; simpl in U; try contradiction; reflexivity.
Qed.

End ValidateFacts.

(** C2 (as amended): [validate_output] does not collect every violation.
    It reports the one error [validate] raises, followed by one entry per
    member of that error's context, in context order; so the list has
    [1 + len(context)] entries whatever the number of violations. *)
Theorem validate_output_single_error :
  forall (jsonschema : JsonSchema) (candidate schema : dict) (e : validation_error),
    validate (JObj candidate) (JObj schema) = Raises (ValidationError e) ->
    validate_output candidate schema
    = Returns (false, main_entry e :: map sub_entry (ve_context e))
    /\ forall errors,
         validate_output candidate schema = Returns (false, errors) ->
         List.length errors = S (List.length (ve_context e)).
Proof.
  intros lib candidate schema e H.
  pose proof (validate_output_fails candidate schema e H) as E.
  split; [exact E|].
  intros errors E'. rewrite E in E'. inversion E'; subst.
  simpl. now rewrite length_map.
Qed.

(** C2, run on the candidate [{"id": "wf-2"}] and the sample schema: two
    required properties are missing, one entry comes back. *)
Lemma validate_output_single_error_witness :
  @validate JsonSchemaFragment.jsonschema_fragment (JObj candidate_wf2)
            JsonSchemaFragment.sample_schema
  = Raises (ValidationError
              (MkValidationError "'type' is a required property" [] []))
  /\ @validate_output JsonSchemaFragment.jsonschema_fragment candidate_wf2
                      JsonSchemaFragment.sample_schema_dict
     = Returns (false, ["Validation error at path '': 'type' is a required property"]).
Proof.
  split; [reflexivity|].
  apply (validate_output_single_error JsonSchemaFragment.jsonschema_fragment
           candidate_wf2 JsonSchemaFragment.sample_schema_dict
           (MkValidationError "'type' is a required property" [] [])).
  reflexivity.
Defined.

(** C2 as stated fails: the candidate [{"id": "wf-2"}] violates the sample
    schema twice ([type] and [action] are missing), and the returned list
    has a single entry, which names [type] only. *)
Lemma validate_output_not_all_errors :
  JsonSchemaFragment.iter_errors JsonSchemaFragment.sample_schema
                               (JObj candidate_wf2)
  = [MkValidationError "'type' is a required property" [] [];
     MkValidationError "'action' is a required property" [] []]
  /\ @validate_output JsonSchemaFragment.jsonschema_fragment candidate_wf2
                      JsonSchemaFragment.sample_schema_dict
     = Returns (false, ["Validation error at path '': 'type' is a required property"])
  /\ ~ reports_every_error
        (JsonSchemaFragment.iter_errors JsonSchemaFragment.sample_schema
                                        (JObj candidate_wf2))
        ["Validation error at path '': 'type' is a required property"].
Proof.
  split; [reflexivity|]. split; [reflexivity|].
  intros H. vm_compute in H.
  apply Forall_inv_tail in H. apply Forall_inv in H.
  destruct H as [H|[]]. discriminate H.
Qed.

(** C3 (as amended): a malformed schema is not signalled as an exception.
    The [SchemaError] is caught and turned into the verdict
    [(False, ["Schema error: ..."])] with exactly one entry; a caller
    can tell it from the other failures only by that prefix, which no
    entry of another failure carries in first position. *)
Theorem validate_output_schema_error :
  forall (jsonschema : JsonSchema) (candidate schema : dict) (message : string),
    validate (JObj candidate) (JObj schema) = Raises (SchemaError message) ->
    validate_output candidate schema
    = Returns (false, [("Schema error: " ++ message)%string])
    /\ forall candidate' schema' e errors,
         validate (JObj candidate') (JObj schema') = Raises e ->
         (forall m, e <> SchemaError m) ->
         validate_output candidate' schema' = Returns (false, errors) ->
         exists first rest,
           errors = first :: rest /\ String.prefix "Schema error: " first = false.
Proof.
  intros lib candidate schema message H. split.
  - now apply validate_output_schema.
  - intros c' s' e errors He Hne Hout.
    destruct e as [v|m| | | | ].
    + rewrite (validate_output_fails _ _ _ He) in Hout.
      inversion Hout; subst. eexists _, _. split; [reflexivity|reflexivity].
    + exfalso. now apply (Hne m).
    + rewrite (validate_output_unexpected _ _ _ He I) in Hout.
      inversion Hout; subst. eexists _, _. split; reflexivity.
    + rewrite (validate_output_unexpected _ _ _ He I) in Hout.
      inversion Hout; subst. eexists _, _. split; reflexivity.
    + rewrite (validate_output_unexpected _ _ _ He I) in Hout.
      inversion Hout; subst. eexists _, _. split; reflexivity.
    + rewrite (validate_output_unexpected _ _ _ He I) in Hout.
      inversion Hout; subst. eexists _, _. split; reflexivity.
Qed.

(** C3, run on a schema of object kind whose property map is a number. *)
Lemma validate_output_schema_error_witness :
  @validate_output JsonSchemaFragment.jsonschema_fragment candidate_wf2 broken_schema
  = Returns (false, ["Schema error: 5 is not of type 'object'"]).
Proof.
  apply (validate_output_schema_error JsonSchemaFragment.jsonschema_fragment
           candidate_wf2 broken_schema "5 is not of type 'object'").
  reflexivity.
Defined.

(** C3 as stated fails: on the broken schema the package raises
    [SchemaError], and [validate_output] does not raise; it returns an
    ordinary failing verdict. *)
Lemma schema_error_comes_back_as_verdict :
  @validate JsonSchemaFragment.jsonschema_fragment
            (JObj candidate_wf2) (JObj broken_schema)
  = Raises (SchemaError "5 is not of type 'object'")
  /\ @validate_output JsonSchemaFragment.jsonschema_fragment candidate_wf2 broken_schema
     = Returns (false, ["Schema error: 5 is not of type 'object'"])
  /\ forall e, @validate_output JsonSchemaFragment.jsonschema_fragment
                 candidate_wf2 broken_schema <> Raises e.
Proof.
  split; [reflexivity|]. split; [reflexivity|].
  intros e H. vm_compute in H. discriminate H.
Qed.

(** C9: whatever the package call does, [validate_output] returns a
    verdict and raises nothing; a fault that is neither a
    [ValidationError] nor a [SchemaError] becomes the single entry
    ["Unexpected validation error: " + str(e)] of a failing verdict. *)
Theorem validate_output_never_raises :
  forall (jsonschema : JsonSchema) (candidate schema : dict),
    (exists is_valid errors,
        validate_output candidate schema = Returns (is_valid, errors))
    /\ (forall e,
          validate (JObj candidate) (JObj schema) = Raises e -> unexpected e ->
          validate_output candidate schema
          = Returns (false, [("Unexpected validation error: " ++ exn_str e)%string])).
Proof.
  intros lib candidate schema. split.
  - destruct (validate (JObj candidate) (JObj schema)) as [u|e] eqn:H.
    + exists true, []. now apply (validate_output_passes _ _ u).
    + destruct e as [v|m| | | | ].
      * eexists _, _. exact (validate_output_fails _ _ _ H).
      * eexists _, _. exact (validate_output_schema _ _ _ H).
      * eexists _, _. exact (validate_output_unexpected _ _ _ H I).
      * eexists _, _. exact (validate_output_unexpected _ _ _ H I).
      * eexists _, _. exact (validate_output_unexpected _ _ _ H I).
      * eexists _, _. exact (validate_output_unexpected _ _ _ H I).
  - intros e H U. now apply validate_output_unexpected.
Qed.

(** C9, run with a traversal that exceeds the recursion limit. *)
Lemma validate_output_never_raises_witness :
  @validate_output
    (jsonschema_failing (OtherException "maximum recursion depth exceeded"))
    candidate_wf2 JsonSchemaFragment.sample_schema_dict
  = Returns (false, ["Unexpected validation error: maximum recursion depth exceeded"]).
Proof.
  apply (proj2 (validate_output_never_raises
                  (jsonschema_failing (OtherException "maximum recursion depth exceeded"))
                  candidate_wf2 JsonSchemaFragment.sample_schema_dict)
               (OtherException "maximum recursion depth exceeded")).
  - reflexivity.
  - exact I.
Defined.

(** C10: the verdict is [True] exactly when the error list is empty; a
    passing validation gives [(True, [])] and every failing path puts at
    least one entry in the list. *)
Theorem validate_output_valid_iff_no_errors :
  forall (jsonschema : JsonSchema) (candidate schema : dict),
  exists is_valid errors,
    validate_output candidate schema = Returns (is_valid, errors)
    /\ (is_valid = true <-> errors = [])
    /\ (forall u, validate (JObj candidate) (JObj schema) = Returns u ->
                  is_valid = true /\ errors = [])
    /\ (forall e, validate (JObj candidate) (JObj schema) = Raises e ->
                  is_valid = false /\ errors <> []).
Proof.
  intros lib candidate schema.
  destruct (validate (JObj candidate) (JObj schema)) as [u|e] eqn:H.
  - exists true, []. split; [now apply (validate_output_passes _ _ u)|].
    split; [tauto|]. split; [tauto|]. intros e He. discriminate He.
  - assert (exists errors, validate_output candidate schema = Returns (false, errors)
                           /\ errors <> []) as [errors [E NE]].
    { destruct e as [v|m| | | | ].
      - eexists. split; [exact (validate_output_fails _ _ _ H)|discriminate].
      - eexists. split; [exact (validate_output_schema _ _ _ H)|discriminate].
      - eexists. split; [exact (validate_output_unexpected _ _ _ H I)|discriminate].
      - eexists. split; [exact (validate_output_unexpected _ _ _ H I)|discriminate].
      - eexists. split; [exact (validate_output_unexpected _ _ _ H I)|discriminate].
      - eexists. split; [exact (validate_output_unexpected _ _ _ H I)|discriminate]. }
    exists false, errors. split; [exact E|].
    split; [split; [discriminate|intros ->; now elim NE]|].
    split; [intros u Hu; discriminate Hu|]. intros e' _. now split.
Qed.

(* ----------------------------------------------------------------- *)
(** ** Coverage *)

Lemma dict_get_lookup (d : dict) (key : string) (default : json) :
  dict_get d key default
  = match dict_lookup d key with Some v => v | None => default end.
Proof.
  induction d as [|[k v] d IH]; simpl; [reflexivity|].
  destruct (String.eqb k key); [reflexivity|exact IH].
Qed.

Lemma mapM_in_dict_names (candidate : dict) (names : list string) :
  mapM (fun field => py_in_dict field candidate) (map JStr names)
  = Returns (map (dict_has candidate) names).
Proof.
  induction names as [|n names IH]; simpl; [reflexivity|].
  rewrite IH. reflexivity.
Qed.

Lemma all_strings_names (l : list json) :
  forallb (fun t => match t with JStr _ => true | _ => false end) l = true ->
  l = map JStr (flat_map (fun t => match t with JStr n => [n] | _ => [] end) l).
Proof.
  induction l as [|t l IH]; simpl; [reflexivity|].
  destruct t; simpl; try discriminate.
  intros H. now rewrite <- IH.
Qed.

Lemma count_true_filter {A : Type} (f : A -> bool) (l : list A) :
  List.length (filter (fun b : bool => b) (map f l)) = List.length (filter f l).
Proof.
  induction l as [|a l IH]; simpl; [reflexivity|].
  destruct (f a); simpl; now rewrite IH.
Qed.

Lemma ratio_bounds (p n : nat) :
  p <= n -> 0 < n ->
  (0 <= Qmake (Z.of_nat p) (Pos.of_nat n) <= 1)%Q.
Proof.
  intros Hle Hpos. unfold Qle; simpl.
  assert (Z.pos (Pos.of_nat n) = Z.of_nat n) as E.
  { destruct n; [lia|]. rewrite <- Pos.of_nat_succ. lia. }
  rewrite E. lia.
Qed.

(** C5: with [names] the required top-level names of the schema,
    [coverage_metric] returns 1 when there are none (whatever the
    candidate, the empty one included) and otherwise the number of those
    names that are keys of the candidate divided by the number of names;
    only key presence counts, the values are not looked at, and no
    validation takes part. The ratio lies between 0 and 1. *)
Theorem coverage_metric_ratio :
  forall (candidate schema : dict) (names : list string),
    required_names schema = Some names ->
    let present := List.length (filter (dict_has candidate) names) in
    let total := List.length names in
    (total = 0 -> coverage_metric candidate schema = Returns 1%Q)
    /\ (0 < total ->
        coverage_metric candidate schema
        = Returns (Qmake (Z.of_nat present) (Pos.of_nat total)))
    /\ exists ratio, coverage_metric candidate schema = Returns ratio
                     /\ (0 <= ratio <= 1)%Q.
Proof.
  intros candidate schema names Hreq present total.
  unfold required_names in Hreq.
  unfold coverage_metric. rewrite dict_get_lookup.
  destruct (dict_lookup schema "required") as [v|].
  2:{ inversion Hreq; subst. subst total present. simpl.
      split; [reflexivity|]. split; [lia|].
      exists 1%Q. split; [reflexivity|]. split; discriminate. }
  destruct v as [| | | | |l|]; try discriminate Hreq.
  destruct (forallb _ l) eqn:Hall; [|discriminate Hreq].
  inversion Hreq as [Hn]. clear Hreq.
  pose proof (all_strings_names l Hall) as Hl. rewrite Hn in Hl.
  subst l. clear Hall Hn.
  destruct names as [|n names].
  - simpl. split; [reflexivity|]. split; [subst total; simpl; lia|].
    exists 1%Q. split; [reflexivity|]. split; discriminate.
  - assert (truthy (JArr (map JStr (n :: names))) = true) as -> by reflexivity.
    cbn [negb py_iter bind].
    rewrite mapM_in_dict_names. cbn [bind].
    rewrite count_true_filter, length_map.
    fold present. fold total.
    split; [subst total; simpl; discriminate|].
    split; [reflexivity|].
    eexists. split; [reflexivity|].
    apply ratio_bounds.
    + subst present total. apply filter_length_le.
    + subst total. simpl. lia.
Qed.

(** C5, run on the fourth test of [validate.py]: [id] and [type] are
    present, [action] is not, so the coverage is 2/3 although the
    candidate does not validate. *)
Lemma coverage_metric_ratio_witness :
  coverage_metric partial_candidate JsonSchemaFragment.sample_schema_dict
  = Returns (Qmake 2 3).
Proof.
  apply (proj1 (proj2 (coverage_metric_ratio
                         partial_candidate JsonSchemaFragment.sample_schema_dict
                         ["id"; "type"; "action"] eq_refl))).
  simpl. lia.
Defined.

(* ================================================================= *)
(** * Properties of [retriever.py] *)

(** ** Lists in sorted order *)

Section SortedLists.
Context {A : Type}.

Lemma StronglySorted_app (R : A -> A -> Prop) (l1 l2 : list A) :
  StronglySorted R l1 -> StronglySorted R l2 ->
  (forall x y, In x l1 -> In y l2 -> R x y) ->
  StronglySorted R (l1 ++ l2).
Proof.
  induction l1 as [|a l1 IH]; simpl; intros H1 H2 H12; [exact H2|].
  apply StronglySorted_inv in H1. destruct H1 as [H1 Ha].
  constructor.
  - apply IH; auto.
  - apply Forall_app. split; [exact Ha|].
    apply Forall_forall. intros y Hy. apply H12; auto.
Qed.

Lemma StronglySorted_reverse (R : A -> A -> Prop) (l : list A) :
  StronglySorted R l -> StronglySorted (fun x y => R y x) (rev l).
Proof.
  induction 1 as [|a l Hl IH Ha]; simpl; [constructor|].
  apply StronglySorted_app; [exact IH|repeat constructor|].
  intros x y Hx [<-|[]]. rewrite <- in_rev in Hx.
  rewrite Forall_forall in Ha. now apply Ha.
Qed.

Lemma In_prefix (n : nat) (l : list A) (x : A) :
  In x (firstn n l) -> In x l.
Proof.
  revert n. induction l as [|a l IH]; intros [|n]; simpl; try tauto.
  intros [H|H]; [now left|right; now apply (IH n)].
Qed.

Lemma StronglySorted_prefix (R : A -> A -> Prop) (n : nat) (l : list A) :
  StronglySorted R l -> StronglySorted R (firstn n l).
Proof.
  intros H. revert n.
  induction H as [|a l Hl IH Ha]; intros [|n]; simpl; try constructor.
  - apply IH.
  - rewrite Forall_forall in *. intros x Hx. apply Ha.
    now apply (In_prefix n).
Qed.

Lemma StronglySorted_image {B : Type} (R : A -> A -> Prop) (S : B -> B -> Prop)
    (f : A -> B) (l : list A) :
  (forall x y, In x l -> In y l -> R x y -> S (f x) (f y)) ->
  StronglySorted R l -> StronglySorted S (map f l).
Proof.
  intros Hf H. induction H as [|a l Hl IH Ha]; simpl; [constructor|].
  constructor.
  - apply IH. intros x y Hx Hy. apply Hf; now right.
  - rewrite Forall_forall in *. intros b Hb.
    apply in_map_iff in Hb. destruct Hb as [x [<- Hx]].
    apply Hf; [now left|now right|now apply Ha].
Qed.

End SortedLists.

(** ** The rationals as floats *)

Lemma round_half_even_bounds (x : Q) :
  (Qfloor x <= round_half_even x <= Qfloor x + 1)%Z.
Proof.
  unfold round_half_even.
  destruct (Qcompare _ _); [destruct (Z.even _)| |]; lia.
Qed.

Lemma round_half_even_monotone (x y : Q) :
  (x <= y)%Q -> (round_half_even x <= round_half_even y)%Z.
Proof.
  intros Hxy.
  pose proof (Qfloor_resp_le x y Hxy) as Hf.
  destruct (Z.eq_dec (Qfloor x) (Qfloor y)) as [E|NE].
  - unfold round_half_even. rewrite <- E. cbv zeta.
    destruct (Qcompare_spec (x - inject_Z (Qfloor x)) (Qmake 1 2)) as [Hx|Hx|Hx];
      destruct (Qcompare_spec (y - inject_Z (Qfloor x)) (Qmake 1 2)) as [Hy|Hy|Hy];
      try (destruct (Z.even (Qfloor x))); try lia; exfalso; Lqa.lra.
  - pose proof (round_half_even_bounds x). pose proof (round_half_even_bounds y).
    lia.
Qed.

#[export] Instance float_Q_laws : FloatLaws Q.
Proof.
  constructor; simpl.
  - intros x y. rewrite !Qle_bool_iff.
    destruct (Qlt_le_dec x y) as [H|H]; [left; now apply Qlt_le_weak|now right].
  - intros x y z. rewrite !Qle_bool_iff. apply Qle_trans.
  - intros x y. rewrite !Qle_bool_iff. intros H.
    unfold Qround4, Qle. simpl.
    apply Z.mul_le_mono_nonneg_r; [lia|].
    apply round_half_even_monotone.
    apply Qmult_le_compat_r; [exact H|discriminate].
Qed.

(** ** The reals as floats *)

Lemma Rleb_true (x y : R) : Rleb x y = true <-> (x <= y)%R.
Proof. unfold Rleb. destruct (Rle_dec x y); split; auto; discriminate. Qed.

Lemma Int_part_bounds (x : R) : (IZR (Int_part x) <= x < IZR (Int_part x) + 1)%R.
Proof. destruct (base_Int_part x). Lra.lra. Qed.

Lemma Int_part_monotone (x y : R) : (x <= y)%R -> (Int_part x <= Int_part y)%Z.
Proof.
  intros H.
  pose proof (Int_part_bounds x). pose proof (Int_part_bounds y).
  apply Z.lt_succ_r. apply lt_IZR. rewrite succ_IZR. Lra.lra.
Qed.

Lemma Int_part_unique (x : R) (z : Z) :
  (IZR z <= x < IZR z + 1)%R -> Int_part x = z.
Proof.
  intros H. pose proof (Int_part_bounds x) as B.
  assert (Int_part x < z + 1)%Z.
  { apply lt_IZR. rewrite plus_IZR. Lra.lra. }
  assert (z < Int_part x + 1)%Z.
  { apply lt_IZR. rewrite plus_IZR. Lra.lra. }
  lia.
Qed.

Lemma Rround_half_even_bounds (x : R) :
  (Int_part x <= Rround_half_even x <= Int_part x + 1)%Z.
Proof.
  unfold Rround_half_even.
  destruct (Rlt_dec _ _); [lia|].
  destruct (Rlt_dec _ _); [lia|].
  destruct (Z.even _); lia.
Qed.

Lemma Rround_half_even_monotone (x y : R) :
  (x <= y)%R -> (Rround_half_even x <= Rround_half_even y)%Z.
Proof.
  intros Hxy.
  pose proof (Int_part_monotone x y Hxy) as Hf.
  destruct (Z.eq_dec (Int_part x) (Int_part y)) as [E|NE].
  - unfold Rround_half_even. rewrite <- E.
    destruct (Rlt_dec (x - IZR (Int_part x)) (1 / 2));
      destruct (Rlt_dec (y - IZR (Int_part x)) (1 / 2)); try lia; try Lra.lra;
      destruct (Rlt_dec (1 / 2) (x - IZR (Int_part x)));
      destruct (Rlt_dec (1 / 2) (y - IZR (Int_part x)));
      try (destruct (Z.even (Int_part x))); try lia; exfalso; Lra.lra.
  - pose proof (Rround_half_even_bounds x). pose proof (Rround_half_even_bounds y).
    lia.
Qed.

#[export] Instance float_R_laws : FloatLaws R.
Proof.
  constructor; simpl.
  - intros x y. rewrite !Rleb_true. Lra.lra.
  - intros x y z. rewrite !Rleb_true. Lra.lra.
  - intros x y. rewrite !Rleb_true. intros H. unfold Rround4.
    apply Rmult_le_compat_r; [Lra.lra|].
    apply IZR_le. apply Rround_half_even_monotone. Lra.lra.
Qed.

Lemma Rround4_integer (z : Z) : Rround4 (IZR z) = IZR z.
Proof.
  unfold Rround4, Rround_half_even.
  assert (Int_part (IZR z * 10000) = (z * 10000)%Z) as E.
  { apply Int_part_unique. rewrite mult_IZR. Lra.lra. }
  rewrite E, mult_IZR.
  destruct (Rlt_dec _ _) as [_|N]; [|exfalso; apply N; Lra.lra].
  rewrite mult_IZR. field.
Qed.

(** ** The stable [argsort] meets the NumPy contract *)

Section StableArgsortFacts.
Context {F : Type} {float : Float F} {laws : FloatLaws F}.
Variable a : list F.

Let key (i : nat) : F := nth i a fzero.

Lemma insert_index_permutation (i : nat) (sorted : list nat) :
  Permutation (insert_index a i sorted) (i :: sorted).
Proof.
  induction sorted as [|j rest IH]; simpl; [reflexivity|].
  destruct (fleb _ _); [reflexivity|].
  rewrite IH. apply perm_swap.
Qed.

Lemma fold_insert_permutation (l : list nat) :
  Permutation (fold_right (insert_index a) [] l) l.
Proof.
  induction l as [|i l IH]; simpl; [reflexivity|].
  rewrite insert_index_permutation. now constructor.
Qed.

Lemma insert_index_ascending (i : nat) (sorted : list nat) :
  StronglySorted (fun x y => fleb (key x) (key y) = true) sorted ->
  StronglySorted (fun x y => fleb (key x) (key y) = true)
                 (insert_index a i sorted).
Proof.
  induction 1 as [|j rest Hrest IH Hj]; simpl; [repeat constructor|].
  fold (key i). fold (key j).
  destruct (fleb (key i) (key j)) eqn:E.
  - constructor; [now constructor|].
    constructor; [exact E|].
    rewrite Forall_forall in *. intros x Hx.
    apply (fleb_trans _ (key j)); [exact E|now apply Hj].
  - constructor; [exact IH|].
    rewrite Forall_forall in *. intros x Hx.
    apply (Permutation_in _ (insert_index_permutation i rest)) in Hx.
    destruct Hx as [<-|Hx]; [|now apply Hj].
    destruct (fleb_total (key i) (key j)) as [H|H]; [congruence|exact H].
Qed.

Lemma fold_insert_ascending (l : list nat) :
  StronglySorted (fun x y => fleb (key x) (key y) = true)
                 (fold_right (insert_index a) [] l).
Proof.
  induction l as [|i l IH]; simpl; [constructor|].
  now apply insert_index_ascending.
Qed.

Lemma insert_index_stable (i : nat) (sorted : list nat) :
  (forall j, In j sorted -> i < j) ->
  StronglySorted (fun x y => fleb (key y) (key x) = true -> x < y) sorted ->
  StronglySorted (fun x y => fleb (key y) (key x) = true -> x < y)
                 (insert_index a i sorted).
Proof.
  intros Hlt H. induction H as [|j rest Hrest IH Hj]; simpl; [repeat constructor|].
  fold (key i). fold (key j).
  destruct (fleb (key i) (key j)) eqn:E.
  - constructor; [now constructor|].
    apply Forall_forall. intros x Hx _. now apply Hlt.
  - constructor.
    + apply IH. intros x Hx. apply Hlt. now right.
    + rewrite Forall_forall in *. intros x Hx.
      apply (Permutation_in _ (insert_index_permutation i rest)) in Hx.
      destruct Hx as [<-|Hx]; [|now apply Hj].
      intros H. congruence.
Qed.

Lemma fold_insert_stable (l : list nat) :
  StronglySorted lt l ->
  StronglySorted (fun x y => fleb (key y) (key x) = true -> x < y)
                 (fold_right (insert_index a) [] l).
Proof.
  induction 1 as [|i l Hl IH Hi]; simpl; [constructor|].
  apply insert_index_stable; [|exact IH].
  intros j Hj.
  apply (Permutation_in _ (fold_insert_permutation l)) in Hj.
  rewrite Forall_forall in Hi. now apply Hi.
Qed.

End StableArgsortFacts.

Lemma seq_increasing (start len : nat) : StronglySorted lt (seq start len).
Proof.
  revert start. induction len as [|len IH]; intros start; simpl; constructor.
  - apply IH.
  - apply Forall_forall. intros x Hx. apply in_seq in Hx. lia.
Qed.

#[export] Instance numpy_stable_laws {F : Type} {float : Float F}
  {laws : FloatLaws F} : @NumPyLaws F float numpy_stable.
Proof.
  constructor; intros a; simpl; unfold insertion_argsort.
  - apply fold_insert_permutation.
  - apply fold_insert_ascending.
Qed.

Lemma numpy_stable_is_stable {F : Type} {float : Float F} {laws : FloatLaws F} :
  argsort_is_stable (@numpy_stable F float).
Proof.
  intros a. simpl. unfold insertion_argsort.
  apply fold_insert_stable. apply seq_increasing.
Qed.

(** ** [get_top_k] on a well-formed index *)

Lemma mapM_total {A B : Type} (f : A -> result B) (g : A -> B) (l : list A) :
  (forall a, In a l -> f a = Returns (g a)) ->
  mapM f l = Returns (map g l).
Proof.
  induction l as [|a l IH]; simpl; intros H; [reflexivity|].
  rewrite (H a (or_introl eq_refl)). simpl.
  rewrite IH; [reflexivity|]. intros b Hb. apply H. now right.
Qed.

Lemma getitem_nth {A : Type} (l : list A) (idx : nat) (d : A) :
  idx < List.length l -> getitem l idx = Returns (nth idx l d).
Proof.
  intros H. unfold getitem.
  rewrite (nth_error_nth' l d H). reflexivity.
Qed.

Lemma length_concat_rows {A B C : Type} (f : A -> B -> C) (rs : list A) (q : B) :
  List.length (List.concat (map (fun r => map (f r) [q]) rs)) = List.length rs.
Proof. induction rs as [|r rs IH]; simpl; [reflexivity|now f_equal]. Qed.

Lemma map_nth_seq {A : Type} (l : list A) (d : A) :
  map (fun i => nth i l d) (seq 0 (List.length l)) = l.
Proof.
  induction l as [|a l IH]; simpl; [reflexivity|].
  f_equal. rewrite <- seq_shift, map_map. exact IH.
Qed.

Section GetTopKFacts.
Context {F : Type} {float : Float F} {numpy : NumPy F} {nlaws : NumPyLaws F}.

Variables (query : string) (vectorizer : TfidfVectorizer F)
          (matrix : csr_matrix F) (examples : list dict).
Hypothesis index : index_of_corpus vectorizer matrix examples.

Let scores : list F := similarity_scores query vectorizer matrix.

Lemma transform_one_row :
  exists q, rows (transform vectorizer [query]) = [q].
Proof.
  destruct index as [_ H]. destruct (H [query]) as [_ Hlen].
  destruct (rows (transform vectorizer [query])) as [|q [|q' l]];
    simpl in Hlen; try discriminate.
  now exists q.
Qed.

Lemma similarity_scores_length : List.length scores = List.length examples.
Proof.
  subst scores. unfold similarity_scores, flatten.
  destruct transform_one_row as [q ->].
  etransitivity; [exact (length_concat_rows row_dot (rows matrix) q)|].
  now destruct index.
Qed.

Lemma top_indices_in_range (k : Z) (idx : nat) :
  In idx (top_indices scores k) -> idx < List.length examples.
Proof.
  unfold top_indices. intros H.
  apply In_prefix in H. rewrite <- in_rev in H.
  apply (Permutation_in _ (argsort_permutation scores)) in H.
  apply in_seq in H. rewrite similarity_scores_length in H. lia.
Qed.

Lemma top_indices_nodup (k : Z) : NoDup (top_indices scores k).
Proof.
  unfold top_indices.
  assert (NoDup (rev (argsort scores))) as H.
  { apply NoDup_rev.
    apply (Permutation_NoDup (Permutation_sym (argsort_permutation scores))).
    apply seq_NoDup. }
  rewrite <- (firstn_skipn (Z.to_nat k)) in H.
  now apply NoDup_app_remove_r in H.
Qed.

Lemma top_indices_length (k : Z) :
  (0 <= k <= Z.of_nat (List.length examples))%Z ->
  List.length (top_indices scores k) = Z.to_nat k.
Proof.
  intros Hk. unfold top_indices.
  rewrite length_firstn, length_rev.
  rewrite (Permutation_length (argsort_permutation scores)), length_seq.
  rewrite similarity_scores_length. lia.
Qed.

Lemma top_indices_all (k : Z) :
  (Z.of_nat (List.length examples) <= k)%Z ->
  top_indices scores k = rev (argsort scores).
Proof.
  intros Hk. unfold top_indices. apply firstn_all2.
  rewrite length_rev.
  rewrite (Permutation_length (argsort_permutation scores)), length_seq.
  rewrite similarity_scores_length. lia.
Qed.

(** With [1 <= k] the call returns, and the result is read off
    [top_indices] of the clamped [k]. *)
Lemma get_top_k_returns (k : Z) :
  (1 <= k)%Z ->
  get_top_k query vectorizer matrix examples k
  = Returns (map (fun idx => (nth idx examples [], round4 (nth idx scores fzero)))
                 (top_indices scores (Z.min k (Z.of_nat (List.length examples))))).
Proof.
  intros Hk. unfold get_top_k.
  destruct (Z.ltb_spec k 1) as [?|_]; [lia|].
  assert ((if (k >? Z.of_nat (List.length examples))%Z
           then Z.of_nat (List.length examples) else k)
          = Z.min k (Z.of_nat (List.length examples))) as ->.
  { rewrite Z.gtb_ltb. destruct (Z.ltb_spec (Z.of_nat (List.length examples)) k); lia. }
  unfold dot_T.
  destruct index as [_ H]. destruct (H [query]) as [Hcols _].
  rewrite Hcols, Nat.eqb_refl. cbn [bind].
  fold (similarity_scores query vectorizer matrix). fold scores.
  apply mapM_total. intros idx Hidx.
  apply top_indices_in_range in Hidx.
  rewrite (getitem_nth examples idx []) by exact Hidx.
  rewrite (getitem_nth scores idx fzero)
    by (rewrite similarity_scores_length; exact Hidx).
  reflexivity.
Qed.

(** The indices come out from the best raw score to the worst. *)
Lemma top_indices_descending (k : Z) :
  StronglySorted
    (fun i j => fleb (nth j scores fzero) (nth i scores fzero) = true)
    (top_indices scores k).
Proof.
  unfold top_indices. apply StronglySorted_prefix.
  apply (StronglySorted_reverse _ _ (argsort_ascending scores)).
Qed.

(** Under a stable [argsort], the reversal puts tied documents in the
    reverse of their corpus order. *)
Lemma top_indices_ties_reversed (k : Z) :
  argsort_is_stable numpy ->
  ties_in_reverse_corpus_order scores (top_indices scores k).
Proof.
  intros Hstable. unfold top_indices. apply StronglySorted_prefix.
  apply (StronglySorted_reverse _ _ (Hstable scores)).
Qed.

End GetTopKFacts.

Lemma mock_index : index_of_corpus mock_vectorizer mock_matrix mock_examples.
Proof.
  split; [reflexivity|]. intros texts. split; [reflexivity|].
  simpl. apply length_map.
Qed.

(** C1 (as amended): on a well-formed index and with [k >= 1],
    [get_top_k] returns the documents at [top_indices] with their rounded
    scores, from the highest score to the lowest. Documents whose raw
    scores are equal do not keep their corpus order: the order among them
    is whatever [argsort] leaves after reversal, and with a stable
    [argsort] it is the reverse of the corpus order. The result is a
    function of the inputs. *)
Theorem get_top_k_sorted :
  forall (F : Type) (float : Float F) (laws : FloatLaws F)
         (numpy : NumPy F) (nlaws : NumPyLaws F)
         (query : string) (vectorizer : TfidfVectorizer F)
         (matrix : csr_matrix F) (examples : list dict) (k : Z),
    (1 <= k)%Z ->
    index_of_corpus vectorizer matrix examples ->
    let scores := similarity_scores query vectorizer matrix in
    let indices := top_indices scores (Z.min k (Z.of_nat (List.length examples))) in
    exists results,
      get_top_k query vectorizer matrix examples k = Returns results
      /\ results
         = map (fun idx => (nth idx examples [], round4 (nth idx scores fzero)))
               indices
      /\ non_increasing results
      /\ (argsort_is_stable numpy -> ties_in_reverse_corpus_order scores indices).
Proof.
  intros F float laws numpy nlaws query vectorizer matrix examples k Hk Hindex
         scores indices.
  eexists. split; [now apply get_top_k_returns|].
  split; [reflexivity|]. split.
  - unfold non_increasing.
    apply (StronglySorted_image
             (fun i j => fleb (nth j scores fzero) (nth i scores fzero) = true)).
    + intros i j _ _ H. simpl. now apply round4_monotone.
    + apply top_indices_descending.
  - intros Hstable. now apply top_indices_ties_reversed.
Qed.

(** C1, run on the small index: the best three of four, scores
    1.0, 0.6667, 0.6667. *)
Lemma get_top_k_sorted_witness :
  exists results,
    @get_top_k Q float_Q numpy_stable mock_query mock_vectorizer mock_matrix
               mock_examples 3
    = Returns results
    /\ non_increasing results.
Proof.
  destruct (get_top_k_sorted Q float_Q float_Q_laws numpy_stable numpy_stable_laws
              mock_query mock_vectorizer mock_matrix mock_examples 3
              ltac:(lia) mock_index)
    as [results [H1 [_ [H3 _]]]].
  exists results. split; [exact H1|exact H3].
Defined.

(** C1 as stated fails: examples 1 and 3 of the small index both score
    2/3 against the query, and the result lists example 3 before
    example 1. *)
Lemma get_top_k_ties_not_in_corpus_order :
  Forall2 Qeq (similarity_scores mock_query mock_vectorizer mock_matrix)
              [Qmake 2 3; Qmake 1 3; Qmake 2 3; 1%Q]
  /\ @top_indices Q numpy_stable
       (similarity_scores mock_query mock_vectorizer mock_matrix) 3
     = [3; 2; 0]
  /\ @get_top_k Q float_Q numpy_stable mock_query mock_vectorizer mock_matrix
                mock_examples 3
     = Returns [([("id", JStr "ex-004")], Qmake 10000 10000);
                ([("id", JStr "ex-003")], Qmake 6667 10000);
                ([("id", JStr "ex-001")], Qmake 6667 10000)]
  /\ ~ ties_in_corpus_order
         (similarity_scores mock_query mock_vectorizer mock_matrix)
         (@top_indices Q numpy_stable
            (similarity_scores mock_query mock_vectorizer mock_matrix) 3).
Proof.
  split; [repeat constructor; vm_compute; reflexivity|].
  split; [vm_compute; reflexivity|].
  split; [vm_compute; reflexivity|].
  intros H.
  assert (@top_indices Q numpy_stable
            (similarity_scores mock_query mock_vectorizer mock_matrix) 3
          = [3; 2; 0]) as E by (vm_compute; reflexivity).
  rewrite E in H.
  apply StronglySorted_inv in H. destruct H as [H _].
  apply StronglySorted_inv in H. destruct H as [_ H].
  apply Forall_inv in H.
  assert (2 < 0) as C by (apply H; vm_compute; reflexivity).
  lia.
Qed.

(** C6: on a well-formed index and with [k >= 1], [get_top_k] returns
    [min(k, n)] results for a corpus of [n] documents, taken at pairwise
    distinct positions of the corpus; with [k > n] nothing fails, the
    result has [n] entries and its documents are the corpus rearranged,
    every document once. *)
Theorem get_top_k_clamps :
  forall (F : Type) (float : Float F) (numpy : NumPy F) (nlaws : NumPyLaws F)
         (query : string) (vectorizer : TfidfVectorizer F)
         (matrix : csr_matrix F) (examples : list dict) (k : Z),
    (1 <= k)%Z ->
    index_of_corpus vectorizer matrix examples ->
    exists results,
      get_top_k query vectorizer matrix examples k = Returns results
      /\ Z.of_nat (List.length results) = Z.min k (Z.of_nat (List.length examples))
      /\ (exists indices,
             NoDup indices
             /\ map fst results = map (fun idx => nth idx examples []) indices)
      /\ ((Z.of_nat (List.length examples) < k)%Z ->
          List.length results = List.length examples
          /\ Permutation (map fst results) examples).
Proof.
  intros F float numpy nlaws query vectorizer matrix examples k Hk Hindex.
  pose proof (top_indices_length query vectorizer matrix examples Hindex) as Hlen.
  pose proof (top_indices_all query vectorizer matrix examples Hindex) as Hall.
  pose proof (similarity_scores_length query vectorizer matrix examples Hindex) as Hn.
  eexists. split; [now apply get_top_k_returns|].
  split; [|split].
  - rewrite length_map, Hlen by lia. lia.
  - eexists. split.
    + apply (top_indices_nodup query vectorizer matrix
               (Z.min k (Z.of_nat (List.length examples)))).
    + rewrite map_map. reflexivity.
  - intros Hbig.
    assert (Z.min k (Z.of_nat (List.length examples))
            = Z.of_nat (List.length examples)) as -> by lia.
    rewrite length_map, Hlen by lia.
    split; [lia|].
    rewrite map_map. cbn [fst].
    rewrite Hall by lia.
    apply Permutation_trans
      with (map (fun idx => nth idx examples []) (seq 0 (List.length examples))).
    + apply Permutation_map.
      rewrite <- Permutation_rev.
      rewrite (argsort_permutation (similarity_scores query vectorizer matrix)).
      now rewrite Hn.
    + now rewrite map_nth_seq.
Qed.

(** C6, run on the small index with [k = 10]: all four examples. *)
Lemma get_top_k_clamps_witness :
  exists results,
    @get_top_k Q float_Q numpy_stable mock_query mock_vectorizer mock_matrix
               mock_examples 10
    = Returns results
    /\ List.length results = 4
    /\ Permutation (map fst results) mock_examples.
Proof.
  destruct (get_top_k_clamps Q float_Q numpy_stable numpy_stable_laws
              mock_query mock_vectorizer mock_matrix mock_examples 10
              ltac:(lia) mock_index)
    as [results [H1 [_ [_ H4]]]].
  exists results. split; [exact H1|].
  apply H4. simpl. lia.
Defined.

(** C7: with [k < 1] ([k = 0] and [k = -1] among them) [get_top_k]
    raises, whatever the query, the vectorizer, the matrix and the
    examples are, and so before any of them is used; no result list is
    returned. The source signals the condition with the built-in
    [ValueError] and the message below. *)
Theorem get_top_k_rejects_k_below_one :
  forall (F : Type) (float : Float F) (numpy : NumPy F)
         (query : string) (vectorizer : TfidfVectorizer F)
         (matrix : csr_matrix F) (examples : list dict) (k : Z),
    (k < 1)%Z ->
    get_top_k query vectorizer matrix examples k
    = Raises (ValueError "k must be at least 1").
Proof.
  intros F float numpy query vectorizer matrix examples k Hk.
  unfold get_top_k. destruct (Z.ltb_spec k 1); [reflexivity|lia].
Qed.

(** C7, run with [k = 0] and [k = -1]. *)
Lemma get_top_k_rejects_k_below_one_witness :
  @get_top_k Q float_Q numpy_stable mock_query mock_vectorizer mock_matrix
             mock_examples 0
  = Raises (ValueError "k must be at least 1")
  /\ @get_top_k Q float_Q numpy_stable mock_query mock_vectorizer mock_matrix
                mock_examples (-1)
     = Raises (ValueError "k must be at least 1").
Proof.
  split.
  - apply (get_top_k_rejects_k_below_one Q float_Q numpy_stable). lia.
  - apply (get_top_k_rejects_k_below_one Q float_Q numpy_stable). lia.
Defined.

(** C8: [build_index] on the empty list raises before the vectorizer is
    created, for every behaviour of scikit-learn; it returns no index.
    The source signals the condition with the built-in [ValueError] and
    the message below. *)
Theorem build_index_rejects_empty_corpus :
  forall (F : Type) (sklearn : Sklearn F),
    @build_index F sklearn [] = Raises (ValueError "Examples list cannot be empty").
Proof. intros F sklearn. reflexivity. Qed.

(* ================================================================= *)
(** * The round trip through the TF-IDF index *)

(** ** Rows of weights *)

Lemma sum_squares_nonneg (row : list R) : (0 <= Tfidf.sum_squares row)%R.
Proof.
  induction row as [|x row IH]; simpl; [Lra.lra|].
  pose proof (Rle_0_sqr x) as H. unfold Rsqr in H. Lra.lra.
Qed.

Lemma sum_squares_member (row : list R) (x : R) :
  In x row -> (x * x <= Tfidf.sum_squares row)%R.
Proof.
  induction row as [|y row IH]; simpl; [tauto|].
  pose proof (sum_squares_nonneg row) as Hrow.
  pose proof (Rle_0_sqr y) as Hy. unfold Rsqr in Hy.
  intros [->|Hin]; [Lra.lra|]. specialize (IH Hin). Lra.lra.
Qed.

Lemma sum_squares_scaled (row : list R) (c : R) :
  c <> 0%R ->
  Tfidf.sum_squares (map (fun x => (x / c)%R) row)
  = (Tfidf.sum_squares row / (c * c))%R.
Proof.
  intros Hc. induction row as [|x row IH]; simpl.
  - field. exact Hc.
  - rewrite IH. field. exact Hc.
Qed.

(** A row with a non-zero entry is scaled to length one. *)
Lemma sum_squares_normalized (row : list R) :
  (0 < Tfidf.sum_squares row)%R ->
  Tfidf.sum_squares (Tfidf.l2_normalize row) = 1%R.
Proof.
  intros Hpos. unfold Tfidf.l2_normalize.
  pose proof (sqrt_lt_R0 _ Hpos) as Hs.
  destruct (Req_dec_T (sqrt (Tfidf.sum_squares row)) 0) as [E|_]; [Lra.lra|].
  rewrite sum_squares_scaled by Lra.lra.
  rewrite sqrt_sqrt by Lra.lra.
  field. Lra.lra.
Qed.

(** A row of zeros is left alone; no row gets longer than one. *)
Lemma sum_squares_normalized_le (row : list R) :
  (Tfidf.sum_squares (Tfidf.l2_normalize row) <= 1)%R.
Proof.
  destruct (Rle_lt_or_eq_dec _ _ (sum_squares_nonneg row)) as [Hpos|Hzero].
  - rewrite sum_squares_normalized by exact Hpos. Lra.lra.
  - unfold Tfidf.l2_normalize. rewrite <- Hzero, sqrt_0.
    destruct (Req_dec_T 0 0) as [_|N]; [|now elim N].
    rewrite sum_squares_scaled by Lra.lra. rewrite <- Hzero. Lra.lra.
Qed.

Lemma row_dot_self (u : list R) : row_dot u u = Tfidf.sum_squares u.
Proof. induction u as [|x u IH]; simpl; [reflexivity|now rewrite IH]. Qed.

(** Twice a scalar product is at most the sum of the squared lengths. *)
Lemma row_dot_bound (u v : list R) :
  (2 * row_dot u v <= Tfidf.sum_squares u + Tfidf.sum_squares v)%R.
Proof.
  revert v. induction u as [|x u IH]; intros [|y v]; simpl.
  - Lra.lra.
  - pose proof (sum_squares_nonneg (y :: v)) as H. simpl in H. Lra.lra.
  - pose proof (sum_squares_nonneg (x :: u)) as H. simpl in H. Lra.lra.
  - specialize (IH v).
    pose proof (Rle_0_sqr (x - y)) as H. unfold Rsqr in H. Lra.lra.
Qed.

Lemma row_dot_normalized_le (u v : list R) :
  (row_dot (Tfidf.l2_normalize u) (Tfidf.l2_normalize v) <= 1)%R.
Proof.
  pose proof (row_dot_bound (Tfidf.l2_normalize u) (Tfidf.l2_normalize v)).
  pose proof (sum_squares_normalized_le u).
  pose proof (sum_squares_normalized_le v).
  Lra.lra.
Qed.

(** ** The vocabulary and the idf weights *)

Lemma in_insert_feature (t u : string) (names : list string) :
  In u (Tfidf.insert_feature t names) <-> u = t \/ In u names.
Proof.
  induction names as [|v names IH]; simpl; [intuition congruence|].
  destruct (String.compare t v) eqn:E; simpl.
  - apply String.compare_eq_iff in E. subst v. intuition congruence.
  - intuition congruence.
  - rewrite IH. intuition congruence.
Qed.

Lemma in_vocabulary (t : string) (docs : list (list string)) :
  In t (Tfidf.vocabulary docs) <-> In t (List.concat docs).
Proof.
  unfold Tfidf.vocabulary.
  induction (List.concat docs) as [|u l IH]; simpl; [tauto|].
  rewrite in_insert_feature, IH. intuition congruence.
Qed.

Lemma idf_at_least_one (n df : nat) : df <= n -> (1 <= Tfidf.idf n df)%R.
Proof.
  intros H. unfold Tfidf.idf.
  pose proof (pos_INR df) as Hdf. apply le_INR in H.
  assert (1 <= (1 + INR n) / (1 + INR df))%R as Hq.
  { apply (Rmult_le_reg_r (1 + INR df)); [Lra.lra|].
    unfold Rdiv. rewrite Rmult_assoc, Rinv_l by Lra.lra. Lra.lra. }
  destruct (Rle_lt_or_eq_dec _ _ Hq) as [Hlt|Heq].
  - pose proof (ln_increasing 1 _ Rlt_0_1 Hlt) as Hln. rewrite ln_1 in Hln. Lra.lra.
  - rewrite <- Heq, ln_1. Lra.lra.
Qed.

Lemma count_token_positive (t : string) (doc : list string) :
  In t doc -> 1 <= Tfidf.count_token t doc.
Proof.
  induction doc as [|u doc IH]; simpl; [tauto|].
  intros [->|H].
  - rewrite String.eqb_refl. lia.
  - specialize (IH H). lia.
Qed.

(** ** The first place of the ranking *)

Section FirstPlace.
Context {F : Type} {float : Float F} {laws : FloatLaws F}
        {numpy : NumPy F} {nlaws : NumPyLaws F}.
Variable scores : list F.

Let score (i : nat) : F := nth i scores fzero.

(** On a non-empty array the reversed [argsort] starts with an index of
    a largest element; under stability that index is the last one among
    the largest. *)
Lemma reversed_argsort_head :
  scores <> [] ->
  exists best others,
    rev (argsort scores) = best :: others
    /\ best < List.length scores
    /\ (forall j, j < List.length scores -> fleb (score j) (score best) = true)
    /\ (argsort_is_stable numpy ->
        forall j, j < List.length scores ->
                  fleb (score best) (score j) = true -> j <= best).
Proof.
  intros Hne.
  pose proof (argsort_permutation scores) as Hperm.
  pose proof (StronglySorted_reverse _ _ (argsort_ascending scores)) as Hdesc.
  assert (forall j, j < List.length scores <-> In j (rev (argsort scores))) as Hin.
  { intros j. rewrite <- in_rev. split; intros H.
    - apply (Permutation_in _ (Permutation_sym Hperm)). apply in_seq. lia.
    - apply (Permutation_in _ Hperm) in H. apply in_seq in H. lia. }
  destruct (rev (argsort scores)) as [|best others] eqn:E.
  { exfalso. destruct scores as [|s l]; [now apply Hne|].
    apply (proj1 (Hin 0)). simpl. lia. }
  exists best, others. split; [reflexivity|].
  split; [apply Hin; now left|].
  apply StronglySorted_inv in Hdesc. destruct Hdesc as [_ Hbest].
  rewrite Forall_forall in Hbest.
  split.
  - intros j Hj. apply Hin in Hj. destruct Hj as [<-|Hj]; [|now apply Hbest].
    destruct (fleb_total (score best) (score best)); assumption.
  - intros Hstable j Hj Htie.
    pose proof (StronglySorted_reverse _ _ (Hstable scores)) as Hties.
    rewrite E in Hties.
    apply StronglySorted_inv in Hties. destruct Hties as [_ Hties].
    rewrite Forall_forall in Hties.
    apply Hin in Hj. destruct Hj as [<-|Hj]; [lia|].
    specialize (Hties j Hj Htie). lia.
Qed.

Lemma top_indices_head (k : Z) (best : nat) (others : list nat) :
  (1 <= k)%Z ->
  rev (argsort scores) = best :: others ->
  top_indices scores k = best :: firstn (Z.to_nat k - 1) others.
Proof.
  intros Hk E. unfold top_indices. rewrite E.
  destruct (Z.to_nat k) as [|m] eqn:Em; [lia|].
  simpl. now rewrite Nat.sub_0_r.
Qed.

End FirstPlace.

(** ** The index built by [build_index] *)

Section TfidfIndex.
Variable analyzer : string -> list string.

Let sklearn : Sklearn R := Tfidf.sklearn_tfidf analyzer.

Lemma combine_map_self {A B : Type} (g : A -> B) (l : list A) :
  combine l (map g l) = map (fun a => (a, g a)) l.
Proof. induction l as [|a l IH]; simpl; [reflexivity|now rewrite IH]. Qed.

(** Every row of the matrix and every query vector has length at most
    one. *)
Lemma encode_length_le (f : Tfidf.fitted) (text : string) :
  (Tfidf.sum_squares (Tfidf.encode analyzer f text) <= 1)%R.
Proof. unfold Tfidf.encode. apply sum_squares_normalized_le. Qed.

(** A text of the corpus with at least one token has a row of length
    one. *)
Lemma encode_length_one (texts : list string) (text : string) :
  In text texts -> analyzer text <> [] ->
  Tfidf.sum_squares (Tfidf.encode analyzer (Tfidf.fit analyzer texts) text) = 1%R.
Proof.
  intros Hin Htok. unfold Tfidf.encode.
  apply sum_squares_normalized.
  unfold Tfidf.fit. cbn [Tfidf.feature_names Tfidf.idf_].
  rewrite combine_map_self, map_map. cbn [fst snd].
  destruct (analyzer text) as [|t doc] eqn:Edoc; [now elim Htok|].
  set (docs := map analyzer texts).
  set (weight := fun t' : string =>
         (INR (Tfidf.count_token t' (t :: doc))
          * Tfidf.idf (List.length docs) (Tfidf.document_frequency t' docs))%R).
  assert (In t (Tfidf.vocabulary docs)) as Hvoc.
  { apply in_vocabulary. apply in_concat. exists (t :: doc). split; [|now left].
    subst docs. rewrite <- Edoc. now apply in_map. }
  assert (1 <= weight t)%R as Hw.
  { subst weight. cbn beta.
    pose proof (count_token_positive t (t :: doc) (or_introl eq_refl)) as Hc.
    apply le_INR in Hc. rewrite INR_1 in Hc.
    assert (1 <= Tfidf.idf (List.length docs) (Tfidf.document_frequency t docs))%R
      as Hidf.
    { apply idf_at_least_one. unfold Tfidf.document_frequency.
      apply filter_length_le. }
    replace 1%R with (1 * 1)%R by Lra.lra.
    apply Rmult_le_compat; Lra.lra. }
  pose proof (sum_squares_member (map weight (Tfidf.vocabulary docs)) (weight t)
                (in_map weight _ _ Hvoc)) as Hss.
  assert (1 <= weight t * weight t)%R.
  { replace 1%R with (1 * 1)%R by Lra.lra. apply Rmult_le_compat; Lra.lra. }
  Lra.lra.
Qed.

Lemma similarity_scores_tfidf (f : Tfidf.fitted) (texts : list string)
    (query : string) :
  similarity_scores query {| transform := Tfidf.tfidf_transform analyzer f |}
                    (Tfidf.tfidf_transform analyzer f texts)
  = map (fun text => row_dot (Tfidf.encode analyzer f text)
                             (Tfidf.encode analyzer f query)) texts.
Proof.
  unfold similarity_scores, flatten. simpl.
  induction texts as [|text texts IH]; simpl; [reflexivity|now rewrite IH].
Qed.

Lemma tfidf_index (f : Tfidf.fitted) (examples : list dict) :
  index_of_corpus {| transform := Tfidf.tfidf_transform analyzer f |}
                  (Tfidf.tfidf_transform analyzer f (map to_text examples))
                  examples.
Proof.
  split; simpl.
  - now rewrite !length_map.
  - intros texts. split; [reflexivity|apply length_map].
Qed.

(** [build_index] returns as soon as one example has a token. *)
Lemma build_index_returns (examples : list dict) (d : dict) :
  In d examples -> analyzer (to_text d) <> [] ->
  let texts := map to_text examples in
  let f := Tfidf.fit analyzer texts in
  @build_index R sklearn examples
  = Returns ({| transform := Tfidf.tfidf_transform analyzer f |},
             Tfidf.tfidf_transform analyzer f texts, texts).
Proof.
  intros Hin Htok texts f.
  destruct examples as [|e examples]; [now elim Hin|].
  unfold build_index. fold texts.
  unfold fit_transform, sklearn, Tfidf.sklearn_tfidf, Tfidf.tfidf_fit_transform.
  fold f.
  destruct (Tfidf.feature_names f) as [|t names] eqn:E; [|reflexivity].
  exfalso.
  destruct (analyzer (to_text d)) as [|t doc] eqn:Edoc; [now elim Htok|].
  assert (In t (Tfidf.feature_names f)) as Hvoc.
  { subst f. unfold Tfidf.fit. cbn [Tfidf.feature_names].
    apply in_vocabulary. apply in_concat. exists (t :: doc). split; [|now left].
    rewrite <- Edoc. apply in_map. subst texts. now apply in_map. }
  rewrite E in Hvoc. exact Hvoc.
Qed.

End TfidfIndex.

(** ** A document without tokens *)

Lemma row_dot_zero_r (u v : list R) :
  Forall (fun x => x = 0%R) v -> row_dot u v = 0%R.
Proof.
  intros Hv. revert u.
  induction Hv as [|y v Hy Hv IH]; intros [|x u]; simpl; try reflexivity.
  rewrite IH, Hy. Lra.lra.
Qed.

Lemma encode_without_tokens (analyzer : string -> list string)
    (f : Tfidf.fitted) (text : string) :
  analyzer text = [] ->
  Forall (fun x => x = 0%R) (Tfidf.encode analyzer f text).
Proof.
  intros E. unfold Tfidf.encode, Tfidf.l2_normalize. rewrite E.
  apply Forall_forall. intros x Hx.
  apply in_map_iff in Hx. destruct Hx as [w [<- Hw]].
  apply in_map_iff in Hw. destruct Hw as [tw [<- _]].
  simpl. unfold Rdiv. now rewrite !Rmult_0_l.
Qed.

Lemma Rleb_refl (x : R) : Rleb x x = true.
Proof. apply Rleb_true. Lra.lra. Qed.

(** ** A document that says the same twice *)

Lemma l2_normalize_scaled (c : R) (row : list R) :
  (0 < c)%R ->
  Tfidf.l2_normalize (map (fun x => (c * x)%R) row) = Tfidf.l2_normalize row.
Proof.
  intros Hc. unfold Tfidf.l2_normalize. cbv zeta.
  assert (Tfidf.sum_squares (map (fun x => (c * x)%R) row)
          = (c * c * Tfidf.sum_squares row)%R) as E.
  { induction row as [|x row IH]; simpl; [ring|]. rewrite IH. ring. }
  rewrite E.
  pose proof (sum_squares_nonneg row) as P.
  rewrite sqrt_mult by (try apply Rmult_le_pos; Lra.lra).
  rewrite sqrt_square by Lra.lra.
  rewrite map_map.
  destruct (Req_dec_T (sqrt (Tfidf.sum_squares row)) 0) as [Z|NZ].
  - rewrite Z, Rmult_0_r.
    destruct (Req_dec_T 0 0) as [_|N]; [|now elim N].
    apply sqrt_eq_0 in Z; [|exact P].
    apply map_ext_in. intros x Hx.
    pose proof (sum_squares_member row x Hx) as M. rewrite Z in M.
    assert (x = 0%R) as ->.
    { destruct (Req_dec x 0) as [E0|N0]; [exact E0|].
      assert (0 < x * x)%R.
      { destruct (Rdichotomy _ _ N0).
        - replace (x * x)%R with ((- x) * (- x))%R by ring.
          apply Rmult_lt_0_compat; Lra.lra.
        - apply Rmult_lt_0_compat; Lra.lra. }
      Lra.lra. }
    unfold Rdiv. ring.
  - destruct (Req_dec_T (c * sqrt (Tfidf.sum_squares row)) 0) as [Z|_].
    + exfalso. apply Rmult_integral in Z. destruct Z; Lra.lra.
    + apply map_ext. intros x. field. split; Lra.lra.
Qed.

(** A text whose tokens all occur twice as often has the same row. *)
Lemma encode_doubled (analyzer : string -> list string) (f : Tfidf.fitted)
    (text1 text2 : string) :
  (forall t, Tfidf.count_token t (analyzer text2)
             = 2 * Tfidf.count_token t (analyzer text1)) ->
  Tfidf.encode analyzer f text2 = Tfidf.encode analyzer f text1.
Proof.
  intros H. unfold Tfidf.encode. cbv zeta.
  rewrite <- (l2_normalize_scaled 2
                (map (fun tw => (INR (Tfidf.count_token (fst tw) (analyzer text1))
                                 * snd tw)%R)
                     (combine (Tfidf.feature_names f) (Tfidf.idf_ f))))
    by Lra.lra.
  f_equal. rewrite map_map. apply map_ext. intros [t w]. cbn [fst snd].
  rewrite (H t), mult_INR.
  replace (INR 2) with 2%R by (simpl; Lra.lra). ring.
Qed.

(** C4 as stated fails, twice.  In the corpus of an example with only
    an identifier followed by the default example, the text of the first
    example has no token: the index is built, the similarity of that
    example to its own text is 0 and not 1, and the first result of the
    ranking is the other example, whose text is different.  In the corpus
    of an example followed by one that says the same twice, the two texts
    differ and so do their token counts, yet both give the same query
    vector and so the same ranking, whatever [argsort] does: one of the two
    examples is not first for its own text, and the corpus has no
    duplicate. *)
Lemma round_trip_fails_twice :
  (nth_error [untitled_example; default_example] 0 = Some untitled_example
   /\ to_text untitled_example <> to_text default_example
   /\ exists vectorizer matrix texts,
        @build_index R (Tfidf.sklearn_tfidf Tfidf.default_analyzer)
                     [untitled_example; default_example]
        = Returns (vectorizer, matrix, texts)
        /\ similarity_scores (to_text untitled_example) vectorizer matrix
           = [0%R; 0%R]
        /\ nth 0 (similarity_scores (to_text untitled_example) vectorizer matrix)
               0%R <> 1%R
        /\ @get_top_k R float_R numpy_stable (to_text untitled_example)
                      vectorizer matrix [untitled_example; default_example] 1
           = Returns [(default_example, 0%R)])
  /\ (to_text slack_example <> to_text repeated_example
      /\ ~ same_token_counts Tfidf.default_analyzer
             (to_text slack_example) (to_text repeated_example)
      /\ exists vectorizer matrix texts,
           @build_index R (Tfidf.sklearn_tfidf Tfidf.default_analyzer)
                        [slack_example; repeated_example]
           = Returns (vectorizer, matrix, texts)
           /\ (forall (numpy : NumPy R) (k : Z),
                  @get_top_k R float_R numpy (to_text slack_example)
                             vectorizer matrix
                             [slack_example; repeated_example] k
                  = @get_top_k R float_R numpy (to_text repeated_example)
                               vectorizer matrix
                               [slack_example; repeated_example] k)
           /\ (forall (numpy : NumPy R) (k : Z) s1 s2 rest1 rest2,
                  ~ (@get_top_k R float_R numpy (to_text slack_example)
                                vectorizer matrix
                                [slack_example; repeated_example] k
                     = Returns ((slack_example, s1) :: rest1)
                     /\ @get_top_k R float_R numpy (to_text repeated_example)
                                   vectorizer matrix
                                   [slack_example; repeated_example] k
                        = Returns ((repeated_example, s2) :: rest2)))).
Proof.
  split.
  { split; [reflexivity|].
    split; [intros H; vm_compute in H; discriminate H|].
    set (examples := [untitled_example; default_example]).
    set (texts := map to_text examples).
    set (f := Tfidf.fit Tfidf.default_analyzer texts).
    exists {| transform := Tfidf.tfidf_transform Tfidf.default_analyzer f |},
           (Tfidf.tfidf_transform Tfidf.default_analyzer f texts), texts.
    assert (Hscores :
              similarity_scores (to_text untitled_example)
                {| transform := Tfidf.tfidf_transform Tfidf.default_analyzer f |}
                (Tfidf.tfidf_transform Tfidf.default_analyzer f texts)
              = [0%R; 0%R]).
    { rewrite similarity_scores_tfidf. subst texts examples. cbn [map].
      rewrite !row_dot_zero_r; [reflexivity| |];
        apply encode_without_tokens; vm_compute; reflexivity. }
    split; [|split; [|split]].
    - apply (build_index_returns Tfidf.default_analyzer examples default_example).
      + right. now left.
      + intros H. vm_compute in H. discriminate H.
    - exact Hscores.
    - rewrite Hscores. cbn [nth]. Lra.lra.
    - rewrite (get_top_k_returns _ _ _ examples
                 (tfidf_index Tfidf.default_analyzer f examples) 1 ltac:(lia)).
      fold texts. rewrite Hscores.
      unfold top_indices.
      change (Z.to_nat (Z.min 1 (Z.of_nat (List.length examples)))) with 1.
      unfold argsort, numpy_stable, insertion_argsort.
      cbn [List.length seq fold_right insert_index nth fzero fleb float_R].
      rewrite Rleb_refl.
      cbn [rev app firstn map nth examples].
      do 3 f_equal. apply (Rround4_integer 0). }
  split; [intros H; vm_compute in H; discriminate H|].
  split.
  { intros H. specialize (H "slack"). vm_compute in H. discriminate H. }
  set (examples := [slack_example; repeated_example]).
  set (texts := map to_text examples).
  set (f := Tfidf.fit Tfidf.default_analyzer texts).
  exists {| transform := Tfidf.tfidf_transform Tfidf.default_analyzer f |},
         (Tfidf.tfidf_transform Tfidf.default_analyzer f texts), texts.
  assert (D1 : Tfidf.default_analyzer (to_text repeated_example)
               = ["slack"; "alert"; "slack"; "alert"])
    by (vm_compute; reflexivity).
  assert (D2 : Tfidf.default_analyzer (to_text slack_example)
               = ["slack"; "alert"])
    by (vm_compute; reflexivity).
  assert (Hcounts : forall t,
             Tfidf.count_token t (Tfidf.default_analyzer (to_text repeated_example))
             = 2 * Tfidf.count_token t
                     (Tfidf.default_analyzer (to_text slack_example))).
  { intros t. rewrite D1, D2. cbn [Tfidf.count_token].
    destruct (String.eqb t "slack"), (String.eqb t "alert"); reflexivity. }
  assert (E : Tfidf.tfidf_transform Tfidf.default_analyzer f
                [to_text repeated_example]
              = Tfidf.tfidf_transform Tfidf.default_analyzer f
                  [to_text slack_example]).
  { unfold Tfidf.tfidf_transform. cbn [map].
    rewrite (encode_doubled Tfidf.default_analyzer f
               (to_text slack_example) (to_text repeated_example) Hcounts).
    reflexivity. }
  assert (Hsame : forall (numpy : NumPy R) (k : Z),
             @get_top_k R float_R numpy (to_text slack_example)
               {| transform := Tfidf.tfidf_transform Tfidf.default_analyzer f |}
               (Tfidf.tfidf_transform Tfidf.default_analyzer f texts) examples k
             = @get_top_k R float_R numpy (to_text repeated_example)
                 {| transform := Tfidf.tfidf_transform Tfidf.default_analyzer f |}
                 (Tfidf.tfidf_transform Tfidf.default_analyzer f texts) examples k).
  { intros numpy k. unfold get_top_k. cbn [transform].
    rewrite E. reflexivity. }
  split; [|split].
  - apply (build_index_returns Tfidf.default_analyzer examples slack_example).
    + now left.
    + intros H. vm_compute in H. discriminate H.
  - exact Hsame.
  - intros numpy k s1 s2 rest1 rest2 [H1 H2].
    rewrite Hsame, H2 in H1. discriminate H1.
Qed.

(* ================================================================= *)
(** * Further properties of [retriever.py] *)

(** ** What any returned ranking satisfies *)

Lemma mapM_returns_inv {A B : Type} (f : A -> result B) (l : list A) (bs : list B) :
  mapM f l = Returns bs -> Forall2 (fun a b => f a = Returns b) l bs.
Proof.
  revert bs. induction l as [|a l IH]; simpl; intros bs H.
  - inversion H. constructor.
  - destruct (f a) as [b|e] eqn:Ea; simpl in H; [|discriminate H].
    destruct (mapM f l) as [bs'|e] eqn:El; simpl in H; [|discriminate H].
    inversion H; subst. constructor; [exact Ea|now apply IH].
Qed.

Lemma getitem_In {A : Type} (l : list A) (idx : nat) (a : A) :
  getitem l idx = Returns a -> In a l.
Proof.
  unfold getitem. destruct (nth_error l idx) as [x|] eqn:E; [|discriminate].
  intros H. inversion H; subst. now apply (nth_error_In l idx).
Qed.

(** X1: for every vectorizer, matrix and [argsort] whatsoever, a ranking
    that [get_top_k] returns was asked with [k >= 1], has at most
    [min(k, n)] entries, and pairs documents of [examples] with rounded
    entries of the score array; no other document can appear. *)
Theorem get_top_k_results_from_corpus :
  forall (F : Type) (float : Float F) (numpy : NumPy F)
         (query : string) (vectorizer : TfidfVectorizer F)
         (matrix : csr_matrix F) (examples : list dict) (k : Z)
         (results : list (dict * F)),
    get_top_k query vectorizer matrix examples k = Returns results ->
    (1 <= k)%Z
    /\ (Z.of_nat (List.length results)
        <= Z.min k (Z.of_nat (List.length examples)))%Z
    /\ Forall (fun r => In (fst r) examples) results.
Proof.
  intros F float numpy query vectorizer matrix examples k results H.
  unfold get_top_k in H.
  destruct (Z.ltb_spec k 1) as [Hlt|Hge]; [discriminate H|].
  split; [exact Hge|].
  destruct (dot_T matrix (transform vectorizer [query])) as [product|e];
    cbn [bind] in H; [|discriminate H].
  apply mapM_returns_inv in H.
  split.
  - rewrite <- (Forall2_length H). unfold top_indices.
    rewrite length_firstn.
    destruct (Z.gtb_spec k (Z.of_nat (List.length examples))); lia.
  - clear Hge. induction H as [|idx r l rs Hr _ IH]; constructor; [|exact IH].
    destruct (getitem examples idx) as [example|e] eqn:Ee;
      cbn [bind] in Hr; [|discriminate Hr].
    destruct (getitem (flatten product) idx) as [score|e];
      cbn [bind] in Hr; [|discriminate Hr].
    inversion Hr; subst. simpl. now apply (getitem_In examples idx).
Qed.

(** X1, run on the small index. *)
Lemma get_top_k_results_from_corpus_witness :
  Forall (fun r : dict * Q => In (fst r) mock_examples)
         [([("id", JStr "ex-004")], Qmake 10000 10000);
          ([("id", JStr "ex-003")], Qmake 6667 10000);
          ([("id", JStr "ex-001")], Qmake 6667 10000)].
Proof.
  apply (get_top_k_results_from_corpus Q float_Q numpy_stable mock_query
           mock_vectorizer mock_matrix mock_examples 3).
  vm_compute. reflexivity.
Defined.

(** ** The selection is the best [k] *)

Lemma StronglySorted_app_inv {A : Type} (R : A -> A -> Prop) (l1 l2 : list A) :
  StronglySorted R (l1 ++ l2) ->
  forall x y, In x l1 -> In y l2 -> R x y.
Proof.
  induction l1 as [|a l1 IH]; simpl; intros H x y Hx Hy; [contradiction|].
  apply StronglySorted_inv in H. destruct H as [H Ha].
  destruct Hx as [<-|Hx]; [|now apply IH].
  rewrite Forall_forall in Ha. apply Ha. apply in_or_app. now right.
Qed.

(** X2: on a well-formed index and with [k >= 1], the documents
    [get_top_k] returns are the best ones: no document left out has a raw
    similarity above that of a document taken. *)
Theorem get_top_k_selects_best :
  forall (F : Type) (float : Float F) (numpy : NumPy F) (nlaws : NumPyLaws F)
         (query : string) (vectorizer : TfidfVectorizer F)
         (matrix : csr_matrix F) (examples : list dict) (k : Z),
    (1 <= k)%Z ->
    index_of_corpus vectorizer matrix examples ->
    let scores := similarity_scores query vectorizer matrix in
    let selected := top_indices scores (Z.min k (Z.of_nat (List.length examples))) in
    get_top_k query vectorizer matrix examples k
    = Returns (map (fun idx => (nth idx examples [], round4 (nth idx scores fzero)))
                   selected)
    /\ forall taken left_out,
         In taken selected ->
         left_out < List.length examples ->
         ~ In left_out selected ->
         fleb (nth left_out scores fzero) (nth taken scores fzero) = true.
Proof.
  intros F float numpy nlaws query vectorizer matrix examples k Hk Hindex
         scores selected.
  split; [now apply get_top_k_returns|].
  intros taken left_out Htaken Hrange Hout.
  pose proof (StronglySorted_reverse _ _ (argsort_ascending scores)) as Hdesc.
  set (m := Z.to_nat (Z.min k (Z.of_nat (List.length examples)))) in *.
  rewrite <- (firstn_skipn m (rev (argsort scores))) in Hdesc.
  apply (StronglySorted_app_inv _ _ _ Hdesc taken left_out); [exact Htaken|].
  assert (In left_out (rev (argsort scores))) as Hin.
  { rewrite <- in_rev.
    apply (Permutation_in _ (Permutation_sym (argsort_permutation scores))).
    apply in_seq. subst scores.
    rewrite (similarity_scores_length query vectorizer matrix examples Hindex).
    lia. }
  rewrite <- (firstn_skipn m (rev (argsort scores))) in Hin.
  apply in_app_or in Hin. destruct Hin as [Hin|Hin]; [|exact Hin].
  now elim Hout.
Qed.

(** X2, run on the small index with [k = 3]: example 2 (index 1), the
    one left out, scores no more than example 1 (index 0). *)
Lemma get_top_k_selects_best_witness :
  Qle_bool
    (nth 1 (similarity_scores mock_query mock_vectorizer mock_matrix) 0%Q)
    (nth 0 (similarity_scores mock_query mock_vectorizer mock_matrix) 0%Q)
  = true.
Proof.
  apply (proj2 (get_top_k_selects_best Q float_Q numpy_stable numpy_stable_laws
                  mock_query mock_vectorizer mock_matrix mock_examples 3
                  ltac:(lia) mock_index) 0 1).
  - vm_compute. tauto.
  - simpl. lia.
  - vm_compute. intros [H|[H|[H|[]]]]; discriminate H.
Defined.

(** X3: on a well-formed index, asking for fewer results gives a prefix
    of what asking for more gives: with [1 <= k <= k'], the result for
    [k] is the first [k] entries of the result for [k']. *)
Theorem get_top_k_prefix :
  forall (F : Type) (float : Float F) (numpy : NumPy F) (nlaws : NumPyLaws F)
         (query : string) (vectorizer : TfidfVectorizer F)
         (matrix : csr_matrix F) (examples : list dict) (k k' : Z),
    (1 <= k <= k')%Z ->
    index_of_corpus vectorizer matrix examples ->
    exists results',
      get_top_k query vectorizer matrix examples k' = Returns results'
      /\ get_top_k query vectorizer matrix examples k
         = Returns (firstn (Z.to_nat k) results').
Proof.
  intros F float numpy nlaws query vectorizer matrix examples k k' Hk Hindex.
  eexists. split; [apply get_top_k_returns; [exact Hindex|lia]|].
  rewrite get_top_k_returns by (try exact Hindex; lia).
  f_equal. rewrite firstn_map. f_equal.
  unfold top_indices. rewrite firstn_firstn. f_equal. lia.
Qed.

(** X3, run on the small index with [k = 1] and [k' = 3]. *)
Lemma get_top_k_prefix_witness :
  @get_top_k Q float_Q numpy_stable mock_query mock_vectorizer mock_matrix
             mock_examples 1
  = Returns [([("id", JStr "ex-004")], Qmake 10000 10000)].
Proof.
  destruct (get_top_k_prefix Q float_Q numpy_stable numpy_stable_laws
              mock_query mock_vectorizer mock_matrix mock_examples 1 3
              ltac:(lia) mock_index) as [results' [H3 H1]].
  rewrite H1.
  assert (results' = [([("id", JStr "ex-004")], Qmake 10000 10000);
                      ([("id", JStr "ex-003")], Qmake 6667 10000);
                      ([("id", JStr "ex-001")], Qmake 6667 10000)]) as ->.
  { assert (Returns results'
            = Returns [([("id", JStr "ex-004")], Qmake 10000 10000);
                       ([("id", JStr "ex-003")], Qmake 6667 10000);
                       ([("id", JStr "ex-001")], Qmake 6667 10000)]) as E
        by (rewrite <- H3; vm_compute; reflexivity).
    now inversion E. }
  reflexivity.
Defined.

(* ================================================================= *)
(** * Further properties of the TF-IDF index *)

Lemma l2_normalize_nonneg (row : list R) :
  Forall (fun x => (0 <= x)%R) row ->
  Forall (fun x => (0 <= x)%R) (Tfidf.l2_normalize row).
Proof.
  intros H. unfold Tfidf.l2_normalize.
  set (norm := if Req_dec_T (sqrt (Tfidf.sum_squares row)) 0
               then 1%R else sqrt (Tfidf.sum_squares row)).
  assert (0 < norm)%R as Hnorm.
  { subst norm. destruct (Req_dec_T _ 0) as [_|N]; [Lra.lra|].
    pose proof (sqrt_pos (Tfidf.sum_squares row)). Lra.lra. }
  apply Forall_forall. intros y Hy.
  apply in_map_iff in Hy. destruct Hy as [x [<- Hx]].
  rewrite Forall_forall in H. specialize (H x Hx).
  apply Rmult_le_pos; [exact H|].
  apply Rlt_le. now apply Rinv_0_lt_compat.
Qed.

Lemma row_dot_nonneg (u v : list R) :
  Forall (fun x => (0 <= x)%R) u -> Forall (fun x => (0 <= x)%R) v ->
  (0 <= row_dot u v)%R.
Proof.
  intros Hu. revert v.
  induction Hu as [|x u Hx Hu IH]; intros v Hv; simpl; [Lra.lra|].
  destruct Hv as [|y v Hy Hv]; [Lra.lra|].
  specialize (IH v Hv). pose proof (Rmult_le_pos x y Hx Hy). Lra.lra.
Qed.

Lemma Rround4_unit_interval (x : R) :
  (0 <= x <= 1)%R -> (0 <= Rround4 x <= 1)%R.
Proof.
  intros [H0 H1].
  pose proof (@round4_monotone R float_R float_R_laws 0%R x) as L0.
  pose proof (@round4_monotone R float_R float_R_laws x 1%R) as L1.
  cbn [round4 fleb float_R] in L0, L1.
  rewrite !Rleb_true in L0, L1.
  rewrite (Rround4_integer 0) in L0. rewrite (Rround4_integer 1) in L1.
  split; [now apply L0|now apply L1].
Qed.

Lemma count_token_absent (t : string) (doc : list string) :
  ~ In t doc -> Tfidf.count_token t doc = 0.
Proof.
  induction doc as [|u doc IH]; simpl; intros H; [reflexivity|].
  destruct (String.eqb_spec t u) as [->|_]; [elim H; now left|].
  rewrite IH; [reflexivity|]. intros Hin. apply H. now right.
Qed.

Lemma vocabulary_of_empty_docs (docs : list (list string)) :
  (forall doc, In doc docs -> doc = []) -> Tfidf.vocabulary docs = [].
Proof.
  intros H. unfold Tfidf.vocabulary.
  assert (List.concat docs = []) as ->; [|reflexivity].
  induction docs as [|doc docs IH]; simpl; [reflexivity|].
  rewrite (H doc (or_introl eq_refl)). apply IH.
  intros doc' Hd. apply H. now right.
Qed.

Section BuiltIndex.
Variable analyzer : string -> list string.

Let sklearn : Sklearn R := Tfidf.sklearn_tfidf analyzer.

(** What a returned index consists of. *)
Lemma build_index_returns_inv (examples : list dict)
    (vectorizer : TfidfVectorizer R) (matrix : csr_matrix R) (texts : list string) :
  @build_index R sklearn examples = Returns (vectorizer, matrix, texts) ->
  texts = map to_text examples
  /\ vectorizer
     = {| transform := Tfidf.tfidf_transform analyzer (Tfidf.fit analyzer texts) |}
  /\ matrix = Tfidf.tfidf_transform analyzer (Tfidf.fit analyzer texts) texts.
Proof.
  intros H. destruct examples as [|e examples]; [discriminate H|].
  unfold build_index in H.
  unfold fit_transform, sklearn, Tfidf.sklearn_tfidf, Tfidf.tfidf_fit_transform in H.
  destruct (Tfidf.feature_names (Tfidf.fit analyzer (map to_text (e :: examples))));
    cbn [bind] in H; [discriminate H|].
  inversion H; subst. repeat split.
Qed.

(** The weights of a fitted index are not negative. *)
Lemma encode_nonneg (texts : list string) (text : string) :
  Forall (fun x => (0 <= x)%R)
         (Tfidf.encode analyzer (Tfidf.fit analyzer texts) text).
Proof.
  unfold Tfidf.encode. apply l2_normalize_nonneg.
  unfold Tfidf.fit. cbn [Tfidf.feature_names Tfidf.idf_].
  rewrite combine_map_self, map_map. cbn [fst snd].
  apply Forall_forall. intros w Hw.
  apply in_map_iff in Hw. destruct Hw as [t [<- _]].
  apply Rmult_le_pos; [apply pos_INR|].
  pose proof (idf_at_least_one (List.length (map analyzer texts))
                (Tfidf.document_frequency t (map analyzer texts))
                (filter_length_le _ _)).
  Lra.lra.
Qed.

(** A text none of whose tokens is in the vocabulary is encoded as the
    zero row. *)
Lemma encode_out_of_vocabulary (texts : list string) (text : string) :
  (forall t, In t (analyzer text) ->
             forall text', In text' texts -> ~ In t (analyzer text')) ->
  Forall (fun x => x = 0%R)
         (Tfidf.encode analyzer (Tfidf.fit analyzer texts) text).
Proof.
  intros Hoov. unfold Tfidf.encode, Tfidf.l2_normalize, Tfidf.fit.
  cbn [Tfidf.feature_names Tfidf.idf_].
  rewrite combine_map_self, !map_map. cbn [fst snd].
  apply Forall_forall. intros x Hx.
  apply in_map_iff in Hx. destruct Hx as [t [<- Ht]].
  apply in_vocabulary in Ht. apply in_concat in Ht.
  destruct Ht as [doc [Hdoc Ht]].
  apply in_map_iff in Hdoc. destruct Hdoc as [text' [<- Htext']].
  rewrite count_token_absent.
  - simpl. unfold Rdiv. now rewrite !Rmult_0_l.
  - intros Hin. exact (Hoov t Hin text' Htext' Ht).
Qed.

End BuiltIndex.

(** X4: with scikit-learn's TF-IDF, [build_index] on a non-empty corpus
    returns exactly when some example has a token: then the texts are
    [to_text] of the examples in order and the index is well formed; when
    no example has a token, the [ValueError] of the vectorizer (empty
    vocabulary) comes out of [build_index] uncaught. *)
Theorem build_index_needs_a_token :
  forall (analyzer : string -> list string) (examples : list dict),
    examples <> [] ->
    ((exists d, In d examples /\ analyzer (to_text d) <> []) ->
     exists vectorizer matrix,
       @build_index R (Tfidf.sklearn_tfidf analyzer) examples
       = Returns (vectorizer, matrix, map to_text examples)
       /\ index_of_corpus vectorizer matrix examples)
    /\ ((forall d, In d examples -> analyzer (to_text d) = []) ->
        @build_index R (Tfidf.sklearn_tfidf analyzer) examples
        = Raises (ValueError
                    "empty vocabulary; perhaps the documents only contain stop words")).
Proof.
  intros analyzer examples Hne. split.
  - intros [d [Hin Htok]]. eexists _, _. split.
    + exact (build_index_returns analyzer examples d Hin Htok).
    + apply tfidf_index.
  - intros Hnone. destruct examples as [|e examples]; [now elim Hne|].
    unfold build_index, fit_transform, Tfidf.sklearn_tfidf,
      Tfidf.tfidf_fit_transform, Tfidf.fit.
    cbn [Tfidf.feature_names].
    rewrite vocabulary_of_empty_docs; [reflexivity|].
    intros doc Hdoc. apply in_map_iff in Hdoc. destruct Hdoc as [text [<- Htext]].
    apply in_map_iff in Htext. destruct Htext as [d [<- Hd]].
    now apply Hnone.
Qed.

(** X4, run on a corpus whose only example has nothing but an
    identifier. *)
Lemma build_index_needs_a_token_witness :
  @build_index R (Tfidf.sklearn_tfidf Tfidf.default_analyzer) [untitled_example]
  = Raises (ValueError
              "empty vocabulary; perhaps the documents only contain stop words").
Proof.
  apply (proj2 (build_index_needs_a_token Tfidf.default_analyzer [untitled_example]
                  ltac:(discriminate))).
  intros d [<-|[]]. vm_compute. reflexivity.
Defined.

(** X5: ranking against an index that [build_index] returned never
    fails for [k >= 1], whatever the query: it returns [min(k, n)]
    results, and every score lies between 0 and 1. *)
Theorem get_top_k_on_built_index :
  forall (analyzer : string -> list string)
         (numpy : NumPy R) (nlaws : NumPyLaws R)
         (examples : list dict) (vectorizer : TfidfVectorizer R)
         (matrix : csr_matrix R) (texts : list string)
         (query : string) (k : Z),
    @build_index R (Tfidf.sklearn_tfidf analyzer) examples
    = Returns (vectorizer, matrix, texts) ->
    (1 <= k)%Z ->
    exists results,
      get_top_k query vectorizer matrix examples k = Returns results
      /\ Z.of_nat (List.length results) = Z.min k (Z.of_nat (List.length examples))
      /\ Forall (fun r => (0 <= snd r <= 1)%R) results.
Proof.
  intros analyzer numpy nlaws examples vectorizer matrix texts query k Hbuild Hk.
  apply build_index_returns_inv in Hbuild.
  destruct Hbuild as [-> [-> ->]].
  set (texts := map to_text examples).
  set (f := Tfidf.fit analyzer texts).
  pose proof (tfidf_index analyzer f examples) as Hindex. fold texts in Hindex.
  eexists. split; [apply get_top_k_returns; [exact Hindex|exact Hk]|].
  split.
  - rewrite length_map.
    rewrite (top_indices_length _ _ _ examples Hindex) by lia. lia.
  - apply Forall_forall. intros r Hr.
    apply in_map_iff in Hr. destruct Hr as [idx [<- Hidx]].
    cbn [snd]. apply Rround4_unit_interval.
    rewrite similarity_scores_tfidf.
    apply (top_indices_in_range _ _ _ examples Hindex) in Hidx.
    assert (idx < List.length texts) as Hlt
        by (subst texts; now rewrite length_map).
    change (@fzero R float_R) with 0%R.
    rewrite (nth_indep _ 0%R
               (row_dot (Tfidf.encode analyzer f EmptyString)
                        (Tfidf.encode analyzer f query)))
      by (now rewrite length_map).
    rewrite (map_nth (fun text => row_dot (Tfidf.encode analyzer f text)
                                          (Tfidf.encode analyzer f query))).
    split.
    + apply row_dot_nonneg; apply encode_nonneg.
    + unfold Tfidf.encode. apply row_dot_normalized_le.
Qed.

(** X5, run on the default corpus of [app.py] with the query of
    [retriever.py] and the [k = 3] of the web route. *)
Lemma get_top_k_on_built_index_witness :
  exists results,
    @get_top_k R float_R numpy_stable "notify if duration > 2 hours"
      {| transform := Tfidf.tfidf_transform Tfidf.default_analyzer
                        (Tfidf.fit Tfidf.default_analyzer
                                   (map to_text [default_example])) |}
      (Tfidf.tfidf_transform Tfidf.default_analyzer
         (Tfidf.fit Tfidf.default_analyzer (map to_text [default_example]))
         (map to_text [default_example]))
      [default_example] 3
    = Returns results
    /\ List.length results = 1.
Proof.
  destruct (get_top_k_on_built_index Tfidf.default_analyzer numpy_stable
              numpy_stable_laws [default_example] _ _ _
              "notify if duration > 2 hours" 3
              (build_index_returns Tfidf.default_analyzer [default_example]
                 default_example (or_introl eq_refl)
                 ltac:(intros H; vm_compute in H; discriminate H))
              ltac:(lia))
    as [results [H1 [H2 _]]].
  exists results. split; [exact H1|].
  simpl in H2. lia.
Defined.

(** X6: a query none of whose tokens occurs in the corpus is not an
    error: on a built index and with [k >= 1] the ranking returns, and
    every document has similarity 0, so every returned score is 0.0. *)
Theorem get_top_k_unknown_query :
  forall (analyzer : string -> list string)
         (numpy : NumPy R) (nlaws : NumPyLaws R)
         (examples : list dict) (vectorizer : TfidfVectorizer R)
         (matrix : csr_matrix R) (texts : list string)
         (query : string) (k : Z),
    @build_index R (Tfidf.sklearn_tfidf analyzer) examples
    = Returns (vectorizer, matrix, texts) ->
    (forall t, In t (analyzer query) ->
               forall d, In d examples -> ~ In t (analyzer (to_text d))) ->
    (1 <= k)%Z ->
    Forall (fun s => s = 0%R) (similarity_scores query vectorizer matrix)
    /\ exists results,
         get_top_k query vectorizer matrix examples k = Returns results
         /\ Forall (fun r => snd r = 0%R) results.
Proof.
  intros analyzer numpy nlaws examples vectorizer matrix texts query k
         Hbuild Hoov Hk.
  apply build_index_returns_inv in Hbuild.
  destruct Hbuild as [-> [-> ->]].
  set (texts := map to_text examples).
  set (f := Tfidf.fit analyzer texts).
  pose proof (tfidf_index analyzer f examples) as Hindex. fold texts in Hindex.
  assert (Hzero : Forall (fun s => s = 0%R)
                    (similarity_scores query
                       {| transform := Tfidf.tfidf_transform analyzer f |}
                       (Tfidf.tfidf_transform analyzer f texts))).
  { rewrite similarity_scores_tfidf. apply Forall_forall. intros s Hs.
    apply in_map_iff in Hs. destruct Hs as [text [<- _]].
    apply row_dot_zero_r. apply encode_out_of_vocabulary.
    intros t Ht text' Htext'. subst texts.
    apply in_map_iff in Htext'. destruct Htext' as [d [<- Hd]].
    now apply Hoov. }
  split; [exact Hzero|].
  eexists. split; [apply get_top_k_returns; [exact Hindex|exact Hk]|].
  apply Forall_forall. intros r Hr.
  apply in_map_iff in Hr. destruct Hr as [idx [<- Hidx]].
  cbn [snd].
  apply (top_indices_in_range _ _ _ examples Hindex) in Hidx.
  rewrite <- (similarity_scores_length query _ _ examples Hindex) in Hidx.
  rewrite Forall_forall in Hzero.
  change (@fzero R float_R) with 0%R.
  rewrite (Hzero _ (nth_In _ 0%R Hidx)).
  apply (Rround4_integer 0).
Qed.

(** X6, run on the default corpus of [app.py] with a query of digits
    that occur nowhere in it. *)
Lemma get_top_k_unknown_query_witness :
  Forall (fun s => s = 0%R)
    (similarity_scores "4711 0815"
       {| transform := Tfidf.tfidf_transform Tfidf.default_analyzer
                         (Tfidf.fit Tfidf.default_analyzer
                                    (map to_text [default_example])) |}
       (Tfidf.tfidf_transform Tfidf.default_analyzer
          (Tfidf.fit Tfidf.default_analyzer (map to_text [default_example]))
          (map to_text [default_example]))).
Proof.
  apply (get_top_k_unknown_query Tfidf.default_analyzer numpy_stable
           numpy_stable_laws [default_example] _ _ _ "4711 0815" 1
           (build_index_returns Tfidf.default_analyzer [default_example]
              default_example (or_introl eq_refl)
              ltac:(intros H; vm_compute in H; discriminate H))).
  - intros t Ht d [<-|[]] Hin.
    vm_compute in Ht. vm_compute in Hin.
    destruct Ht as [<-|[<-|[]]];
      repeat (destruct Hin as [Hin|Hin]; [discriminate Hin|]); exact Hin.
  - lia.
Defined.

Lemma to_text_same_fields (e1 e2 : dict) :
  same_text_fields e1 e2 -> to_text e1 = to_text e2.
Proof.
  intros [Ht [Hd Hc]]. unfold to_text.
  rewrite !dict_get_lookup, Ht, Hd, Hc. reflexivity.
Qed.

(** X7: only the title, the description and the config of an example
    reach the index. Two examples of the corpus that agree on these three
    keys have the same similarity to every query, whatever their
    identifiers and other keys are. *)
Theorem same_text_fields_same_similarity :
  forall (analyzer : string -> list string)
         (examples : list dict) (vectorizer : TfidfVectorizer R)
         (matrix : csr_matrix R) (texts : list string)
         (i j : nat) (d1 d2 : dict) (query : string),
    @build_index R (Tfidf.sklearn_tfidf analyzer) examples
    = Returns (vectorizer, matrix, texts) ->
    nth_error examples i = Some d1 ->
    nth_error examples j = Some d2 ->
    same_text_fields d1 d2 ->
    nth i (similarity_scores query vectorizer matrix) 0%R
    = nth j (similarity_scores query vectorizer matrix) 0%R.
Proof.
  intros analyzer examples vectorizer matrix texts i j d1 d2 query
         Hbuild H1 H2 Hsame.
  apply build_index_returns_inv in Hbuild.
  destruct Hbuild as [-> [-> ->]].
  rewrite similarity_scores_tfidf.
  set (g := fun text =>
              row_dot (Tfidf.encode analyzer
                         (Tfidf.fit analyzer (map to_text examples)) text)
                      (Tfidf.encode analyzer
                         (Tfidf.fit analyzer (map to_text examples)) query)).
  rewrite (nth_error_nth (map g (map to_text examples)) i 0%R (x := g (to_text d1)))
    by (rewrite !nth_error_map, H1; reflexivity).
  rewrite (nth_error_nth (map g (map to_text examples)) j 0%R (x := g (to_text d2)))
    by (rewrite !nth_error_map, H2; reflexivity).
  now rewrite (to_text_same_fields d1 d2 Hsame).
Qed.

(** X7, run on the default example of [app.py] and a copy of it under
    another identifier. *)
Lemma same_text_fields_same_similarity_witness :
  let copy := ("id", JStr "ex-900") :: tl default_example in
  let texts := map to_text [default_example; copy] in
  let f := Tfidf.fit Tfidf.default_analyzer texts in
  nth 0 (similarity_scores "email"
           {| transform := Tfidf.tfidf_transform Tfidf.default_analyzer f |}
           (Tfidf.tfidf_transform Tfidf.default_analyzer f texts)) 0%R
  = nth 1 (similarity_scores "email"
             {| transform := Tfidf.tfidf_transform Tfidf.default_analyzer f |}
             (Tfidf.tfidf_transform Tfidf.default_analyzer f texts)) 0%R.
Proof.
  intros copy texts f.
  apply (same_text_fields_same_similarity Tfidf.default_analyzer
           [default_example; copy] _ _ texts 0 1 default_example copy "email").
  - apply (build_index_returns Tfidf.default_analyzer [default_example; copy]
             default_example (or_introl eq_refl)).
    intros H. vm_compute in H. discriminate H.
  - reflexivity.
  - reflexivity.
  - repeat split.
Defined.

(* ================================================================= *)
(** * The round trip through the index in floating point *)

(** ** Values equal up to a number of roundings *)

Section Roundings.
Variables (rnd log : R -> R) (u tiny huge : R).
Hypothesis laws : rounding_laws rnd log u tiny huge.

(** The exact values of the computation are zero or lie between
    [1 / bound ^ 2] and [bound], which leaves a factor 2 to the ends of
    the normal range; [most] roundings move a value by less than that
    factor. *)
Variable bound : R.
Hypothesis bound_at_least_one : (1 <= bound)%R.
Hypothesis tiny_positive : (0 < tiny)%R.
Hypothesis no_overflow : (2 * bound <= huge)%R.
Hypothesis no_underflow : (2 * tiny * (bound * bound) <= 1)%R.

Let rho : R := ((1 + u) / (1 - u))%R.

Variable most : nat.
Hypothesis factor_two : (rho ^ most <= 2)%R.

(** [a] and [b] are within the factor [rho ^ k] of each other. *)
Let near (k : nat) (a b : R) : Prop :=
  (b <= a * rho ^ k)%R /\ (a <= b * rho ^ k)%R.

(** The exact value [b] is zero or in the middle of the normal range. *)
Let safe (b : R) : Prop :=
  b = 0%R \/ (/ (bound * bound) <= b <= bound)%R.

Lemma roundoff_bounds : (0 <= u)%R /\ (0 < 1 - u)%R.
Proof. destruct (roundoff_range _ _ _ _ _ laws). split; Lra.lra. Qed.

Lemma rho_at_least_one : (1 <= rho)%R.
Proof.
  destruct roundoff_bounds as [H0 H1]. unfold rho.
  apply (Rmult_le_reg_r (1 - u)); [exact H1|].
  unfold Rdiv. rewrite Rmult_assoc, Rinv_l by Lra.lra. Lra.lra.
Qed.

Lemma rho_pow_at_least_one (k : nat) : (1 <= rho ^ k)%R.
Proof. apply pow_R1_Rle. apply rho_at_least_one. Qed.

Lemma rho_pow_monotone (j k : nat) : j <= k -> (rho ^ j <= rho ^ k)%R.
Proof. intros H. apply Rle_pow; [apply rho_at_least_one | exact H]. Qed.

Lemma rho_pow_at_most_two (k : nat) : k <= most -> (rho ^ k <= 2)%R.
Proof.
  intros H. apply (Rle_trans _ (rho ^ most)); [|exact factor_two].
  now apply rho_pow_monotone.
Qed.

Lemma bound_square_positive : (0 < bound * bound)%R.
Proof. apply Rmult_lt_0_compat; Lra.lra. Qed.

Lemma inverse_bound_square : (2 * tiny <= / (bound * bound) <= 1)%R.
Proof.
  pose proof bound_square_positive as P.
  assert (1 <= bound * bound)%R as Q.
  { replace 1%R with (1 * 1)%R by ring. apply Rmult_le_compat; Lra.lra. }
  split.
  - apply (Rmult_le_reg_r (bound * bound)); [exact P|].
    rewrite Rinv_l by Lra.lra. exact no_underflow.
  - rewrite <- Rinv_1. apply Rinv_le_contravar; Lra.lra.
Qed.

Lemma rnd_zero : rnd 0%R = 0%R.
Proof.
  pose proof (rnd_relative _ _ _ _ _ laws 0%R (or_introl eq_refl)) as H.
  rewrite Rabs_R0, Rmult_0_r, Rminus_0_r in H.
  pose proof (Rabs_pos (rnd 0%R)) as P.
  destruct (Req_dec (rnd 0%R) 0%R) as [E|N]; [exact E|].
  apply Rabs_pos_lt in N. Lra.lra.
Qed.

Lemma rnd_nonneg (x : R) : (0 <= x)%R -> (0 <= rnd x)%R.
Proof.
  intros H. rewrite <- rnd_zero. now apply (rnd_monotone _ _ _ _ _ laws).
Qed.

Lemma rnd_at_least_one (x : R) : (1 <= x)%R -> (1 <= rnd x)%R.
Proof.
  intros H. rewrite <- (rnd_one _ _ _ _ _ laws) at 1.
  now apply (rnd_monotone _ _ _ _ _ laws).
Qed.

(** Rounding a number that is zero or in the normal range. *)
Lemma rnd_between (x : R) :
  x = 0%R \/ (tiny <= x <= huge)%R ->
  ((1 - u) * x <= rnd x <= (1 + u) * x)%R.
Proof.
  intros [->|[L U]].
  - rewrite rnd_zero. Lra.lra.
  - assert (0 <= x)%R as H by Lra.lra.
    assert (x = 0%R \/ (tiny <= Rabs x <= huge)%R) as Hx
      by (right; rewrite Rabs_right by Lra.lra; split; assumption).
    pose proof (rnd_relative _ _ _ _ _ laws x Hx) as E.
    rewrite (Rabs_right x) in E by Lra.lra.
    unfold Rabs in E. destruct (Rcase_abs (rnd x - x)); Lra.lra.
Qed.

Lemma rnd_at_most_twice (x : R) :
  (1 <= x <= bound)%R -> (rnd x <= 2 * x)%R.
Proof.
  intros [L U]. destruct roundoff_bounds as [H0 H1].
  pose proof inverse_bound_square as [T _].
  pose proof bound_square_positive as P.
  assert (x = 0%R \/ (tiny <= x <= huge)%R) as Hx.
  { right. pose proof (Rinv_0_lt_compat _ P).
    destruct inverse_bound_square as [_ I]. Lra.lra. }
  destruct (rnd_between x Hx) as [_ B].
  assert (u * x <= 1 * x)%R by (apply Rmult_le_compat_r; Lra.lra).
  Lra.lra.
Qed.

Lemma near_refl (a : R) : (0 <= a)%R -> near 0 a a.
Proof. intros H. unfold near. simpl. Lra.lra. Qed.

Lemma near_zero (k : nat) : near k 0%R 0%R.
Proof. unfold near. rewrite !Rmult_0_l. Lra.lra. Qed.

Lemma near_nonneg (k : nat) (a b : R) : (0 <= b)%R -> near k a b -> (0 <= a)%R.
Proof.
  intros Hb [H _]. pose proof (rho_pow_at_least_one k) as Hk.
  destruct (Rle_lt_dec 0 a) as [Ha|Ha]; [exact Ha|].
  exfalso.
  assert (a * rho ^ k < 0)%R.
  { replace 0%R with (a * 0)%R by Lra.lra.
    apply Rmult_lt_gt_compat_neg_l; Lra.lra. }
  Lra.lra.
Qed.

Lemma near_weaken (j k : nat) (a b : R) :
  j <= k -> (0 <= a)%R -> (0 <= b)%R -> near j a b -> near k a b.
Proof.
  intros Hjk Ha Hb [H1 H2]. pose proof (rho_pow_monotone j k Hjk) as Hp.
  split.
  - apply (Rle_trans _ _ _ H1). now apply Rmult_le_compat_l.
  - apply (Rle_trans _ _ _ H2). now apply Rmult_le_compat_l.
Qed.

Lemma near_trans (j k : nat) (a b c : R) :
  near j a b -> near k b c -> near (j + k) a c.
Proof.
  intros [H1 H2] [H3 H4]. unfold near. rewrite pow_add.
  pose proof (rho_pow_at_least_one j) as Hj.
  pose proof (rho_pow_at_least_one k) as Hk.
  split.
  - apply (Rle_trans _ _ _ H3).
    replace (a * (rho ^ j * rho ^ k))%R with ((a * rho ^ j) * rho ^ k)%R by ring.
    apply Rmult_le_compat_r; Lra.lra.
  - apply (Rle_trans _ _ _ H2).
    replace (c * (rho ^ j * rho ^ k))%R with ((c * rho ^ k) * rho ^ j)%R by ring.
    apply Rmult_le_compat_r; Lra.lra.
Qed.

Lemma near_add (k : nat) (a b a' b' : R) :
  near k a b -> near k a' b' -> near k (a + a') (b + b').
Proof. intros [H1 H2] [H3 H4]. unfold near. split; Lra.lra. Qed.

Lemma near_mul (j k : nat) (a b a' b' : R) :
  (0 <= b)%R -> (0 <= b')%R ->
  near j a b -> near k a' b' -> near (j + k) (a * a') (b * b').
Proof.
  intros Hb Hb' N N'.
  pose proof (near_nonneg _ _ _ Hb N) as Ha.
  pose proof (near_nonneg _ _ _ Hb' N') as Ha'.
  destruct N as [H1 H2], N' as [H3 H4]. unfold near. rewrite pow_add.
  split.
  - replace (a * a' * (rho ^ j * rho ^ k))%R
      with ((a * rho ^ j) * (a' * rho ^ k))%R by ring.
    apply Rmult_le_compat; assumption.
  - replace (b * b' * (rho ^ j * rho ^ k))%R
      with ((b * rho ^ j) * (b' * rho ^ k))%R by ring.
    apply Rmult_le_compat; assumption.
Qed.

(** A computed value near a safe exact value is zero or in the normal
    range. *)
Lemma near_safe_in_range (k : nat) (a b : R) :
  k <= most -> safe b -> near k a b ->
  a = 0%R \/ (tiny <= a <= huge)%R.
Proof.
  intros Hk Hb N.
  pose proof (rho_pow_at_least_one k) as K1.
  pose proof (rho_pow_at_most_two k Hk) as K2.
  destruct inverse_bound_square as [T _].
  destruct Hb as [->|[L U]].
  - left. pose proof (near_nonneg k a 0%R (Rle_refl 0) N) as Ha.
    destruct N as [_ H2]. rewrite Rmult_0_l in H2. Lra.lra.
  - right.
    assert (0 <= b)%R as Hb0.
    { pose proof (Rinv_0_lt_compat _ bound_square_positive). Lra.lra. }
    pose proof (near_nonneg _ _ _ Hb0 N) as Ha.
    destruct N as [H1 H2]. split.
    + assert (a * rho ^ k <= a * 2)%R by (now apply Rmult_le_compat_l).
      Lra.lra.
    + assert (b * rho ^ k <= b * 2)%R by (now apply Rmult_le_compat_l).
      Lra.lra.
Qed.

Lemma near_rnd (k : nat) (a b : R) :
  k <= most -> (0 <= b)%R -> safe b -> near k a b -> near (S k) (rnd a) b.
Proof.
  intros Hk Hb Hs N. pose proof (near_nonneg _ _ _ Hb N) as Ha.
  assert (near 1 (rnd a) a) as N1.
  { destruct (rnd_between a (near_safe_in_range k a b Hk Hs N)) as [L U].
    destruct roundoff_bounds as [H0 H1].
    unfold near. rewrite pow_1.
    assert (rho * (1 - u) = 1 + u)%R as E.
    { unfold rho, Rdiv. rewrite Rmult_assoc, Rinv_l by Lra.lra. Lra.lra. }
    split.
    - apply (Rle_trans _ ((1 + u) * a)%R).
      + pose proof (Rmult_le_pos u a H0 Ha). Lra.lra.
      + rewrite <- E.
        replace (rho * (1 - u) * a)%R with (((1 - u) * a) * rho)%R by ring.
        apply Rmult_le_compat_r; [|exact L].
        pose proof rho_at_least_one. Lra.lra.
    - apply (Rle_trans _ _ _ U).
      rewrite <- E.
      replace (rho * (1 - u) * a)%R with (a * rho * (1 - u))%R by ring.
      pose proof rho_at_least_one as R1.
      assert (0 <= a * rho)%R by (apply Rmult_le_pos; Lra.lra).
      pose proof (Rmult_le_pos _ _ H H0). Lra.lra. }
  change (S k) with (1 + k). exact (near_trans 1 k _ _ _ N1 N).
Qed.

Lemma near_inv (k : nat) (a b : R) :
  (0 < a)%R -> (0 < b)%R -> near k a b -> near k (/ a) (/ b).
Proof.
  intros Ha Hb [H1 H2]. unfold near.
  pose proof (rho_pow_at_least_one k) as Hk.
  split.
  - apply (Rmult_le_reg_r (a * b)); [now apply Rmult_lt_0_compat|].
    replace (/ b * (a * b))%R with a by (field; Lra.lra).
    replace (/ a * rho ^ k * (a * b))%R with (b * rho ^ k)%R by (field; Lra.lra).
    exact H2.
  - apply (Rmult_le_reg_r (a * b)); [now apply Rmult_lt_0_compat|].
    replace (/ a * (a * b))%R with b by (field; Lra.lra).
    replace (/ b * rho ^ k * (a * b))%R with (a * rho ^ k)%R by (field; Lra.lra).
    exact H1.
Qed.

Lemma near_sqrt (k : nat) (a b : R) :
  (0 <= a)%R -> (0 <= b)%R -> near k a b -> near k (sqrt a) (sqrt b).
Proof.
  intros Ha Hb [H1 H2]. unfold near.
  pose proof (rho_pow_at_least_one k) as Hk.
  assert (forall x y, (0 <= x)%R -> (y <= x * rho ^ k)%R ->
                      (sqrt y <= sqrt x * rho ^ k)%R) as step.
  { intros x y Hx H.
    apply (Rle_trans _ (sqrt (x * rho ^ k))).
    - now apply sqrt_le_1_alt.
    - rewrite sqrt_mult by Lra.lra.
      apply Rmult_le_compat_l; [apply sqrt_pos|].
      rewrite <- (sqrt_square (rho ^ k)) at 2 by Lra.lra.
      apply sqrt_le_1_alt.
      replace (rho ^ k)%R with (rho ^ k * 1)%R at 1 by ring.
      apply Rmult_le_compat_l; Lra.lra. }
  split; apply step; assumption.
Qed.

(** ** Rows in floating point against rows in exact arithmetic *)

Let float64 : Float R := float_rounded rnd.

(** The entries of a row before it is normalized: zero, or at least 1. *)
Let weights_like (row : list R) : Prop :=
  Forall (fun x => x = 0%R \/ (1 <= x)%R) row.

(** The entries of a normalized row: zero, or from [1 / bound] to 1. *)
Let unit_like (row : list R) : Prop :=
  Forall (fun y => y = 0%R \/ (/ bound <= y <= 1)%R) row.

Lemma safe_from_one (b : R) : (1 <= b <= bound)%R -> safe b.
Proof. intros [L U]. right. destruct inverse_bound_square. Lra.lra. Qed.

Lemma safe_zero : safe 0%R.
Proof. now left. Qed.

Lemma weights_like_nonneg (row : list R) :
  weights_like row -> Forall (fun x => (0 <= x)%R) row.
Proof.
  intros H. induction H as [|x row Hx H IH]; [constructor|].
  constructor; [|exact IH].
  destruct Hx as [->|Hx]; Lra.lra.
Qed.

Lemma sum_squares_zero_or_one (row : list R) :
  weights_like row ->
  Tfidf.sum_squares row = 0%R \/ (1 <= Tfidf.sum_squares row)%R.
Proof.
  intros H. induction H as [|x row Hx H IH]; [now left|].
  cbn [Tfidf.sum_squares fold_right]. fold (Tfidf.sum_squares row).
  pose proof (sum_squares_nonneg row) as P.
  destruct Hx as [->|Hx].
  - rewrite Rmult_0_l, Rplus_0_l. exact IH.
  - right. assert (1 * 1 <= x * x)%R by (apply Rmult_le_compat; Lra.lra).
    Lra.lra.
Qed.

Lemma sum_squares_loop_near (row : list R) :
  forall (j : nat) (acc exact : R),
    1 <= j -> j + List.length row <= most ->
    near j acc exact ->
    exact = 0%R \/ (1 <= exact)%R ->
    (exact + Tfidf.sum_squares row <= bound)%R ->
    weights_like row ->
    near (j + List.length row)
         (fold_left (fun sum_ x => rnd (sum_ + rnd (x * x))%R) row acc)
         (exact + Tfidf.sum_squares row)%R.
Proof.
  induction row as [|x row IH]; intros j acc exact Hj Hm N He Hb Hrow.
  - simpl. rewrite Nat.add_0_r, Rplus_0_r. exact N.
  - cbn [fold_left List.length Tfidf.sum_squares fold_right] in *.
    fold (Tfidf.sum_squares row) in *.
    inversion Hrow as [|? ? Hx Hrest]; subst.
    pose proof (sum_squares_nonneg row) as Prow.
    assert (0 <= exact)%R as He0 by (destruct He as [->|He]; Lra.lra).
    assert (0 <= x * x)%R as Hxx by (pose proof (Rle_0_sqr x) as S; exact S).
    assert (x * x = 0 \/ 1 <= x * x)%R as Hx2.
    { destruct Hx as [->|Hx]; [left; ring|right].
      replace 1%R with (1 * 1)%R by ring. apply Rmult_le_compat; Lra.lra. }
    replace (exact + (x * x + Tfidf.sum_squares row))%R
      with ((exact + x * x) + Tfidf.sum_squares row)%R in * by ring.
    replace (j + S (List.length row)) with (S j + List.length row) in * by lia.
    apply IH; [lia | lia | | | exact Hb | exact Hrest].
    + apply near_rnd; [lia | Lra.lra | |].
      * destruct He as [->|He], Hx2 as [E|E];
          [left; Lra.lra | | |]; apply safe_from_one; Lra.lra.
      * apply near_add; [exact N|].
        apply (near_weaken 1 j); [exact Hj | now apply rnd_nonneg | exact Hxx |].
        apply (near_rnd 0); [lia | exact Hxx | | now apply near_refl].
        destruct Hx2 as [->|E]; [apply safe_zero | apply safe_from_one; Lra.lra].
    + destruct He as [->|He], Hx2 as [E|E]; [left|right|right|right]; Lra.lra.
Qed.

Lemma sum_squares_near (row : list R) :
  S (List.length row) <= most ->
  weights_like row -> (Tfidf.sum_squares row <= bound)%R ->
  near (S (List.length row)) (Tfidf64.sum_squares rnd row) (Tfidf.sum_squares row).
Proof.
  intros Hm Hrow Hb. unfold Tfidf64.sum_squares.
  rewrite <- (Rplus_0_l (Tfidf.sum_squares row)).
  apply (sum_squares_loop_near row 1 0%R 0%R);
    [lia | exact Hm | apply near_zero | now left | Lra.lra | exact Hrow].
Qed.

Lemma sum_squares_zero_rows (row : list R) :
  Forall (fun x => (0 <= x)%R) row ->
  Tfidf.sum_squares row = 0%R -> Forall (fun x => x = 0%R) row.
Proof.
  intros H E. apply Forall_forall. intros x Hx.
  rewrite Forall_forall in H. specialize (H x Hx).
  pose proof (sum_squares_member row x Hx) as M. rewrite E in M.
  destruct (Req_dec x 0) as [Z|N]; [exact Z|].
  assert (0 < x * x)%R by (apply Rmult_lt_0_compat; Lra.lra).
  Lra.lra.
Qed.

Lemma zero_row_near (k : nat) (row : list R) :
  Forall (fun x => x = 0%R) row ->
  Forall2 (near k) row (map (fun x => (x / 1)%R) row).
Proof.
  intros Hz. induction Hz as [|x row Hx Hz IH]; simpl; [constructor|].
  constructor; [|exact IH].
  subst x. unfold Rdiv. rewrite Rmult_0_l. apply near_zero.
Qed.

(** The entries of a row divided by its exact length. *)
Lemma scaled_entry (exact x : R) :
  (1 <= exact <= bound)%R ->
  x = 0%R \/ (1 <= x <= exact)%R ->
  (x / exact)%R = 0%R \/ (/ bound <= x / exact <= 1)%R.
Proof.
  intros [L U] [->|[Lx Ux]].
  - left. unfold Rdiv. ring.
  - right.
    assert (0 < / exact)%R as I by (apply Rinv_0_lt_compat; Lra.lra).
    assert (/ bound <= / exact)%R as IB
      by (apply Rinv_le_contravar; Lra.lra).
    split.
    + apply (Rle_trans _ (1 * / exact)%R); [Lra.lra|].
      unfold Rdiv. apply Rmult_le_compat_r; Lra.lra.
    + apply (Rmult_le_reg_r exact); [Lra.lra|].
      unfold Rdiv. rewrite Rmult_assoc, Rinv_l by Lra.lra. Lra.lra.
Qed.

Lemma unit_entry_safe (y : R) :
  y = 0%R \/ (/ bound <= y <= 1)%R -> safe y.
Proof.
  intros [->|[L U]]; [now left|right].
  assert (/ (bound * bound) <= / bound)%R.
  { apply Rinv_le_contravar; [Lra.lra|].
    replace bound with (bound * 1)%R at 1 by ring.
    apply Rmult_le_compat_l; Lra.lra. }
  Lra.lra.
Qed.

Lemma scaled_row_near (k : nat) (norm exact : R) (row : list R) :
  S k <= most -> (1 <= exact <= bound)%R ->
  near k (/ norm) (/ exact) ->
  Forall (fun x => x = 0%R \/ (1 <= x <= exact)%R) row ->
  Forall2 (near (S k))
          (map (fun x => rnd (x / norm)%R) row)
          (map (fun x => (x / exact)%R) row).
Proof.
  intros Hm He NI Hrow.
  assert (0 <= / exact)%R as HI
    by (apply Rlt_le, Rinv_0_lt_compat; Lra.lra).
  induction Hrow as [|x row Hx Hrow IH]; simpl; [constructor|].
  constructor; [|exact IH].
  assert (0 <= x)%R as Hx0 by (destruct Hx as [->|Hx]; Lra.lra).
  apply near_rnd; [lia | now apply Rmult_le_pos | |].
  - apply unit_entry_safe. now apply scaled_entry.
  - change k with (0 + k). unfold Rdiv.
    apply near_mul; [exact Hx0 | exact HI | now apply near_refl | exact NI].
Qed.

Lemma entries_below_length (row : list R) :
  Forall (fun x => (0 <= x)%R) row ->
  Forall (fun x => (x <= sqrt (Tfidf.sum_squares row))%R) row.
Proof.
  intros H. apply Forall_forall. intros x Hx.
  rewrite Forall_forall in H. specialize (H x Hx).
  rewrite <- (sqrt_square x) at 1 by exact H.
  apply sqrt_le_1_alt. now apply sum_squares_member.
Qed.

Lemma sqrt_between (p : R) : (1 <= p)%R -> (1 <= sqrt p <= p)%R.
Proof.
  intros H. split.
  - rewrite <- sqrt_1. apply sqrt_le_1_alt. exact H.
  - rewrite <- (sqrt_square p) at 2 by Lra.lra.
    apply sqrt_le_1_alt.
    replace p with (p * 1)%R at 1 by ring.
    apply Rmult_le_compat_l; Lra.lra.
Qed.

Lemma weights_with_length (row : list R) :
  weights_like row ->
  Forall (fun x => x = 0%R \/ (1 <= x <= sqrt (Tfidf.sum_squares row))%R) row.
Proof.
  intros H.
  pose proof (entries_below_length row (weights_like_nonneg row H)) as B.
  unfold weights_like in H. rewrite Forall_forall in *.
  intros x Hx. destruct (H x Hx) as [Z|L]; [now left|right].
  split; [exact L | now apply B].
Qed.

Lemma scaled_row_unit_like (exact : R) (row : list R) :
  (1 <= exact <= bound)%R ->
  Forall (fun x => x = 0%R \/ (1 <= x <= exact)%R) row ->
  unit_like (map (fun x => (x / exact)%R) row).
Proof.
  intros He W. induction W as [|x r Hx W IH]; simpl; [constructor|].
  constructor; [|exact IH]. now apply scaled_entry.
Qed.

(** The exact normalized row has entries that are zero or from
    [1 / bound] to 1. *)
Lemma l2_normalize_unit_like (row : list R) :
  weights_like row -> (Tfidf.sum_squares row <= bound)%R ->
  unit_like (Tfidf.l2_normalize row).
Proof.
  intros Hrow Hb. unfold Tfidf.l2_normalize. cbv zeta.
  destruct (sum_squares_zero_or_one row Hrow) as [Z|P].
  - rewrite Z, sqrt_0. destruct (Req_dec_T 0 0) as [_|N]; [|now elim N].
    pose proof (sum_squares_zero_rows row (weights_like_nonneg row Hrow) Z) as Hz.
    clear - Hz. induction Hz as [|x row Hx Hz IH]; simpl; [constructor|].
    constructor; [|exact IH].
    left. subst x. unfold Rdiv. ring.
  - destruct (sqrt_between _ P) as [S1 S2].
    destruct (Req_dec_T (sqrt (Tfidf.sum_squares row)) 0) as [E|_]; [Lra.lra|].
    apply scaled_row_unit_like; [Lra.lra | now apply weights_with_length].
Qed.

(** Entry by entry, the row normalized in floating point is the row
    normalized exactly, up to the roundings of the sum, of the square
    root and of the division. *)
Lemma l2_normalize_near (row : list R) :
  List.length row + 3 <= most ->
  weights_like row -> (Tfidf.sum_squares row <= bound)%R ->
  Forall2 (near (List.length row + 3))
          (Tfidf64.l2_normalize rnd row) (Tfidf.l2_normalize row).
Proof.
  intros Hm Hrow Hb.
  pose proof (sum_squares_near row ltac:(lia) Hrow Hb) as NS.
  pose proof (sum_squares_nonneg row) as HP.
  pose proof (near_nonneg _ _ _ HP NS) as HS.
  unfold Tfidf64.l2_normalize, Tfidf.l2_normalize. cbv zeta.
  destruct (Req_dec_T (Tfidf64.sum_squares rnd row) 0) as [Z|NZ].
  - (* the row is zero *)
    assert (Tfidf.sum_squares row = 0%R) as ZP.
    { destruct NS as [H1 _]. rewrite Z, Rmult_0_l in H1. Lra.lra. }
    rewrite ZP, sqrt_0.
    destruct (Req_dec_T 0 0) as [_|N]; [|now elim N].
    apply zero_row_near.
    apply sum_squares_zero_rows; [now apply weights_like_nonneg | exact ZP].
  - assert (0 < Tfidf64.sum_squares rnd row)%R as PS by Lra.lra.
    assert (1 <= Tfidf.sum_squares row)%R as PP.
    { destruct (sum_squares_zero_or_one row Hrow) as [E|G]; [|exact G].
      destruct NS as [_ H2]. rewrite E, Rmult_0_l in H2. Lra.lra. }
    destruct (sqrt_between _ PP) as [S1 S2].
    destruct (Req_dec_T (sqrt (Tfidf.sum_squares row)) 0) as [E|_]; [Lra.lra|].
    set (norm := rnd (sqrt (Tfidf64.sum_squares rnd row))).
    assert (near (List.length row + 2) norm (sqrt (Tfidf.sum_squares row))) as NN.
    { replace (List.length row + 2) with (S (S (List.length row))) by lia.
      apply near_rnd; [lia | Lra.lra | apply safe_from_one; Lra.lra |].
      apply near_sqrt; [Lra.lra | Lra.lra | exact NS]. }
    assert (0 < norm)%R as PN.
    { destruct NN as [H1 _].
      pose proof (rho_pow_at_least_one (List.length row + 2)) as Hk.
      destruct (Rle_lt_dec norm 0) as [L|G]; [|exact G].
      exfalso.
      assert (norm * rho ^ (List.length row + 2) <= 0)%R.
      { replace 0%R with (0 * rho ^ (List.length row + 2))%R by ring.
        apply Rmult_le_compat_r; Lra.lra. }
      Lra.lra. }
    replace (List.length row + 3) with (S (List.length row + 2)) by lia.
    apply scaled_row_near; [lia | Lra.lra | | now apply weights_with_length].
    apply near_inv; [exact PN | Lra.lra | exact NN].
Qed.

Lemma unit_like_nonneg (row : list R) :
  unit_like row -> Forall (fun y => (0 <= y)%R) row.
Proof.
  intros H. induction H as [|y row Hy H IH]; [constructor|].
  constructor; [|exact IH].
  destruct Hy as [->|[L _]]; [Lra.lra|].
  pose proof (Rinv_0_lt_compat bound ltac:(Lra.lra)). Lra.lra.
Qed.

(** A scalar product of exact normalized rows is zero or at least
    [1 / bound ^ 2]. *)
Lemma row_dot_zero_or_above (y z : list R) :
  unit_like y -> unit_like z ->
  @row_dot R float_R y z = 0%R
  \/ (/ (bound * bound) <= @row_dot R float_R y z)%R.
Proof.
  intros Hy. revert z. induction Hy as [|b y Hb Hy IH]; intros z Hz.
  - now left.
  - destruct Hz as [|d z Hd Hz]; [now left|].
    cbn [row_dot fadd fmul float_R].
    pose proof (row_dot_nonneg y z (unit_like_nonneg y Hy)
                  (unit_like_nonneg z Hz)) as P.
    assert (/ (bound * bound) = / bound * / bound)%R as E
      by (apply Rinv_mult).
    pose proof (Rinv_0_lt_compat bound ltac:(Lra.lra)) as I.
    destruct Hb as [->|[Lb Ub]].
    + rewrite Rmult_0_l, Rplus_0_l. now apply IH.
    + destruct Hd as [->|[Ld Ud]].
      * rewrite Rmult_0_r, Rplus_0_l. now apply IH.
      * right. rewrite E.
        assert (/ bound * / bound <= b * d)%R
          by (apply Rmult_le_compat; Lra.lra).
        Lra.lra.
Qed.

(** The scalar product of [get_top_k] on rows in floating point against
    the exact scalar product of the exact rows. *)
Lemma row_dot_rounded_near (j : nat) (r y : list R) :
  Forall2 (near j) r y ->
  forall q z : list R,
    Forall2 (near j) q z ->
    unit_like y -> unit_like z ->
    (@row_dot R float_R y z <= 1)%R ->
    j + j + S (List.length r) <= most ->
    near (j + j + S (List.length r))
         (@row_dot R float64 r q) (@row_dot R float_R y z).
Proof.
  intros Nr. induction Nr as [|a b r y Hab Nr IH]; intros q z Nq Hy Hz H1 Hm.
  - simpl. apply near_zero.
  - destruct Nq as [|c d q z Hcd Nq]; [simpl; apply near_zero|].
    cbn [row_dot fadd fmul float64 float_rounded float_R List.length] in *.
    change (@row_dot R (float_rounded rnd) r q) with (@row_dot R float64 r q).
    inversion Hy as [|? ? Hb Hy']; subst.
    inversion Hz as [|? ? Hd Hz']; subst.
    pose proof (unit_like_nonneg _ Hy) as Py. inversion Py; subst.
    pose proof (unit_like_nonneg _ Hz) as Pz. inversion Pz; subst.
    pose proof (row_dot_nonneg y z ltac:(assumption) ltac:(assumption)) as Prest.
    assert (0 <= b * d)%R as Pbd by (now apply Rmult_le_pos).
    assert (near (j + j) (a * c) (b * d)) as Nprod
      by (now apply near_mul).
    assert (safe (b * d)) as Sbd.
    { destruct (row_dot_zero_or_above [b] [d]) as [E|E].
      - constructor; [exact Hb|constructor].
      - constructor; [exact Hd|constructor].
      - left. cbn [row_dot fadd fmul fzero float_R] in E. Lra.lra.
      - right. cbn [row_dot fadd fmul fzero float_R] in E. Lra.lra. }
    replace (j + j + S (S (List.length r)))
      with (S (j + j + S (List.length r))) by lia.
    apply near_rnd; [lia | Lra.lra | |].
    + destruct (row_dot_zero_or_above (b :: y) (d :: z) Hy Hz) as [E|E];
        cbn [row_dot fadd fmul float_R] in E; [now left|right].
      split; [exact E | Lra.lra].
    + apply near_add.
      * apply (near_weaken (S (j + j))); [lia | | exact Pbd |].
        -- apply rnd_nonneg. exact (near_nonneg _ _ _ Pbd Nprod).
        -- apply near_rnd; [lia | exact Pbd | exact Sbd | exact Nprod].
      * apply IH; [exact Nq | exact Hy' | exact Hz' | Lra.lra | lia].
Qed.

Lemma scores_near (row query : list R) :
  3 * List.length row + 7 <= most ->
  weights_like row -> (Tfidf.sum_squares row <= bound)%R ->
  weights_like query -> (Tfidf.sum_squares query <= bound)%R ->
  List.length row = List.length query ->
  near (3 * List.length row + 7)
       (@row_dot R float64 (Tfidf64.l2_normalize rnd row)
                           (Tfidf64.l2_normalize rnd query))
       (@row_dot R float_R (Tfidf.l2_normalize row) (Tfidf.l2_normalize query)).
Proof.
  intros Hm Hrow Brow Hquery Bquery Hlen.
  set (n := List.length row) in *.
  pose proof (l2_normalize_near row ltac:(fold n; lia) Hrow Brow) as Nr.
  pose proof (l2_normalize_near query ltac:(rewrite <- Hlen; lia) Hquery Bquery)
    as Nq.
  rewrite <- Hlen in Nq. fold n in Nr.
  assert (List.length (Tfidf64.l2_normalize rnd row) = n) as L.
  { rewrite (Forall2_length Nr). unfold Tfidf.l2_normalize.
    now rewrite length_map. }
  replace (3 * n + 7)
    with ((n + 3) + (n + 3) + S (List.length (Tfidf64.l2_normalize rnd row)))
    by lia.
  apply row_dot_rounded_near.
  - exact Nr.
  - exact Nq.
  - now apply l2_normalize_unit_like.
  - now apply l2_normalize_unit_like.
  - apply row_dot_normalized_le.
  - lia.
Qed.

(** ** Texts without a common token *)

Lemma l2_normalize64_keeps_zeros (row : list R) :
  Forall2 (fun x y => x = 0%R -> y = 0%R) row (Tfidf64.l2_normalize rnd row).
Proof.
  unfold Tfidf64.l2_normalize. cbv zeta.
  destruct (Req_dec_T (Tfidf64.sum_squares rnd row) 0) as [_|_].
  - induction row; constructor; auto.
  - generalize (rnd (sqrt (Tfidf64.sum_squares rnd row))). intros norm.
    induction row as [|x row IH]; simpl; [constructor|].
    constructor; [|exact IH].
    intros ->. unfold Rdiv. rewrite Rmult_0_l. apply rnd_zero.
Qed.

Lemma row_dot_rounded_zero (r q : list R) :
  Forall2 (fun x y => x = 0%R \/ y = 0%R) r q ->
  @row_dot R float64 r q = 0%R.
Proof.
  intros H. induction H as [|x y r q Hxy H IH]; [reflexivity|].
  cbn [row_dot fadd fmul float64 float_rounded].
  change (@row_dot R (float_rounded rnd) r q) with (@row_dot R float64 r q).
  rewrite IH.
  assert (x * y = 0)%R as -> by (destruct Hxy as [-> | ->]; ring).
  now rewrite rnd_zero, Rplus_0_r, rnd_zero.
Qed.

Lemma zeros_carried_over (w1 w2 r1 r2 : list R) :
  Forall2 (fun x y => x = 0%R \/ y = 0%R) w1 w2 ->
  Forall2 (fun x y => x = 0%R -> y = 0%R) w1 r1 ->
  Forall2 (fun x y => x = 0%R -> y = 0%R) w2 r2 ->
  Forall2 (fun x y => x = 0%R \/ y = 0%R) r1 r2.
Proof.
  intros H. revert r1 r2.
  induction H as [|x y w1 w2 Hxy H IH]; intros r1 r2 H1 H2;
    inversion H1; subst; inversion H2; subst; [constructor|].
  constructor.
  - destruct Hxy as [Z|Z]; [left|right]; auto.
  - now apply IH.
Qed.

(** A text that shares no token with the query has similarity 0. *)
Lemma similarity_without_common_token (analyzer : string -> list string)
    (f : Tfidf.fitted) (text query : string) :
  forallb (fun t => negb (Tfidf.has_token t (analyzer query))) (analyzer text)
  = true ->
  @row_dot R float64 (Tfidf64.encode rnd analyzer f text)
                     (Tfidf64.encode rnd analyzer f query) = 0%R.
Proof.
  intros H. apply row_dot_rounded_zero.
  unfold Tfidf64.encode. cbv zeta.
  eapply zeros_carried_over;
    [| apply l2_normalize64_keeps_zeros | apply l2_normalize64_keeps_zeros].
  induction (combine (Tfidf.feature_names f) (Tfidf.idf_ f)) as [|[t w] cols IH];
    simpl; [constructor|].
  constructor; [|exact IH]. cbn [fst snd].
  destruct (in_dec string_dec t (analyzer text)) as [Hin|Hout].
  - right. rewrite forallb_forall in H. specialize (H t Hin).
    apply negb_true_iff in H.
    rewrite count_token_absent.
    + rewrite Rmult_0_l. apply rnd_zero.
    + intros Hq. unfold Tfidf.has_token in H.
      assert (existsb (String.eqb t) (analyzer query) = true) as E.
      { apply existsb_exists. exists t. split; [exact Hq|apply String.eqb_refl]. }
      congruence.
  - left. rewrite count_token_absent by exact Hout.
    rewrite Rmult_0_l. apply rnd_zero.
Qed.

Lemma float64_laws : @FloatLaws R float64.
Proof.
  constructor; cbn [fleb round4 float64 float_rounded].
  - intros x y. rewrite !Rleb_true. Lra.lra.
  - intros x y z. rewrite !Rleb_true. Lra.lra.
  - intros x y. rewrite !Rleb_true. intros H.
    apply (rnd_monotone _ _ _ _ _ laws).
    pose proof (@round4_monotone R float_R float_R_laws x y) as M.
    cbn [round4 fleb float_R] in M. rewrite !Rleb_true in M. now apply M.
Qed.

End Roundings.

(** ** The index in floating point *)

Lemma sum_squares_at_most (w : R) (row : list R) :
  Forall (fun x => (0 <= x <= w)%R) row ->
  (Tfidf.sum_squares row <= INR (List.length row) * (w * w))%R.
Proof.
  intros H. induction H as [|x row Hx H IH].
  - simpl. Lra.lra.
  - cbn [Tfidf.sum_squares fold_right]. fold (Tfidf.sum_squares row).
    change (List.length (x :: row)) with (S (List.length row)).
    rewrite S_INR.
    assert (x * x <= w * w)%R by (apply Rmult_le_compat; Lra.lra).
    Lra.lra.
Qed.

Lemma row_bound_room (n c d : nat) :
  1 <= n -> 1 <= c ->
  (1 <= row_bound n c d)%R
  /\ (4 * INR c * (INR d + 2) <= row_bound n c d)%R.
Proof.
  intros Hn Hc. unfold row_bound.
  apply le_INR in Hn. apply le_INR in Hc. rewrite INR_1 in Hn, Hc.
  pose proof (pos_INR d) as Hd.
  set (w := (8 * INR c * (INR d + 2))%R).
  assert (16 <= w)%R as Hw.
  { subst w.
    assert (1 * 2 <= INR c * (INR d + 2))%R
      by (apply Rmult_le_compat; Lra.lra).
    Lra.lra. }
  assert (w * 16 <= w * w)%R by (apply Rmult_le_compat_l; Lra.lra).
  assert (1 * (w * w) <= INR n * (w * w))%R
    by (apply Rmult_le_compat_r; [|exact Hn];
        apply Rmult_le_pos; Lra.lra).
  replace (4 * INR c * (INR d + 2))%R with (w / 2)%R by (subst w; field).
  split; Lra.lra.
Qed.

Section RoundedIndex.
Variables (rnd log : R -> R) (u tiny huge : R).
Hypothesis laws : rounding_laws rnd log u tiny huge.
Variable analyzer : string -> list string.
Variable texts : list string.
Variable max_count : nat.

Let columns : nat := List.length (Tfidf.vocabulary (map analyzer texts)).
Let bound : R := row_bound columns max_count (List.length texts).
Let float64 : Float R := float_rounded rnd.

Hypothesis counts :
  forall (text t : string),
    In text texts -> Tfidf.count_token t (analyzer text) <= max_count.
Hypothesis bound_at_least_one : (1 <= bound)%R.
Hypothesis weight_below_bound :
  (4 * INR max_count * (INR (List.length texts) + 2) <= bound)%R.
Hypothesis tiny_positive : (0 < tiny)%R.
Hypothesis no_overflow : (2 * bound <= huge)%R.
Hypothesis no_underflow : (2 * tiny * (bound * bound) <= 1)%R.
Hypothesis tolerance : (round_trip_tolerance u columns < 1 + 1 / 20000)%R.

Lemma idf64_between (df : nat) :
  df <= List.length texts ->
  (1 <= Tfidf64.idf rnd log (List.length (map analyzer texts)) df
     <= 4 * (INR (List.length texts) + 2))%R.
Proof.
  intros H. unfold Tfidf64.idf. rewrite length_map.
  set (d := List.length texts) in *.
  pose proof (pos_INR df) as Hdf. pose proof (pos_INR d) as Hd.
  pose proof (pos_INR max_count) as Hc.
  apply le_INR in H.
  set (q := ((1 + INR d) / (1 + INR df))%R).
  assert (1 <= q <= 1 + INR d)%R as Hq.
  { subst q. split.
    - apply (Rmult_le_reg_r (1 + INR df)); [Lra.lra|].
      unfold Rdiv. rewrite Rmult_assoc, Rinv_l by Lra.lra. Lra.lra.
    - apply (Rmult_le_reg_r (1 + INR df)); [Lra.lra|].
      unfold Rdiv. rewrite Rmult_assoc, Rinv_l by Lra.lra.
      assert (0 <= (1 + INR d) * INR df)%R by (apply Rmult_le_pos; Lra.lra).
      Lra.lra. }
  assert (1 <= max_count \/ max_count = 0) as [Hm|Hm] by lia.
  2:{ exfalso. rewrite Hm in weight_below_bound. simpl in weight_below_bound.
      unfold bound, row_bound in bound_at_least_one. rewrite Hm in bound_at_least_one.
      simpl in bound_at_least_one. Lra.lra. }
  apply le_INR in Hm. rewrite INR_1 in Hm.
  assert (4 * 1 * (INR d + 2) <= 4 * INR max_count * (INR d + 2))%R as Hroom.
  { apply Rmult_le_compat_r; [Lra.lra|]. Lra.lra. }
  pose proof (rnd_at_least_one rnd log u tiny huge laws q (proj1 Hq)) as Q1.
  pose proof (rnd_at_most_twice rnd log u tiny huge laws bound
                bound_at_least_one tiny_positive no_overflow no_underflow q
                ltac:(Lra.lra)) as Q2.
  pose proof (log_nonneg _ _ _ _ _ laws _ Q1) as L1.
  pose proof (log_below _ _ _ _ _ laws _ Q1) as L2.
  split.
  - apply (rnd_at_least_one rnd log u tiny huge laws). Lra.lra.
  - pose proof (rnd_at_most_twice rnd log u tiny huge laws bound
                  bound_at_least_one tiny_positive no_overflow no_underflow
                  (log (rnd q) + 1)%R ltac:(Lra.lra)) as V.
    Lra.lra.
Qed.

(** The entries of a row before it is normalized. *)
Let weights (f : Tfidf.fitted) (text : string) : list R :=
  map (fun tw => rnd (INR (Tfidf.count_token (fst tw) (analyzer text)) * snd tw)%R)
      (combine (Tfidf.feature_names f) (Tfidf.idf_ f)).

Let fitted : Tfidf.fitted := Tfidf64.fit rnd log analyzer texts.

Lemma fit64_weights (text : string) :
  weights fitted text
  = map (fun t =>
           rnd (INR (Tfidf.count_token t (analyzer text))
                * Tfidf64.idf rnd log (List.length (map analyzer texts))
                    (Tfidf.document_frequency t (map analyzer texts)))%R)
        (Tfidf.vocabulary (map analyzer texts)).
Proof.
  unfold weights, fitted, Tfidf64.fit. cbn [Tfidf.feature_names Tfidf.idf_].
  rewrite combine_map_self, map_map. reflexivity.
Qed.

Lemma fit64_weights_length (text : string) :
  List.length (weights fitted text) = columns.
Proof. rewrite fit64_weights. apply length_map. Qed.

(** Every weight of a text of the corpus is zero or between 1 and
    [8 * max_count * (d + 2)]. *)
Lemma fit64_weights_between (text : string) :
  In text texts ->
  Forall (fun x => x = 0%R
                   \/ (1 <= x <= 8 * INR max_count
                                  * (INR (List.length texts) + 2))%R)
         (weights fitted text).
Proof.
  intros Hin. rewrite fit64_weights. apply Forall_forall. intros x Hx.
  apply in_map_iff in Hx. destruct Hx as [t [<- _]].
  set (c := Tfidf.count_token t (analyzer text)).
  pose proof (counts text t Hin) as Hc. fold c in Hc.
  assert (Tfidf.document_frequency t (map analyzer texts) <= List.length texts)
    as Hdf.
  { unfold Tfidf.document_frequency.
    etransitivity; [apply filter_length_le|]. now rewrite length_map. }
  destruct (idf64_between _ Hdf) as [I1 I2].
  set (idf := Tfidf64.idf rnd log (List.length (map analyzer texts))
                (Tfidf.document_frequency t (map analyzer texts))) in *.
  destruct (Nat.eq_dec c 0) as [Z|NZ].
  - left. rewrite Z. simpl. rewrite Rmult_0_l.
    apply (rnd_zero rnd log u tiny huge laws).
  - right.
    assert (1 <= INR c)%R as C1 by (rewrite <- INR_1; apply le_INR; lia).
    apply le_INR in Hc.
    pose proof (pos_INR (List.length texts)) as Hd.
    assert (1 * 1 <= INR c * idf)%R as P1
      by (apply Rmult_le_compat; Lra.lra).
    assert (INR c * idf <= INR max_count * (4 * (INR (List.length texts) + 2)))%R
      as P2 by (apply Rmult_le_compat; Lra.lra).
    split.
    + apply (rnd_at_least_one rnd log u tiny huge laws). Lra.lra.
    + pose proof (rnd_at_most_twice rnd log u tiny huge laws bound
                    bound_at_least_one tiny_positive no_overflow no_underflow
                    (INR c * idf)%R ltac:(Lra.lra)) as V.
      Lra.lra.
Qed.

Lemma fit64_weights_like (text : string) :
  In text texts ->
  Forall (fun x => x = 0%R \/ (1 <= x)%R) (weights fitted text).
Proof.
  intros Hin. pose proof (fit64_weights_between text Hin) as H.
  rewrite Forall_forall in *. intros x Hx.
  destruct (H x Hx) as [Z|[L _]]; [now left | now right].
Qed.

Lemma fit64_weights_bounded (text : string) :
  In text texts -> (Tfidf.sum_squares (weights fitted text) <= bound)%R.
Proof.
  intros Hin. pose proof (fit64_weights_between text Hin) as H.
  unfold bound, row_bound. rewrite <- (fit64_weights_length text).
  apply sum_squares_at_most.
  rewrite Forall_forall in *. intros x Hx.
  destruct (H x Hx) as [->|[L U]]; [|Lra.lra].
  pose proof (pos_INR max_count). pose proof (pos_INR (List.length texts)).
  split; [Lra.lra|].
  apply Rmult_le_pos; [|Lra.lra]. Lra.lra.
Qed.

(** A text of the corpus with a token has a weight of at least 1. *)
Lemma fit64_weights_positive (text : string) :
  In text texts -> analyzer text <> [] ->
  (0 < Tfidf.sum_squares (weights fitted text))%R.
Proof.
  intros Hin Htok.
  destruct (analyzer text) as [|t doc] eqn:Edoc; [now elim Htok|].
  assert (In t (Tfidf.vocabulary (map analyzer texts))) as Hvoc.
  { apply in_vocabulary. apply in_concat. exists (t :: doc). split; [|now left].
    rewrite <- Edoc. now apply in_map. }
  pose proof (fit64_weights_between text Hin) as B.
  rewrite fit64_weights in *.
  set (weight := fun t' : string =>
         rnd (INR (Tfidf.count_token t' (analyzer text))
              * Tfidf64.idf rnd log (List.length (map analyzer texts))
                  (Tfidf.document_frequency t' (map analyzer texts)))%R) in *.
  assert (1 <= weight t)%R as Hw.
  { subst weight. cbn beta.
    apply (rnd_at_least_one rnd log u tiny huge laws).
    pose proof (count_token_positive t (analyzer text)) as Hc.
    rewrite Edoc in Hc. specialize (Hc (or_introl eq_refl)). rewrite <- Edoc in Hc.
    apply le_INR in Hc. rewrite INR_1 in Hc.
    assert (Tfidf.document_frequency t (map analyzer texts) <= List.length texts)
      as Hdf.
    { unfold Tfidf.document_frequency.
      etransitivity; [apply filter_length_le|]. now rewrite length_map. }
    destruct (idf64_between _ Hdf) as [I1 _].
    replace 1%R with (1 * 1)%R by Lra.lra.
    apply Rmult_le_compat; Lra.lra. }
  pose proof (sum_squares_member (map weight (Tfidf.vocabulary (map analyzer texts)))
                (weight t) (in_map weight _ _ Hvoc)) as Hss.
  assert (1 <= weight t * weight t)%R.
  { replace 1%R with (1 * 1)%R by Lra.lra. apply Rmult_le_compat; Lra.lra. }
  Lra.lra.
Qed.

Lemma factor_at_most_two :
  (((1 + u) / (1 - u)) ^ (3 * columns + 7) <= 2)%R.
Proof. unfold round_trip_tolerance in tolerance. Lra.lra. Qed.

Lemma encoded_scores_near (text query : string) :
  In text texts -> In query texts ->
  let computed := @row_dot R float64 (Tfidf64.encode rnd analyzer fitted text)
                                     (Tfidf64.encode rnd analyzer fitted query) in
  let exact := @row_dot R float_R (Tfidf.l2_normalize (weights fitted text))
                                  (Tfidf.l2_normalize (weights fitted query)) in
  (exact <= computed * round_trip_tolerance u columns)%R
  /\ (computed <= exact * round_trip_tolerance u columns)%R.
Proof.
  intros Htext Hquery.
  pose proof (scores_near rnd log u tiny huge laws bound bound_at_least_one
                tiny_positive no_overflow no_underflow
                (3 * columns + 7) factor_at_most_two
                (weights fitted text) (weights fitted query)) as N.
  rewrite !fit64_weights_length in N.
  exact (N (le_n _) (fit64_weights_like text Htext)
           (fit64_weights_bounded text Htext)
           (fit64_weights_like query Hquery)
           (fit64_weights_bounded query Hquery) eq_refl).
Qed.

(** The similarity of a text of the corpus with a token to itself is 1
    within the tolerance. *)
Lemma self_similarity_within_tolerance (text : string) :
  In text texts -> analyzer text <> [] ->
  let score := @row_dot R float64 (Tfidf64.encode rnd analyzer fitted text)
                                  (Tfidf64.encode rnd analyzer fitted text) in
  (1 <= score * round_trip_tolerance u columns)%R
  /\ (score <= round_trip_tolerance u columns)%R.
Proof.
  intros Hin Htok score.
  pose proof (encoded_scores_near text text Hin Hin) as N. cbv zeta in N.
  rewrite row_dot_self in N.
  rewrite sum_squares_normalized in N by (now apply fit64_weights_positive).
  destruct N as [N1 N2]. rewrite Rmult_1_l in N2.
  split; [exact N1 | exact N2].
Qed.

(** No similarity exceeds 1 by more than the tolerance, and none is
    negative. *)
Lemma similarity_at_most_tolerance (text query : string) :
  In text texts -> In query texts ->
  let score := @row_dot R float64 (Tfidf64.encode rnd analyzer fitted text)
                                  (Tfidf64.encode rnd analyzer fitted query) in
  (0 <= score <= round_trip_tolerance u columns)%R.
Proof.
  intros Htext Hquery score.
  pose proof (encoded_scores_near text query Htext Hquery) as N. cbv zeta in N.
  fold score in N.
  set (exact := @row_dot R float_R (Tfidf.l2_normalize (weights fitted text))
                                   (Tfidf.l2_normalize (weights fitted query))) in *.
  assert (exact <= 1)%R as Hle by apply row_dot_normalized_le.
  assert (Forall (fun x => (0 <= x)%R) (weights fitted text)) as Wt.
  { pose proof (fit64_weights_like text Htext) as H.
    rewrite Forall_forall in *. intros x Hx. destruct (H x Hx); Lra.lra. }
  assert (Forall (fun x => (0 <= x)%R) (weights fitted query)) as Wq.
  { pose proof (fit64_weights_like query Hquery) as H.
    rewrite Forall_forall in *. intros x Hx. destruct (H x Hx); Lra.lra. }
  assert (0 <= exact)%R as H0.
  { apply row_dot_nonneg; now apply l2_normalize_nonneg. }
  assert (1 <= round_trip_tolerance u columns)%R as T1.
  { apply pow_R1_Rle.
    exact (rho_at_least_one rnd log u tiny huge laws). }
  destruct N as [N1 N2]. split.
  - destruct (Rle_lt_dec 0 score) as [G|L]; [exact G|]. exfalso.
    assert (score * round_trip_tolerance u columns < 0)%R.
    { replace 0%R with (score * 0)%R by ring.
      apply Rmult_lt_gt_compat_neg_l; Lra.lra. }
    Lra.lra.
  - apply (Rle_trans _ _ _ N2).
    rewrite <- (Rmult_1_l (round_trip_tolerance u columns)) at 2.
    apply Rmult_le_compat_r; Lra.lra.
Qed.

End RoundedIndex.

Section RoundedIndexShape.
Variables (rnd log : R -> R) (analyzer : string -> list string).

(** Texts with the same token counts have the same row. *)
Lemma encode64_same_token_counts (f : Tfidf.fitted) (text1 text2 : string) :
  same_token_counts analyzer text1 text2 ->
  Tfidf64.encode rnd analyzer f text1 = Tfidf64.encode rnd analyzer f text2.
Proof.
  intros H. unfold Tfidf64.encode. cbv zeta. f_equal.
  apply map_ext. intros [t w]. cbn [fst snd]. now rewrite (H t).
Qed.

Lemma similarity_scores_tfidf64 (f : Tfidf.fitted) (texts : list string)
    (query : string) :
  @similarity_scores R (float_rounded rnd) query
     {| transform := Tfidf64.tfidf_transform rnd analyzer f |}
     (Tfidf64.tfidf_transform rnd analyzer f texts)
  = map (fun text =>
           @row_dot R (float_rounded rnd) (Tfidf64.encode rnd analyzer f text)
                                          (Tfidf64.encode rnd analyzer f query))
        texts.
Proof.
  unfold similarity_scores, flatten. simpl.
  induction texts as [|text texts IH]; simpl; [reflexivity|now rewrite IH].
Qed.

Lemma tfidf64_index (f : Tfidf.fitted) (examples : list dict) :
  index_of_corpus {| transform := Tfidf64.tfidf_transform rnd analyzer f |}
                  (Tfidf64.tfidf_transform rnd analyzer f (map to_text examples))
                  examples.
Proof.
  split; simpl.
  - now rewrite !length_map.
  - intros texts. split; [reflexivity|apply length_map].
Qed.

Lemma build_index64_returns (examples : list dict) (d : dict) :
  In d examples -> analyzer (to_text d) <> [] ->
  let texts := map to_text examples in
  let f := Tfidf64.fit rnd log analyzer texts in
  @build_index R (Tfidf64.sklearn_tfidf rnd log analyzer) examples
  = Returns ({| transform := Tfidf64.tfidf_transform rnd analyzer f |},
             Tfidf64.tfidf_transform rnd analyzer f texts, texts).
Proof.
  intros Hin Htok texts f.
  destruct examples as [|e examples]; [now elim Hin|].
  unfold build_index. fold texts.
  unfold fit_transform, Tfidf64.sklearn_tfidf, Tfidf64.tfidf_fit_transform.
  fold f.
  destruct (Tfidf.feature_names f) as [|t names] eqn:E; [|reflexivity].
  exfalso.
  destruct (analyzer (to_text d)) as [|t doc] eqn:Edoc; [now elim Htok|].
  assert (In t (Tfidf.feature_names f)) as Hvoc.
  { subst f. unfold Tfidf64.fit. cbn [Tfidf.feature_names].
    apply in_vocabulary. apply in_concat. exists (t :: doc). split; [|now left].
    rewrite <- Edoc. apply in_map. subst texts. now apply in_map. }
  rewrite E in Hvoc. exact Hvoc.
Qed.

End RoundedIndexShape.

(** ** Rounding to four decimals next to 1 *)

Lemma Rround4_next_to_one (x : R) :
  (1 - 1 / 20000 < x < 1 + 1 / 20000)%R -> Rround4 x = 1%R.
Proof.
  intros [L U]. unfold Rround4, Rround_half_even. cbv zeta.
  destruct (Rle_lt_dec 1 x) as [G|S].
  - assert (Int_part (x * 10000) = 10000%Z) as E.
    { apply Int_part_unique. Lra.lra. }
    rewrite E.
    destruct (Rlt_dec _ _) as [_|N]; [|exfalso; apply N; Lra.lra].
    Lra.lra.
  - assert (Int_part (x * 10000) = 9999%Z) as E.
    { apply Int_part_unique. Lra.lra. }
    rewrite E.
    destruct (Rlt_dec _ _) as [B|_]; [exfalso; Lra.lra|].
    destruct (Rlt_dec _ _) as [_|N]; [|exfalso; apply N; Lra.lra].
    replace (9999 + 1)%Z with 10000%Z by reflexivity. Lra.lra.
Qed.

Lemma inverse_within_tolerance (score tolerance : R) :
  (0 <= score)%R ->
  (1 <= score * tolerance)%R -> (score <= tolerance)%R ->
  (tolerance < 1 + 1 / 20000)%R ->
  (1 - 1 / 20000 < score < 1 + 1 / 20000)%R.
Proof.
  intros H0 H1 H2 Ht. split; [|Lra.lra].
  destruct (Rlt_le_dec (1 - 1 / 20000) score) as [G|L]; [exact G|].
  exfalso.
  assert (score * tolerance <= score * (1 + 1 / 20000))%R
    by (apply Rmult_le_compat_l; Lra.lra).
  assert (score * (1 + 1 / 20000) <= (1 - 1 / 20000) * (1 + 1 / 20000))%R
    by (apply Rmult_le_compat_r; Lra.lra).
  Lra.lra.
Qed.

(** C4 (as amended): build the index from a corpus and rank the exact
    text of a document [d] of it that has at least one token, in
    floating-point arithmetic of unit roundoff [u], on a corpus that keeps
    the computation inside the normal range and whose tolerance stays below
    half of the last decimal kept.  Then the index is built and the ranking
    returns; the similarity of [d] to its own text is 1 within the
    tolerance; no similarity exceeds 1 by more; [d] is returned with the
    score 1.0, which is the score of the first result and the largest score
    of the result set.  [d] is at rank 1 when no other document has a
    similarity that reaches that of [d]; a document with the same token
    counts as [d], a true duplicate among them, has the very similarity of
    [d], and which of the two comes first is left to [argsort].  A document
    without tokens is not covered: its similarity to everything is 0. *)
Theorem build_index_round_trip :
  forall (rnd log : R -> R) (u tiny huge : R)
         (analyzer : string -> list string)
         (numpy : NumPy R) (nlaws : @NumPyLaws R (float_rounded rnd) numpy)
         (examples : list dict) (max_count : nat)
         (i : nat) (d : dict) (k : Z),
    rounding_laws rnd log u tiny huge ->
    within_float_range tiny huge analyzer examples max_count ->
    nth_error examples i = Some d ->
    analyzer (to_text d) <> [] ->
    (1 <= k)%Z ->
    let tolerance := round_trip_tolerance u (vocabulary_size analyzer examples) in
    (tolerance < 1 + 1 / 20000)%R ->
    exists vectorizer matrix texts results,
      @build_index R (Tfidf64.sklearn_tfidf rnd log analyzer) examples
      = Returns (vectorizer, matrix, texts)
      /\ @get_top_k R (float_rounded rnd) numpy (to_text d)
                    vectorizer matrix examples k
         = Returns results
      /\ let scores :=
           @similarity_scores R (float_rounded rnd) (to_text d) vectorizer matrix in
         let self := nth i scores 0%R in
         ((1 <= self * tolerance)%R /\ (self <= tolerance)%R)
         /\ Forall (fun s => (s <= tolerance)%R) scores
         /\ @round4 R (float_rounded rnd) self = 1%R
         /\ (exists first rest, results = (first, 1%R) :: rest)
         /\ Forall (fun r => (snd r <= 1)%R) results
         /\ ((forall j, j <> i -> j < List.length examples ->
                        (nth j scores 0 < self)%R) ->
             exists rest, results = (d, 1%R) :: rest)
         /\ (forall j d',
               nth_error examples j = Some d' ->
               same_token_counts analyzer (to_text d') (to_text d) ->
               nth j scores 0%R = self).
Proof.
  intros rnd log u tiny huge analyzer numpy nlaws examples max_count i d k
         laws Hrange Hd Htok Hk tolerance Htol.
  pose proof (nth_error_In _ _ Hd) as Hin.
  set (float64 := float_rounded rnd).
  set (texts := map to_text examples).
  set (f := Tfidf64.fit rnd log analyzer texts).
  set (vectorizer := {| transform := Tfidf64.tfidf_transform rnd analyzer f |}).
  set (matrix := Tfidf64.tfidf_transform rnd analyzer f texts).
  exists vectorizer, matrix, texts.
  set (scores := @similarity_scores R float64 (to_text d) vectorizer matrix).
  set (score := fun text =>
         @row_dot R float64 (Tfidf64.encode rnd analyzer f text)
                            (Tfidf64.encode rnd analyzer f (to_text d))).
  (* the corpus is within the range of the floats *)
  destruct Hrange as [Hcounts [Htiny Hroom]]. cbv zeta in Hroom.
  destruct Hroom as [Hover Hunder].
  assert (Hcount : forall text t, In text texts ->
                     Tfidf.count_token t (analyzer text) <= max_count).
  { intros text t Ht. apply in_map_iff in Ht. destruct Ht as [e [<- He]].
    now apply Hcounts. }
  assert (Hcolumns : 1 <= vocabulary_size analyzer examples).
  { unfold vocabulary_size. fold texts.
    destruct (analyzer (to_text d)) as [|t doc] eqn:Edoc; [now elim Htok|].
    assert (In t (Tfidf.vocabulary (map analyzer texts))) as Hvoc.
    { apply in_vocabulary. apply in_concat. exists (t :: doc).
      split; [|now left]. rewrite <- Edoc. apply in_map. now apply in_map. }
    destruct (Tfidf.vocabulary (map analyzer texts)); [contradiction|simpl; lia]. }
  assert (Hmax : 1 <= max_count).
  { destruct (analyzer (to_text d)) as [|t doc] eqn:Edoc; [now elim Htok|].
    pose proof (Hcounts d t Hin) as Hc. rewrite Edoc in Hc.
    pose proof (count_token_positive t (t :: doc) (or_introl eq_refl)). lia. }
  destruct (row_bound_room _ _ (List.length examples) Hcolumns Hmax)
    as [Hbound Hweight].
  assert (Hlength : List.length texts = List.length examples)
    by apply length_map.
  assert (Htext : In (to_text d) texts) by (now apply in_map).
  (* the scores *)
  assert (Hi : i < List.length examples) by (apply nth_error_Some; congruence).
  assert (Hscores : scores = map score texts)
    by apply similarity_scores_tfidf64.
  assert (Hlen : List.length scores = List.length examples).
  { rewrite Hscores. subst texts. now rewrite !length_map. }
  assert (Hnth : forall j d', nth_error examples j = Some d' ->
                              nth j scores 0%R = score (to_text d')).
  { intros j d' Hj. apply nth_error_nth. rewrite Hscores. subst texts.
    rewrite !nth_error_map, Hj. reflexivity. }
  assert (Hself : (1 <= nth i scores 0 * tolerance)%R
                  /\ (nth i scores 0 <= tolerance)%R).
  { rewrite (Hnth i d Hd).
    apply (self_similarity_within_tolerance rnd log u tiny huge laws analyzer
             texts max_count Hcount);
      try rewrite Hlength; assumption. }
  assert (Hall : forall text, In text texts ->
                              (0 <= score text <= tolerance)%R).
  { intros text Ht.
    apply (similarity_at_most_tolerance rnd log u tiny huge laws analyzer
             texts max_count Hcount);
      try rewrite Hlength; assumption. }
  assert (Hmaxs : Forall (fun s => (s <= tolerance)%R) scores).
  { rewrite Hscores. apply Forall_forall. intros s Hs.
    apply in_map_iff in Hs. destruct Hs as [text [<- Ht]]. now apply Hall. }
  assert (Hbounds : forall j, (0 <= nth j scores 0 <= tolerance)%R).
  { intros j. rewrite Hscores.
    destruct (nth_in_or_default j (map score texts) 0%R) as [Hj|Hj].
    - apply in_map_iff in Hj. destruct Hj as [text [<- Ht]]. now apply Hall.
    - rewrite Hj. destruct (Hall (to_text d) Htext). Lra.lra. }
  assert (Htol1 : (1 <= tolerance)%R).
  { apply pow_R1_Rle.
    exact (rho_at_least_one rnd log u tiny huge laws). }
  assert (Hnear1 : (1 - 1 / 20000 < nth i scores 0 < 1 + 1 / 20000)%R).
  { destruct Hself as [H1 H2]. destruct (Hbounds i) as [H0 _].
    now apply (inverse_within_tolerance _ tolerance). }
  assert (Hround : forall s, (nth i scores 0 <= s <= tolerance)%R ->
                             @round4 R float64 s = 1%R).
  { intros s [L U]. cbn [round4 float64 float_rounded].
    rewrite (Rround4_next_to_one s) by Lra.lra.
    apply (rnd_one _ _ _ _ _ laws). }
  assert (Hle1 : forall j, (@round4 R float64 (nth j scores 0%R) <= 1)%R).
  { intros j. cbn [round4 float64 float_rounded].
    assert (Rround4 (nth j scores 0%R) <= 1)%R as M.
    { rewrite <- (Rround4_next_to_one tolerance) by Lra.lra.
      pose proof (@round4_monotone R float_R float_R_laws
                    (nth j scores 0%R) tolerance) as M.
      cbn [round4 fleb float_R] in M. rewrite !Rleb_true in M.
      apply M. apply Hbounds. }
    apply (rnd_monotone _ _ _ _ _ laws) in M.
    now rewrite (rnd_one _ _ _ _ _ laws) in M. }
  assert (Hindex : index_of_corpus vectorizer matrix examples)
    by apply tfidf64_index.
  assert (Hne : scores <> []).
  { intros E. rewrite E in Hlen. simpl in Hlen. lia. }
  destruct (@reversed_argsort_head R float64
              (float64_laws rnd log u tiny huge laws)
              numpy nlaws scores Hne)
    as [best [others [Hrev [Hbest [Hbig _]]]]].
  assert (Hbest1 : @round4 R float64 (nth best scores 0%R) = 1%R).
  { apply Hround. split; [|apply Hbounds].
    specialize (Hbig i ltac:(lia)).
    change (Rleb (nth i scores 0%R) (nth best scores 0%R) = true) in Hbig.
    now apply Rleb_true in Hbig. }
  pose proof (@get_top_k_returns R float64 numpy nlaws (to_text d) vectorizer
                matrix examples Hindex k Hk) as Hres.
  fold scores in Hres.
  eexists. split; [now apply (build_index64_returns rnd log analyzer examples d)|].
  split; [exact Hres|].
  cbv zeta. fold scores.
  split; [exact Hself|]. split; [exact Hmaxs|].
  split; [apply Hround; destruct (Hbounds i); Lra.lra|].
  rewrite (@top_indices_head R numpy scores _ best others)
    by (try exact Hrev; lia).
  cbn [map]. change (@fzero R float64) with 0%R. rewrite Hbest1.
  split; [eexists _, _; reflexivity|].
  split.
  { constructor; [cbn [snd]; Lra.lra|].
    apply Forall_forall. intros r Hr.
    apply in_map_iff in Hr. destruct Hr as [idx [<- _]]. cbn [snd].
    apply Hle1. }
  split.
  - intros Hunique. eexists. f_equal. f_equal.
    destruct (Nat.eq_dec best i) as [E|NE].
    + rewrite E. now apply nth_error_nth.
    + exfalso. specialize (Hunique best NE ltac:(lia)).
      specialize (Hbig i ltac:(lia)).
      change (Rleb (nth i scores 0%R) (nth best scores 0%R) = true) in Hbig.
      apply Rleb_true in Hbig. Lra.lra.
  - intros j d' Hj Hsame.
    rewrite (Hnth j d' Hj), (Hnth i d Hd). unfold score.
    now rewrite (encode64_same_token_counts rnd analyzer f _ _ Hsame).
Qed.

(** ** A run *)

(** Exact arithmetic is the rounding that changes nothing. *)
Lemma exact_rounding_laws (u tiny huge : R) :
  (0 <= u < 1)%R -> rounding_laws (fun x => x) ln u tiny huge.
Proof.
  intros Hu. constructor.
  - exact Hu.
  - intros x _. rewrite Rminus_diag, Rabs_R0.
    apply Rmult_le_pos; [Lra.lra | apply Rabs_pos].
  - auto.
  - reflexivity.
  - intros x Hx. destruct (Rle_lt_or_eq_dec _ _ Hx) as [L|E].
    + pose proof (ln_increasing 1 x Rlt_0_1 L) as H. rewrite ln_1 in H. Lra.lra.
    + rewrite <- E, ln_1. Lra.lra.
  - intros x Hx. pose proof (exp_ineq1_le (ln x)) as H.
    rewrite exp_ln in H by Lra.lra. Lra.lra.
Qed.

Lemma count_token_at_most (doc : list string) (c : nat) :
  forallb (fun t => (Tfidf.count_token t doc <=? c)%nat) doc = true ->
  forall t : string, Tfidf.count_token t doc <= c.
Proof.
  intros H t. destruct (in_dec string_dec t doc) as [Hin|Hout].
  - rewrite forallb_forall in H. apply Nat.leb_le. now apply H.
  - rewrite count_token_absent by exact Hout. lia.
Qed.

Lemma positive_within_tolerance (score tolerance : R) :
  (0 <= tolerance)%R -> (1 <= score * tolerance)%R -> (0 < score)%R.
Proof.
  intros Ht H. destruct (Rlt_le_dec 0 score) as [G|L]; [exact G|].
  exfalso. apply (Rmult_le_compat_r tolerance _ _ Ht) in L.
  rewrite Rmult_0_l in L. Lra.lra.
Qed.

(** C4, run in exact arithmetic as the case of rounding that changes
    nothing, with the unit roundoff and the normal range of binary64, on
    the default example of [app.py] followed by an example about
    something else: the second example, ranked by its own text, comes
    first with score 1.0, and the default example, which shares no token
    with it, has similarity 0. *)
Lemma build_index_round_trip_witness :
  exists vectorizer matrix texts rest,
    @build_index R (Tfidf64.sklearn_tfidf (fun x => x) ln Tfidf.default_analyzer)
                 [default_example; slack_example]
    = Returns (vectorizer, matrix, texts)
    /\ @get_top_k R (float_rounded (fun x => x)) numpy_stable
                  (to_text slack_example) vectorizer matrix
                  [default_example; slack_example] 3
       = Returns ((slack_example, 1%R) :: rest).
Proof.
  assert (laws : rounding_laws (fun x : R => x) ln
                   (/ 2 ^ 53) (/ 2 ^ 1022) (2 ^ 1023)).
  { apply exact_rounding_laws. Lra.lra. }
  assert (Hsize : vocabulary_size Tfidf.default_analyzer
                    [default_example; slack_example] = 27)
    by (vm_compute; reflexivity).
  assert (Hrange : within_float_range (/ 2 ^ 1022) (2 ^ 1023)
                     Tfidf.default_analyzer [default_example; slack_example] 3).
  { split; [|split].
    - intros e t [<-|[<-|[]]]; apply count_token_at_most;
        vm_compute; reflexivity.
    - Lra.lra.
    - cbv zeta. rewrite Hsize. unfold row_bound.
      cbn [List.length].
      replace (INR 27) with 27%R by (simpl; Lra.lra).
      replace (INR 3) with 3%R by (simpl; Lra.lra).
      replace (INR 2) with 2%R by (simpl; Lra.lra).
      split; Lra.lra. }
  destruct (build_index_round_trip (fun x => x) ln
              (/ 2 ^ 53) (/ 2 ^ 1022) (2 ^ 1023)
              Tfidf.default_analyzer numpy_stable
              (@numpy_stable_laws R (float_rounded (fun x => x))
                 (float64_laws _ _ _ _ _ laws))
              [default_example; slack_example] 3 1 slack_example 3
              laws Hrange eq_refl
              ltac:(intros H; vm_compute in H; discriminate H)
              ltac:(lia)
              ltac:(rewrite Hsize; unfold round_trip_tolerance;
                    change (3 * 27 + 7) with 88; Lra.lra))
    as [vectorizer [matrix [texts [results [H1 [H2 H3]]]]]].
  cbv zeta in H3.
  destruct H3 as [[Hself _] [_ [_ [_ [_ [Hfirst _]]]]]].
  pose proof (build_index64_returns (fun x => x) ln Tfidf.default_analyzer
                [default_example; slack_example] slack_example
                (or_intror (or_introl eq_refl))
                ltac:(intros H; vm_compute in H; discriminate H)) as Hbuilt.
  cbv zeta in Hbuilt.
  assert (Hsame : Returns (vectorizer, matrix, texts) = Returns _)
    by (rewrite <- H1; exact Hbuilt).
  injection Hsame as Hv Hm Ht.
  exists vectorizer, matrix, texts.
  destruct Hfirst as [rest ->]; [|exists rest; split; [exact H1 | exact H2]].
  intros j Hj Hlt.
  assert (j = 0) as -> by (cbn [List.length] in Hlt; lia).
  assert (Hzero : nth 0 (@similarity_scores R (float_rounded (fun x => x))
                           (to_text slack_example) vectorizer matrix) 0%R = 0%R).
  { rewrite Hv, Hm, similarity_scores_tfidf64. cbn [map nth].
    apply (similarity_without_common_token _ _ _ _ _ laws).
    vm_compute. reflexivity. }
  rewrite Hzero.
  rewrite Hsize in Hself.
  assert (0 <= round_trip_tolerance (/ 2 ^ 53) 27)%R as Htol.
  { unfold round_trip_tolerance. apply pow_le.
    apply Rmult_le_pos; [Lra.lra|]. apply Rlt_le, Rinv_0_lt_compat. Lra.lra. }
  exact (positive_within_tolerance _ _ Htol Hself).
Defined.

(* ================================================================= *)
(** * Further properties of [validate.py] *)

(** ** Coverage as a function of the required names *)

Lemma coverage_metric_of_names (candidate schema : dict) (names : list string) :
  required_names schema = Some names ->
  coverage_metric candidate schema
  = Returns (match names with
             | [] => 1%Q
             | _ => Qmake (Z.of_nat (List.length (filter (dict_has candidate) names)))
                          (Pos.of_nat (List.length names))
             end).
Proof.
  intros Hreq. unfold required_names in Hreq.
  unfold coverage_metric. rewrite dict_get_lookup.
  destruct (dict_lookup schema "required") as [v|].
  2:{ inversion Hreq; subst. reflexivity. }
  destruct v as [| | | | |l|]; try discriminate Hreq.
  destruct (forallb _ l) eqn:Hall; [|discriminate Hreq].
  injection Hreq as Hn.
  pose proof (all_strings_names l Hall) as Hl. rewrite Hn in Hl.
  clear Hall Hn. subst l.
  destruct names as [|n names]; [reflexivity|].
  assert (truthy (JArr (map JStr (n :: names))) = true) as -> by reflexivity.
  cbn [negb py_iter bind].
  rewrite mapM_in_dict_names. cbn [bind].
  now rewrite count_true_filter, length_map.
Qed.

Lemma pos_of_nat_Z (n : nat) : 0 < n -> Z.pos (Pos.of_nat n) = Z.of_nat n.
Proof. intros H. destruct n; [lia|]. rewrite <- Pos.of_nat_succ. lia. Qed.

Lemma filter_all_iff {A : Type} (f : A -> bool) (l : list A) :
  List.length (filter f l) = List.length l <-> forall x, In x l -> f x = true.
Proof.
  induction l as [|a l IH]; simpl; [tauto|].
  pose proof (filter_length_le f l) as Hle.
  destruct (f a) eqn:E; simpl.
  - split.
    + intros H x [<-|Hx]; [exact E|]. apply IH; [lia|exact Hx].
    + intros H. f_equal. apply IH. intros x Hx. apply H. now right.
  - split; [lia|]. intros H. specialize (H a (or_introl eq_refl)). congruence.
Qed.

Lemma filter_none_iff {A : Type} (f : A -> bool) (l : list A) :
  List.length (filter f l) = 0 <-> forall x, In x l -> f x = false.
Proof.
  induction l as [|a l IH]; simpl; [tauto|].
  destruct (f a) eqn:E; simpl.
  - split; [lia|]. intros H. specialize (H a (or_introl eq_refl)). congruence.
  - rewrite IH. split.
    + intros H x [<-|Hx]; [exact E|now apply H].
    + intros H x Hx. apply H. now right.
Qed.

Lemma filter_length_monotone {A : Type} (f g : A -> bool) (l : list A) :
  (forall x, In x l -> f x = true -> g x = true) ->
  List.length (filter f l) <= List.length (filter g l).
Proof.
  induction l as [|a l IH]; simpl; intros H; [lia|].
  assert (List.length (filter f l) <= List.length (filter g l)) as Hl.
  { apply IH. intros x Hx. apply H. now right. }
  specialize (H a (or_introl eq_refl)).
  destruct (f a); destruct (g a); simpl; try lia.
  all: specialize (H eq_refl); discriminate H.
Qed.

(** X8: when the schema requires at least one name, the coverage is 1
    exactly when every required name is a key of the candidate, and 0
    exactly when none is. *)
Theorem coverage_metric_extremes :
  forall (candidate schema : dict) (names : list string),
    required_names schema = Some names ->
    names <> [] ->
    exists ratio,
      coverage_metric candidate schema = Returns ratio
      /\ ((ratio == 1)%Q <-> forall n, In n names -> dict_has candidate n = true)
      /\ ((ratio == 0)%Q <-> forall n, In n names -> dict_has candidate n = false).
Proof.
  intros candidate schema names Hreq Hne.
  rewrite (coverage_metric_of_names candidate schema names Hreq).
  destruct names as [|n names]; [now elim Hne|].
  set (l := n :: names). eexists. split; [reflexivity|].
  assert (0 < List.length l) as Hpos by (subst l; simpl; lia).
  unfold Qeq. cbn [Qnum Qden]. rewrite (pos_of_nat_Z _ Hpos).
  split.
  - rewrite <- filter_all_iff. lia.
  - rewrite <- filter_none_iff. lia.
Qed.

(** X8, run on the sample schema and a candidate with all three required
    keys, two of them with values of the wrong kind. *)
Lemma coverage_metric_extremes_witness :
  exists ratio,
    coverage_metric [("id", JInt 7); ("type", JNull); ("action", JObj [])]
                    JsonSchemaFragment.sample_schema_dict
    = Returns ratio
    /\ (ratio == 1)%Q.
Proof.
  destruct (coverage_metric_extremes
              [("id", JInt 7); ("type", JNull); ("action", JObj [])]
              JsonSchemaFragment.sample_schema_dict ["id"; "type"; "action"]
              eq_refl ltac:(discriminate))
    as [ratio [H [H1 _]]].
  exists ratio. split; [exact H|].
  apply H1. intros n [<-|[<-|[<-|[]]]]; reflexivity.
Defined.

(** X9: adding keys to a candidate never lowers its coverage: if every
    key of [candidate] is a key of [candidate'], the coverage of
    [candidate'] is at least that of [candidate]. *)
Theorem coverage_metric_monotone :
  forall (candidate candidate' schema : dict) (names : list string),
    required_names schema = Some names ->
    (forall key, dict_has candidate key = true -> dict_has candidate' key = true) ->
    exists ratio ratio',
      coverage_metric candidate schema = Returns ratio
      /\ coverage_metric candidate' schema = Returns ratio'
      /\ (ratio <= ratio')%Q.
Proof.
  intros candidate candidate' schema names Hreq Hsub.
  rewrite (coverage_metric_of_names candidate schema names Hreq).
  rewrite (coverage_metric_of_names candidate' schema names Hreq).
  eexists _, _. split; [reflexivity|]. split; [reflexivity|].
  destruct names as [|n names]; [apply Qle_refl|].
  unfold Qle. cbn [Qnum Qden].
  apply Z.mul_le_mono_nonneg_r; [lia|].
  apply Nat2Z.inj_le. apply filter_length_monotone.
  intros x _. apply Hsub.
Qed.

(** X9, run on the partial candidate of [validate.py] and the same
    candidate with an [action]. *)
Lemma coverage_metric_monotone_witness :
  exists ratio ratio',
    coverage_metric partial_candidate JsonSchemaFragment.sample_schema_dict
    = Returns ratio
    /\ coverage_metric (("action", JObj []) :: partial_candidate)
                       JsonSchemaFragment.sample_schema_dict
       = Returns ratio'
    /\ (ratio <= ratio')%Q.
Proof.
  apply (coverage_metric_monotone partial_candidate
           (("action", JObj []) :: partial_candidate)
           JsonSchemaFragment.sample_schema_dict ["id"; "type"; "action"] eq_refl).
  intros key H. simpl in *. rewrite H. apply orb_true_r.
Defined.

(** ** When [coverage_metric] raises *)

Lemma mapM_in_dict_hashable (candidate : dict) (l : list json) :
  forallb hashable l = true ->
  exists present,
    mapM (fun field => py_in_dict field candidate) l = Returns present
    /\ List.length present = List.length l.
Proof.
  induction l as [|v l IH]; simpl; intros H.
  - now exists [].
  - apply andb_true_iff in H. destruct H as [Hv Hl].
    destruct (IH Hl) as [present [E Hlen]].
    destruct v; simpl in Hv; try discriminate Hv; simpl; rewrite E; simpl;
      eexists; (split; [reflexivity|simpl; now rewrite Hlen]).
Qed.

Lemma mapM_in_dict_unhashable (candidate : dict) (l : list json) :
  forallb hashable l = false ->
  exists msg,
    mapM (fun field => py_in_dict field candidate) l = Raises (TypeError msg).
Proof.
  induction l as [|v l IH]; simpl; intros H; [discriminate H|].
  destruct (hashable v) eqn:Hv.
  - simpl in H. destruct (IH H) as [msg E].
    destruct v; simpl in Hv; try discriminate Hv; simpl; rewrite E; simpl;
      now exists msg.
  - destruct v; simpl in Hv; try discriminate Hv; simpl; eexists; reflexivity.
Qed.

Lemma mapM_in_dict_strings {A : Type} (candidate : dict) (f : A -> string)
    (l : list A) :
  mapM (fun field => py_in_dict field candidate) (map (fun a => JStr (f a)) l)
  = Returns (map (fun a => dict_has candidate (f a)) l).
Proof.
  induction l as [|a l IH]; simpl; [reflexivity|].
  rewrite IH. reflexivity.
Qed.

Lemma count_true_le (present : list bool) :
  List.length (filter (fun b : bool => b) present) <= List.length present.
Proof. apply filter_length_le. Qed.

(** X10: [coverage_metric] can raise. With [required] the value of
    [schema.get('required', [])], it returns a ratio between 0 and 1 when
    that value is falsy, a string, a dict, or a list with no list or dict
    among its elements, whatever the candidate; in every other case (a
    non-zero number, [True], a list holding a list or a dict) it raises a
    [TypeError]. *)
Theorem coverage_metric_raises_iff :
  forall (candidate schema : dict),
    let required_fields := dict_get schema "required" (JArr []) in
    (coverage_defined required_fields = true ->
     exists ratio, coverage_metric candidate schema = Returns ratio
                   /\ (0 <= ratio <= 1)%Q)
    /\ (coverage_defined required_fields = false ->
        exists msg, coverage_metric candidate schema = Raises (TypeError msg)).
Proof.
  intros candidate schema required_fields.
  unfold coverage_metric. fold required_fields.
  unfold coverage_defined.
  destruct (truthy required_fields) eqn:Ht; cbn [negb orb].
  2:{ split; [|discriminate]. intros _. exists 1%Q.
      split; [reflexivity|]. split; discriminate. }
  destruct required_fields as [|b|n|x|s|l|m]; simpl in Ht; try discriminate Ht.
  - split; [discriminate|]. intros _. eexists. reflexivity.
  - split; [discriminate|]. intros _. eexists. reflexivity.
  - split; [discriminate|]. intros _. eexists. reflexivity.
  - split; [|discriminate]. intros _. cbn [py_iter bind].
    rewrite (mapM_in_dict_strings candidate (fun c => String c EmptyString)).
    cbn [bind]. eexists. split; [reflexivity|].
    apply ratio_bounds.
    + rewrite length_map.
      etransitivity; [apply count_true_le|]. now rewrite length_map.
    + rewrite length_map. destruct s; [discriminate Ht|]. simpl. lia.
  - split.
    + intros Hh. cbn [py_iter bind].
      destruct (mapM_in_dict_hashable candidate l Hh) as [present [E Hlen]].
      rewrite E. cbn [bind]. eexists. split; [reflexivity|].
      apply ratio_bounds.
      * rewrite <- Hlen. apply count_true_le.
      * destruct l; [discriminate Ht|]. simpl. lia.
    + intros Hh. cbn [py_iter bind].
      destruct (mapM_in_dict_unhashable candidate l Hh) as [msg E].
      rewrite E. cbn [bind]. now exists msg.
  - split; [|discriminate]. intros _. cbn [py_iter bind].
    rewrite (mapM_in_dict_strings candidate fst).
    cbn [bind]. eexists. split; [reflexivity|].
    apply ratio_bounds.
    + rewrite length_map.
      etransitivity; [apply count_true_le|]. now rewrite length_map.
    + rewrite length_map. destruct m; [discriminate Ht|]. simpl. lia.
Qed.

(** X10, run on a schema whose [required] is the number 3. *)
Lemma coverage_metric_raises_iff_witness :
  coverage_metric partial_candidate [("required", JInt 3)]
  = Raises (TypeError "'int' object is not iterable").
Proof.
  destruct (proj2 (coverage_metric_raises_iff partial_candidate
                     [("required", JInt 3)]) eq_refl) as [msg H].
  rewrite H. vm_compute in H. inversion H. reflexivity.
Defined.

(** ** A valid candidate has full coverage *)

Lemma find_none_all_strings (l : list json) :
  find (fun t => match t with JStr _ => false | _ => true end) l = None ->
  forallb (fun t => match t with JStr _ => true | _ => false end) l = true.
Proof.
  induction l as [|t l IH]; simpl; [reflexivity|].
  destruct t; simpl; try discriminate. exact IH.
Qed.

Lemma check_schema_required (members : dict) (v : json) :
  JsonSchemaFragment.check_schema (JObj members) = None ->
  dict_lookup members "required" = Some v ->
  exists l, v = JArr l
            /\ forallb (fun t => match t with JStr _ => true | _ => false end) l
               = true.
Proof.
  induction members as [|[k x] members IH]; intros Hc Hl; [discriminate Hl|].
  simpl in Hl. destruct (String.eqb_spec k "required") as [->|Hk].
  - inversion Hl; subst x. simpl in Hc.
    destruct v as [| | | | |l|]; try discriminate Hc.
    destruct (find _ l) eqn:Hf; [discriminate Hc|].
    exists l. split; [reflexivity|now apply find_none_all_strings].
  - apply IH; [|exact Hl]. simpl in Hc.
    match type of Hc with
    | match ?h with _ => _ end = None => destruct h; [discriminate Hc|exact Hc]
    end.
Qed.

Lemma required_keyword_none (names : list string) (candidate : dict) :
  JsonSchemaFragment.required_keyword (JArr (map JStr names)) (JObj candidate) = [] ->
  forall n, In n names -> dict_has candidate n = true.
Proof.
  simpl. induction names as [|p names IH]; simpl; intros H n Hn; [contradiction|].
  apply app_eq_nil in H. destruct H as [Hp Hrest].
  destruct Hn as [<-|Hn]; [|now apply IH].
  destruct (dict_has candidate p); [reflexivity|discriminate Hp].
Qed.

Lemma iter_errors_required (members : dict) (instance required : json) :
  JsonSchemaFragment.iter_errors (JObj members) instance = [] ->
  dict_lookup members "required" = Some required ->
  JsonSchemaFragment.required_keyword required instance = [].
Proof.
  induction members as [|[k x] members IH]; intros He Hl; [discriminate Hl|].
  simpl in Hl. simpl in He. apply app_eq_nil in He. destruct He as [Hhead Htail].
  destruct (String.eqb_spec k "required") as [->|Hk].
  - inversion Hl; subst x. exact Hhead.
  - now apply IH.
Qed.

Lemma best_match_none (errors : list validation_error) :
  JsonSchemaFragment.best_match errors = None -> errors = [].
Proof. destruct errors; [reflexivity|discriminate]. Qed.

(** X11: for a schema written with the keywords [type], [properties],
    [required] and [enum] alone, at every depth (so without [$schema] and
    without [$ref], whose neighbours older drafts ignore), a candidate
    that [validate_output] accepts has coverage 1: validity implies that
    every required name is present.  The package read on these keywords is
    [JsonSchemaFragment].  (The converse fails: coverage looks at keys
    only.) *)
Theorem valid_candidate_has_full_coverage :
  forall (candidate schema : dict) (errors : list string),
    in_fragment (JObj schema) = true ->
    @validate_output JsonSchemaFragment.jsonschema_fragment candidate schema
    = Returns (true, errors) ->
    exists ratio,
      coverage_metric candidate schema = Returns ratio /\ (ratio == 1)%Q.
Proof.
  intros candidate schema errors _ H.
  unfold validate_output in H. cbn [validate JsonSchemaFragment.jsonschema_fragment] in H.
  unfold JsonSchemaFragment.validate_fragment in H.
  destruct (JsonSchemaFragment.check_schema (JObj schema)) as [m|] eqn:Hc;
    [discriminate H|].
  destruct (JsonSchemaFragment.best_match
              (JsonSchemaFragment.iter_errors (JObj schema) (JObj candidate)))
    as [e|] eqn:Hb; [discriminate H|].
  apply best_match_none in Hb. clear H.
  destruct (dict_lookup schema "required") as [v|] eqn:Hl.
  - destruct (check_schema_required schema v Hc Hl) as [l [-> Hall]].
    pose proof (iter_errors_required schema (JObj candidate) (JArr l) Hb Hl) as Hreq.
    pose proof (all_strings_names l Hall) as Hnames.
    set (names := flat_map (fun t => match t with JStr n => [n] | _ => [] end) l)
      in Hnames.
    assert (required_names schema = Some names) as Hrn.
    { unfold required_names. rewrite Hl, Hall. reflexivity. }
    rewrite (coverage_metric_of_names candidate schema names Hrn).
    eexists. split; [reflexivity|].
    rewrite Hnames in Hreq.
    pose proof (required_keyword_none names candidate Hreq) as Hpresent.
    destruct names as [|n names']; [reflexivity|].
    apply (proj2 (filter_all_iff (dict_has candidate) (n :: names'))) in Hpresent.
    rewrite Hpresent. unfold Qeq. cbn [Qnum Qden].
    rewrite pos_of_nat_Z by (simpl; lia). lia.
  - assert (required_names schema = Some []) as Hrn.
    { unfold required_names. now rewrite Hl. }
    rewrite (coverage_metric_of_names candidate schema [] Hrn).
    eexists. split; reflexivity.
Qed.

(** X11, run on the first test of [validate.py], whose schema has the
    four keywords only. *)
Lemma valid_candidate_has_full_coverage_witness :
  exists ratio,
    coverage_metric
      [("id", JStr "wf-001"); ("type", JStr "notification");
       ("condition", JObj [("field", JStr "duration"); ("operator", JStr ">");
                           ("value", JInt 120)]);
       ("action", JObj [("type", JStr "email");
                        ("recipients", JArr [JStr "admin@example.com"])]);
       ("priority", JStr "high")]
      JsonSchemaFragment.sample_schema_dict
    = Returns ratio
    /\ (ratio == 1)%Q.
Proof.
  apply (valid_candidate_has_full_coverage _ _ []).
  - reflexivity.
  - vm_compute. reflexivity.
Defined.

(* ================================================================= *)
(** * Properties of [utils.py] *)

Lemma json_nested_ind (P : json -> Prop) :
  P JNull ->
  (forall b, P (JBool b)) ->
  (forall n, P (JInt n)) ->
  (forall x, P (JFloat x)) ->
  (forall s, P (JStr s)) ->
  (forall l, Forall P l -> P (JArr l)) ->
  (forall m, Forall (fun kv => P (snd kv)) m -> P (JObj m)) ->
  forall v, P v.
Proof.
  intros Hnull Hbool Hint Hfloat Hstr Harr Hobj.
  fix IH 1.
  intros [ |b|n|x|s|l|m];
    [apply Hnull|apply Hbool|apply Hint|apply Hfloat|apply Hstr| | ].
  - apply Harr. induction l as [|a l IHl]; constructor; [apply IH|exact IHl].
  - apply Hobj. induction m as [|[k a] m IHm]; constructor; [apply IH|exact IHm].
Qed.

(** X12: [_flatten] yields exactly one item per scalar value of the
    object, at every depth and whatever the prefix; empty lists and empty
    dicts leave no trace in the flattened text. *)
Theorem flatten_one_item_per_scalar :
  forall (obj : json) (prefix : string),
    List.length (_flatten obj prefix) = scalar_leaves obj.
Proof.
  induction obj as [ |b|n|x|s|l IHl|m IHm] using json_nested_ind;
    intros prefix; try reflexivity.
  - simpl. generalize 0 at 1 as i.
    induction IHl as [|item l Hitem _ IH]; intros i; [reflexivity|].
    rewrite length_app, IH. f_equal.
    destruct item; try reflexivity; apply Hitem.
  - simpl.
    induction IHm as [|[key value] m Hvalue _ IH]; [reflexivity|].
    rewrite length_app, IH. f_equal.
    destruct value; try reflexivity; apply Hvalue.
Qed.

(** X13: flattening does not keep the shape of a config: a scalar [v]
    under key [k2] inside the dict under a non-empty key [k1] and the same
    scalar under the single key [k1.k2] flatten to the same text. *)
Theorem flatten_config_to_text_collision :
  forall (k1 k2 : string) (v : json),
    k1 <> EmptyString ->
    is_scalar v = true ->
    flatten_config_to_text [(k1, JObj [(k2, v)])]
    = flatten_config_to_text [(k1 ++ "." ++ k2, v)].
Proof.
  intros k1 k2 v Hk Hv. unfold flatten_config_to_text.
  assert (String.eqb k1 EmptyString = false) as E
      by (now apply String.eqb_neq).
  destruct v; try discriminate Hv; simpl; rewrite E; reflexivity.
Qed.

(** X13, run on an action given nested and given with a dotted key. *)
Lemma flatten_config_to_text_collision_witness :
  flatten_config_to_text [("action", JObj [("type", JStr "email")])]
  = flatten_config_to_text [("action.type", JStr "email")].
Proof.
  apply (flatten_config_to_text_collision "action" "type" (JStr "email")).
  - discriminate.
  - reflexivity.
Defined.

(* ================================================================= *)
(** * Properties of [llm_client.py] *)

(** ** Texts *)

Lemma append_nil_r (s : string) : s ++ EmptyString = s.
Proof. induction s as [|c s IH]; simpl; [reflexivity | now rewrite IH]. Qed.

Lemma append_assoc (a b c : string) : (a ++ b) ++ c = a ++ (b ++ c).
Proof. induction a as [|x a IH]; simpl; [reflexivity | now rewrite IH]. Qed.

Lemma length_append (a b : string) :
  String.length (a ++ b) = (String.length a + String.length b)%nat.
Proof. induction a as [|x a IH]; simpl; [reflexivity | now rewrite IH]. Qed.

Lemma last_char_append (a : string) (c : ascii) (b : string) :
  last_char (a ++ String c b) = last_char (String c b).
Proof.
  induction a as [|x a IH]; [reflexivity |].
  change (String x a ++ String c b) with (String x (a ++ String c b)).
  cbn [last_char]. destruct (a ++ String c b) eqn:E.
  - destruct a; discriminate E.
  - exact IH.
Qed.

Lemma strip_prefix_Some (w s r : string) :
  strip_prefix w s = Some r -> s = w ++ r.
Proof.
  revert s. induction w as [|a w IH]; intros s H; simpl in *.
  - now injection H as ->.
  - destruct s as [|b s]; [discriminate |].
    destruct (Ascii.eqb_spec a b) as [->|]; [| discriminate].
    now rewrite (IH _ H).
Qed.

Lemma strip_prefix_append (w s : string) : strip_prefix w (w ++ s) = Some s.
Proof.
  induction w as [|a w IH]; simpl; [reflexivity |].
  now rewrite Ascii.eqb_refl.
Qed.

(** ** [strip] *)

Lemma lstrip_head (s : string) (c : ascii) (r : string) :
  lstrip s = String c r -> is_space c = false.
Proof.
  induction s as [|x s IH]; simpl; [discriminate |].
  destruct (is_space x) eqn:E; [exact IH |].
  intros H. injection H as -> _. exact E.
Qed.

Lemma lstrip_idempotent (s : string) : lstrip (lstrip s) = lstrip s.
Proof.
  induction s as [|x s IH]; simpl; [reflexivity |].
  destruct (is_space x) eqn:E; [exact IH |]. simpl. now rewrite E.
Qed.

Lemma lstrip_append_fence (a b : string) :
  lstrip (a ++ String backtick b) = lstrip a ++ String backtick b.
Proof.
  induction a as [|x a IH]; [reflexivity |].
  simpl. destruct (is_space x); [exact IH | reflexivity].
Qed.

Lemma rstrip_append_space (a : string) (c : ascii) :
  is_space c = true -> rstrip (a ++ String c EmptyString) = rstrip a.
Proof.
  intros Hc. induction a as [|x a IH]; simpl.
  - now rewrite Hc.
  - now rewrite IH.
Qed.

Lemma strip_append_space (a : string) (c : ascii) :
  is_space c = true -> strip (a ++ String c EmptyString) = strip a.
Proof.
  intros Hc. unfold strip. induction a as [|x a IH]; simpl.
  - now rewrite Hc.
  - destruct (is_space x); [exact IH |].
    change (String x (a ++ String c EmptyString))
      with (String x a ++ String c EmptyString).
    now apply rstrip_append_space.
Qed.

Lemma strip_lstrip (s : string) : strip (lstrip s) = strip s.
Proof. unfold strip. now rewrite lstrip_idempotent. Qed.

Lemma rstrip_last (s : string) (c : ascii) :
  last_char (rstrip s) = Some c -> is_space c = false.
Proof.
  induction s as [|x s IH]; simpl; [discriminate |].
  destruct (rstrip s) as [|y r] eqn:E.
  - destruct (is_space x) eqn:Ex; simpl; [discriminate |].
    intros H. injection H as <-. exact Ex.
  - intros H. apply IH. exact H.
Qed.

Lemma strip_last (s : string) (c : ascii) :
  last_char (strip s) = Some c -> is_space c = false.
Proof. apply rstrip_last. Qed.

(** ** The pattern of the code fence *)

Lemma re_match_Lit (w : string) (rest : list regex_item) (s g : string) :
  re_match (Lit w :: rest) s g
  = match strip_prefix w s with
    | Some s' => re_match rest s' g
    | None => None
    end.
Proof. reflexivity. Qed.

Lemma re_match_OptLit (w : string) (rest : list regex_item) (s g : string) :
  re_match (OptLit w :: rest) s g
  = match strip_prefix w s with
    | Some s' =>
        match re_match rest s' g with
        | Some x => Some x
        | None => re_match rest s g
        end
    | None => re_match rest s g
    end.
Proof. reflexivity. Qed.

Lemma re_match_Star (cls : ascii -> bool) (rest : list regex_item)
    (s g : string) :
  re_match (Star cls :: rest) s g
  = star_loop cls (fun s' => re_match rest s' g) s.
Proof. reflexivity. Qed.

Lemma re_match_LazyGroup (cls : ascii -> bool) (rest : list regex_item)
    (s g : string) :
  re_match (LazyGroup cls :: rest) s g
  = lazy_loop cls (re_match rest) s EmptyString.
Proof. reflexivity. Qed.

Lemma fence_end_inv (r g x : string) :
  re_match [Lit "```"; EndAnchor] r g = Some x ->
  x = g /\ (r = "```" \/ r = "```" ++ String newline EmptyString).
Proof.
  cbn [re_match]. destruct (strip_prefix "```" r) as [s'|] eqn:E; [| discriminate].
  apply strip_prefix_Some in E. subst r.
  destruct (String.eqb_spec s' EmptyString) as [->|].
  - simpl. intros H. injection H as <-. auto.
  - destruct (String.eqb_spec s' (String newline EmptyString)) as [->|].
    + simpl. intros H. injection H as <-. auto.
    + simpl. discriminate.
Qed.

Lemma fence_close_inv (r g x : string) :
  re_match [OptLit (String newline EmptyString); Lit "```"; EndAnchor] r g
    = Some x ->
  x = g /\
  (r = "```" \/ r = "```" ++ String newline EmptyString \/
   r = String newline "```" \/
   r = String newline ("```" ++ String newline EmptyString)).
Proof.
  cbn [re_match].
  destruct (strip_prefix (String newline EmptyString) r) as [s'|] eqn:E.
  - apply strip_prefix_Some in E. subst r.
    destruct (strip_prefix "```" s') as [s2|] eqn:E2.
    + apply strip_prefix_Some in E2. subst s'.
      destruct (String.eqb_spec s2 EmptyString) as [->|].
      * simpl. intros H. injection H as <-. auto.
      * destruct (String.eqb_spec s2 (String newline EmptyString)) as [->|].
        -- simpl. intros H. injection H as <-. auto 6.
        -- simpl. discriminate.
    + simpl. discriminate.
  - intros H.
    assert (H' : re_match [Lit "```"; EndAnchor] r g = Some x) by exact H.
    apply fence_end_inv in H'. destruct H' as [-> [->| ->]]; auto.
Qed.

Lemma lazy_group_fence (u g : string) :
  exists u',
    lazy_loop (fun _ => true)
      (re_match [OptLit (String newline EmptyString); Lit "```"; EndAnchor])
      (u ++ "```") g = Some (g ++ u')
    /\ (u = u' \/ u = u' ++ String newline EmptyString).
Proof.
  revert g. induction u as [|c u IH]; intros g.
  - exists EmptyString. split; [| now left].
    rewrite append_nil_r. reflexivity.
  - change (String c u ++ "```") with (String c (u ++ "```")).
    cbn [lazy_loop].
    destruct (re_match [OptLit (String newline EmptyString); Lit "```"; EndAnchor]
                (String c (u ++ "```")) g) as [x|] eqn:E.
    + apply fence_close_inv in E. destruct E as [-> E].
      assert (Hlast : last_char (String c (u ++ "```")) = Some backtick).
      { change (String c (u ++ "```"))
          with (String c u ++ String backtick "``").
        now rewrite last_char_append. }
      destruct E as [E|[E|[E|E]]].
      * apply (f_equal String.length) in E. simpl in E.
        rewrite length_append in E. simpl in E. lia.
      * rewrite E in Hlast. discriminate Hlast.
      * injection E as -> E.
        assert (u = EmptyString) as ->.
        { apply (f_equal String.length) in E. rewrite length_append in E.
          simpl in E. destruct u; [reflexivity | simpl in E; lia]. }
        exists EmptyString. split; [now rewrite append_nil_r | now right].
      * rewrite E in Hlast. discriminate Hlast.
    + destruct (IH (g ++ String c EmptyString)) as [u' [Hl Hu]].
      exists (String c u'). split.
      * rewrite Hl, append_assoc. reflexivity.
      * destruct Hu as [->| ->]; [now left | now right].
Qed.

Lemma star_loop_greedy (k : string -> option string) (s x : string) :
  k (lstrip s) = Some x -> star_loop is_space k s = Some x.
Proof.
  induction s as [|c s IH]; simpl; [auto |].
  destruct (is_space c); [| auto].
  intros H. now rewrite (IH H).
Qed.

Lemma optional_newline_skipped (rest : list regex_item) (a b g : string) :
  re_match (OptLit (String newline EmptyString) :: rest)
    (lstrip a ++ String backtick b) g
  = re_match rest (lstrip a ++ String backtick b) g.
Proof.
  rewrite re_match_OptLit.
  destruct (strip_prefix (String newline EmptyString)
              (lstrip a ++ String backtick b)) as [s'|] eqn:E; [| reflexivity].
  exfalso. apply strip_prefix_Some in E.
  destruct (lstrip a) as [|c r] eqn:El.
  - discriminate E.
  - injection E as -> _. apply lstrip_head in El. discriminate El.
Qed.

Lemma fence_body (i : string) :
  exists u',
    re_match [Star is_space; OptLit (String newline EmptyString);
              LazyGroup (fun _ => true);
              OptLit (String newline EmptyString); Lit "```"; EndAnchor]
      (i ++ "```") EmptyString = Some u'
    /\ strip u' = strip i.
Proof.
  destruct (lazy_group_fence (lstrip i) EmptyString) as [u' [Hl Hu]].
  exists u'. split.
  - rewrite re_match_Star. apply star_loop_greedy.
    change "```" with (String backtick "``") at 1.
    rewrite lstrip_append_fence, optional_newline_skipped, re_match_LazyGroup.
    exact Hl.
  - rewrite <- (strip_lstrip i).
    destruct Hu as [->| ->]; [reflexivity |].
    symmetry. now apply strip_append_space.
Qed.

Lemma strip_prefix_before (w a : string) (x : ascii) (b : string) :
  forallb (fun y => negb (Ascii.eqb y x)) (list_ascii_of_string w) = true ->
  strip_prefix w (a ++ String x b)
  = option_map (fun i' => i' ++ String x b) (strip_prefix w a).
Proof.
  revert a. induction w as [|y w IH]; intros a Hw; [reflexivity |].
  cbn [list_ascii_of_string forallb] in Hw.
  apply andb_true_iff in Hw. destruct Hw as [Hy Hw].
  destruct a as [|c a]; cbn [append strip_prefix].
  - apply negb_true_iff in Hy. now rewrite Hy.
  - destruct (Ascii.eqb y c); [now apply IH | reflexivity].
Qed.

Lemma fence_pattern_match (inner : string) :
  exists u',
    re_match fence_pattern ("```" ++ inner ++ "```") EmptyString = Some u'
    /\ strip u' = strip (drop_json inner).
Proof.
  unfold fence_pattern, drop_json.
  rewrite re_match_Lit, strip_prefix_append, re_match_OptLit.
  change (inner ++ "```") with (inner ++ String backtick "``").
  rewrite (strip_prefix_before "json" inner backtick "``" eq_refl).
  change (String backtick "``") with "```".
  destruct (strip_prefix "json" inner) as [i'|]; cbn [option_map].
  - destruct (fence_body i') as [u' [Hm Hs]].
    exists u'. now rewrite Hm.
  - apply fence_body.
Qed.

Lemma closes_fence_cons (c : ascii) (s : string) :
  closes_fence s -> closes_fence (String c s).
Proof.
  intros [p [->| ->]]; exists (String c p); [now left | now right].
Qed.

Lemma closes_fence_append (w s : string) :
  closes_fence s -> closes_fence (w ++ s).
Proof.
  induction w as [|c w IH]; [auto |]. intros H.
  apply (closes_fence_cons c (w ++ s)). auto.
Qed.

Lemma re_match_closes_fence_step (item : regex_item) (rest : list regex_item) :
  (forall s g x, re_match rest s g = Some x -> closes_fence s) ->
  forall s g x, re_match (item :: rest) s g = Some x -> closes_fence s.
Proof.
  intros Hrest s g x. destruct item as [w|w|cls|cls|]; cbn [re_match].
  - destruct (strip_prefix w s) as [s'|] eqn:E; [| discriminate].
    apply strip_prefix_Some in E. subst s. intros H.
    apply closes_fence_append. eauto.
  - destruct (strip_prefix w s) as [s'|] eqn:E; [| now eauto].
    apply strip_prefix_Some in E.
    destruct (re_match rest s' g) as [y|] eqn:E'; [| now eauto].
    intros _. subst s. apply closes_fence_append. eauto.
  - induction s as [|c s IH]; cbn [star_loop]; [now eauto |].
    destruct (cls c); [| now eauto].
    destruct (star_loop cls (fun s' => re_match rest s' g) s) as [y|] eqn:E;
      [| now eauto].
    intros H. apply closes_fence_cons. apply IH. congruence.
  - generalize EmptyString as g0. induction s as [|c s IH]; intros g0;
      cbn [lazy_loop].
    + destruct (re_match rest EmptyString g0) eqn:E; [| discriminate]. eauto.
    + destruct (re_match rest (String c s) g0) eqn:E; [now eauto |].
      destruct (cls c); [| discriminate].
      intros H. apply closes_fence_cons. eauto.
  - destruct (String.eqb s EmptyString || String.eqb s (String newline EmptyString));
      [now eauto | discriminate].
Qed.

Lemma fence_pattern_match_inv (s g : string) :
  re_match fence_pattern s EmptyString = Some g ->
  exists inner,
    s = "```" ++ inner ++ "```" \/
    s = "```" ++ inner ++ "```" ++ String newline EmptyString.
Proof.
  unfold fence_pattern. rewrite re_match_Lit.
  destruct (strip_prefix "```" s) as [s1|] eqn:E; [| discriminate].
  apply strip_prefix_Some in E. subst s. intros H.
  assert (Hc : closes_fence s1).
  { revert H.
    apply (re_match_closes_fence_step (OptLit "json")).
    apply (re_match_closes_fence_step (Star is_space)).
    apply (re_match_closes_fence_step (OptLit (String newline EmptyString))).
    apply (re_match_closes_fence_step (LazyGroup (fun _ => true))).
    apply (re_match_closes_fence_step (OptLit (String newline EmptyString))).
    intros r g' x Hr. apply fence_end_inv in Hr.
    destruct Hr as [_ [->| ->]]; exists EmptyString; [now left | now right]. }
  destruct Hc as [p [->| ->]]; exists p; [now left | now right].
Qed.

(** ** [parse_llm_text_to_json] *)

Lemma rstrip_idempotent (s : string) : rstrip (rstrip s) = rstrip s.
Proof.
  induction s as [|c s IH]; [reflexivity |].
  cbn [rstrip]. destruct (rstrip s) as [|y r] eqn:E.
  - destruct (is_space c) eqn:Ec; [reflexivity |].
    cbn [rstrip]. now rewrite Ec.
  - cbn [rstrip] in IH |- *. cbn [rstrip]. now rewrite IH.
Qed.

Lemma strip_idempotent (s : string) : strip (strip s) = strip s.
Proof.
  unfold strip.
  assert (H : lstrip (rstrip (lstrip s)) = rstrip (lstrip s)).
  { destruct (lstrip s) as [|c r] eqn:E; [reflexivity |].
    apply lstrip_head in E. cbn [rstrip].
    destruct (rstrip r); [| cbn [lstrip]; now rewrite E].
    rewrite E. cbn [lstrip]. now rewrite E. }
  rewrite H. apply rstrip_idempotent.
Qed.

Lemma strip_not_empty (text : string) :
  strip text <> EmptyString -> String.eqb text EmptyString = false.
Proof.
  intros H. apply String.eqb_neq. intros ->. now apply H.
Qed.

Section ParseLlmText.
Context {json_module : JsonLoads}.

(** X14: when the text, once stripped, stands between two triple
    backticks, [json.loads] receives what stands between them without a
    leading word [json] and stripped, and the result is the decoding of
    that; anything else between the backticks, another language tag
    included, is part of the text that is decoded. *)
Theorem parse_llm_text_to_json_fenced :
  forall (text inner : string),
    strip text = "```" ++ inner ++ "```" ->
    parse_llm_text_to_json text = decode_cleaned (strip (drop_json inner)).
Proof.
  intros text inner H. unfold parse_llm_text_to_json.
  rewrite strip_not_empty by (rewrite H; discriminate).
  cbv zeta. rewrite H.
  destruct (fence_pattern_match inner) as [u' [Hm Hs]].
  now rewrite Hm, Hs.
Qed.

(** X15: a text that is not empty and that, once stripped, does not
    stand between two triple backticks is decoded as it is, stripped: the
    fence pattern matches nothing else.  A text of white space only is
    such a text: it is not reported as empty but handed to [json.loads] as
    the empty text. *)
Theorem parse_llm_text_to_json_unfenced :
  forall (text : string),
    text <> EmptyString ->
    (forall inner, strip text <> "```" ++ inner ++ "```") ->
    parse_llm_text_to_json text = decode_cleaned (strip text).
Proof.
  intros text Ht H. unfold parse_llm_text_to_json.
  apply String.eqb_neq in Ht. rewrite Ht. cbv zeta.
  destruct (re_match fence_pattern (strip text) EmptyString) as [g|] eqn:E;
    [| reflexivity].
  exfalso. apply fence_pattern_match_inv in E.
  destruct E as [inner [E|E]]; [exact (H inner E) |].
  assert (Hl : last_char (strip text) = Some newline).
  { rewrite E.
    change ("```" ++ inner ++ "```" ++ String newline EmptyString)
      with (("```" ++ inner) ++ String backtick ("``" ++ String newline EmptyString)).
    now rewrite last_char_append. }
  apply strip_last in Hl. discriminate Hl.
Qed.

(** X16: [parse_llm_text_to_json] returns a dict and no error, or no
    dict and an error message that is not empty, never both and never
    neither, so that the test [if parse_error] of its callers is exact; the
    dict is one that [json.loads] returned, and an exception leaves the
    function only when [json.loads] raises one that is not a
    [JSONDecodeError]. *)
Theorem parse_llm_text_to_json_outcome :
  forall (text : string),
    (exists d cleaned,
        parse_llm_text_to_json text = Returns (Some d, None)
        /\ loads cleaned = Loaded (JObj d))
    \/ (exists msg,
           parse_llm_text_to_json text = Returns (None, Some msg)
           /\ msg <> EmptyString)
    \/ (exists e cleaned,
           parse_llm_text_to_json text = Raises e
           /\ loads cleaned = LoadsRaises e).
Proof.
  intros text. unfold parse_llm_text_to_json.
  destruct (String.eqb text EmptyString).
  { right; left. eexists. split; [reflexivity | discriminate]. }
  cbv zeta.
  set (cleaned := match re_match fence_pattern (strip text) EmptyString with
                  | Some group1 => strip group1
                  | None => strip text
                  end).
  unfold decode_cleaned.
  destruct (loads cleaned) as [parsed|str_e pos|e] eqn:E.
  - destruct parsed;
      try (right; left; eexists; split; [reflexivity | discriminate]).
    left. eauto.
  - right; left. cbv zeta.
    destruct (negb (pos =? 0)%nat);
      eexists; (split; [reflexivity | discriminate]).
  - right; right. eauto.
Qed.

(** X17: white space around the text does not count: a text that is not
    only white space gives what the same text stripped gives. *)
Theorem parse_llm_text_to_json_strip :
  forall (text : string),
    strip text <> EmptyString ->
    parse_llm_text_to_json text = parse_llm_text_to_json (strip text).
Proof.
  intros text H. unfold parse_llm_text_to_json.
  rewrite (strip_not_empty text H).
  apply String.eqb_neq in H. rewrite H.
  cbv zeta. now rewrite strip_idempotent.
Qed.

End ParseLlmText.

(** X14, run on an empty object in a fence tagged [json], with white
    space around the fence. *)
Lemma parse_llm_text_to_json_fenced_witness :
  @parse_llm_text_to_json sample_loads
    (" ```json" ++ String newline ("{}" ++ String newline ("```" ++ String newline EmptyString)))
  = Returns (Some [], None).
Proof.
  rewrite (@parse_llm_text_to_json_fenced sample_loads _
             ("json" ++ String newline ("{}" ++ String newline EmptyString)));
    reflexivity.
Defined.

(** X15, run on an empty list without a fence. *)
Lemma parse_llm_text_to_json_unfenced_witness :
  @parse_llm_text_to_json sample_loads " [] "
  = Returns (None, Some "Parsed JSON is not an object (got list)").
Proof.
  rewrite (@parse_llm_text_to_json_unfenced sample_loads " [] ").
  - reflexivity.
  - discriminate.
  - intros inner. discriminate.
Defined.

(** X17, run on an empty object between two spaces. *)
Lemma parse_llm_text_to_json_strip_witness :
  @parse_llm_text_to_json sample_loads " {} "
  = @parse_llm_text_to_json sample_loads "{}".
Proof.
  apply (@parse_llm_text_to_json_strip sample_loads " {} ").
  discriminate.
Defined.
